(** * Scan execution and aggregation engine: scoring, probes, orchestrator

    A shallow embedding of [app/scanners/scoring.py], of the parts of
    [app/scanners/base.py], [tls_security.py] and [internet_exposure.py]
    that build probe results, and of [run_comprehensive_scan] from
    [app/scanners/tasks.py].

    Python values are modelled as follows.
    - [int] is [Z]; [float] is an IEEE 754 binary64 value, given as a
      [spec_float] with the operations of [SpecFloat] at precision 53.
    - A result dictionary whose keys are fixed by the scanners is a record
      with one optional field per key that the code reads ([None] is a
      missing key, as [dict.get] sees it).
    - The category map and the per-category score table are finite maps
      keyed by category name.
    - A raised exception is a value of [exn]; code that can raise lives in
      the [outcome] monad. *)

From Stdlib Require Import ZArith List String Ascii Bool Lia Sorted Permutation.
From Stdlib Require Import Floats.SpecFloat Floats.PrimFloat Floats.FloatOps.
From stdpp Require Import base option list gmap strings pretty.

Open Scope Z_scope.

(** ** Exceptions and the [outcome] monad *)

Inductive exn_class :=
  | OverflowError
  | ValueError
  | ZeroDivisionError
  | KeyError
  | NetworkTimeoutError
  | ScanningNotPossibleError
  | InvalidTargetError
  | OtherException.

(** An exception instance: its class and [str(e)]. Every class above is a
    subclass of Python's [Exception]. *)
Record exn := mkExn { exn_cls : exn_class; exn_str : string }.

Inductive outcome (A : Type) :=
  | Ok (a : A)
  | Raise (e : exn).
Arguments Ok {A} a.
Arguments Raise {A} e.

Definition outcome_bind {A B} (f : A -> outcome B) (m : outcome A) : outcome B :=
  match m with
  | Ok a => f a
  | Raise e => Raise e
  end.

#[global] Instance outcome_ret : MRet outcome := fun A a => Ok a.
#[global] Instance outcome_mbind : MBind outcome := fun A B f m => outcome_bind f m.

Definition is_ok {A} (m : outcome A) : bool :=
  match m with Ok _ => true | Raise _ => false end.

(** [try: body except Exception as e: handler(e)] *)
Definition try_except {A} (body : outcome A) (handler : exn -> outcome A) : outcome A :=
  match body with
  | Ok a => Ok a
  | Raise e => handler e
  end.

(** ** Python numbers *)

Definition b64_of_Z (z : Z) : spec_float := binary_normalize prec emax z 0 false.
Definition b64_mul : spec_float -> spec_float -> spec_float := SFmul prec emax.
Definition b64_add : spec_float -> spec_float -> spec_float := SFadd prec emax.
Definition b64_sub : spec_float -> spec_float -> spec_float := SFsub prec emax.
Definition b64_div : spec_float -> spec_float -> spec_float := SFdiv prec emax.

(** The float literals of scoring.py, read as the nearest binary64 value. *)
Definition lit_0_8 : spec_float := Eval vm_compute in b64_div (b64_of_Z 8) (b64_of_Z 10).
Definition lit_0_2 : spec_float := Eval vm_compute in b64_div (b64_of_Z 2) (b64_of_Z 10).
Definition lit_0_5 : spec_float := Eval vm_compute in b64_div (b64_of_Z 1) (b64_of_Z 2).

Definition overflow_int_to_float : exn :=
  mkExn OverflowError "int too large to convert to float".

(** [float(z)]: round to nearest even; OverflowError past the binary64 range. *)
Definition float_of_int (z : Z) : outcome spec_float :=
  match b64_of_Z z with
  | S754_infinity _ => Raise overflow_int_to_float
  | f => Ok f
  end.

(** [int(f)]: truncation toward zero; raises on infinities and NaN. *)
Definition int_of_float (f : spec_float) : outcome Z :=
  match f with
  | S754_zero _ => Ok 0
  | S754_finite s m e =>
      let a := if 0 <=? e then Z.shiftl (Zpos m) e else Z.shiftr (Zpos m) (- e) in
      Ok (cond_Zopp s a)
  | S754_infinity _ => Raise (mkExn OverflowError "cannot convert float infinity to integer")
  | S754_nan => Raise (mkExn ValueError "cannot convert float NaN to integer")
  end.

(** [a / b] on two ints: the correctly rounded quotient. *)
Definition int_truediv (a b : Z) : outcome spec_float :=
  let sf (z : Z) :=
    match z with
    | Z0 => S754_zero false
    | Zpos p => S754_finite false p 0
    | Zneg p => S754_finite true p 0
    end in
  if b =? 0 then Raise (mkExn ZeroDivisionError "division by zero")
  else match b64_div (sf a) (sf b) with
       | S754_infinity _ =>
           Raise (mkExn OverflowError "integer division result too large for a float")
       | q => Ok q
       end.

(** A value that is an [int] or a [float]. *)
Inductive pynum :=
  | PInt (z : Z)
  | PFloat (f : spec_float).

Definition to_float (x : pynum) : outcome spec_float :=
  match x with
  | PInt z => float_of_int z
  | PFloat f => Ok f
  end.

Definition py_sub (x y : pynum) : outcome pynum :=
  match x, y with
  | PInt a, PInt b => Ok (PInt (a - b))
  | _, _ => f ← to_float x; g ← to_float y; Ok (PFloat (b64_sub f g))
  end.

Definition py_add (x y : pynum) : outcome pynum :=
  match x, y with
  | PInt a, PInt b => Ok (PInt (a + b))
  | _, _ => f ← to_float x; g ← to_float y; Ok (PFloat (b64_add f g))
  end.

Definition py_mul (x y : pynum) : outcome pynum :=
  match x, y with
  | PInt a, PInt b => Ok (PInt (a * b))
  | _, _ => f ← to_float x; g ← to_float y; Ok (PFloat (b64_mul f g))
  end.

(** [int(x)] *)
Definition py_int (x : pynum) : outcome Z :=
  match x with
  | PInt z => Ok z
  | PFloat f => int_of_float f
  end.

(** ** Result dictionaries *)

(** An element of ["open_ports"]. *)
Record port_info := mkPort {
  p_port : option Z;
  p_protocol : option string;
  p_service : option string;
  p_state : option string;
  p_method : option string;
  p_banner : option string
}.

(** An element of a ["vulnerabilities"] list. *)
Record finding := mkFinding {
  v_type : option string;
  v_version : option string;
  v_severity : option string;
  v_description : option string;
  v_cve_id : option string
}.

(** The ["certificate"] dictionary (non-empty when present). *)
Record certificate_info := mkCert {
  days_until_expiry : option Z;
  key_size : option Z
}.

Record spf_info := mkSpf { spf_exists : option bool }.
Record dkim_info := mkDkim { selectors_found : option (list string) }.
Record dmarc_info := mkDmarc { dmarc_exists : option bool }.

Record risk_counts := mkRisk {
  rs_critical : option Z;
  rs_high : option Z;
  rs_medium : option Z;
  rs_low : option Z
}.

Record admin_interface := mkAdmin {
  a_url : option string;
  authentication_required : option bool;
  mfa_detected : option bool
}.

(** An element of ["exposed_backups"] or ["config_files"]. *)
Record exposed_file := mkFile { x_url : option string }.

(** A category result: the dictionary a scanner returns, or the one the
    orchestrator writes for a scanner that raised. For the keys that hold a
    dictionary or [None] ([certificate], [spf], [dkim], [dmarc]) the field is
    [None] when the key is missing, holds [None] or holds an empty
    dictionary: the scorers test these three alike. *)
Record category_result := mkResult {
  status : option string;
  scan_duration : option string;
  note : option string;
  data : option unit;                       (* ["data": None] *)
  open_ports : option (list port_info);
  os_fingerprint : option string;
  total_ports_scanned : option Z;
  scan_method : option string;
  tls_versions : option (list string);
  certificate : option certificate_info;
  vulnerabilities : option (list finding);
  security_score : option Z;
  missing_headers : option (list string);
  spf : option spf_info;
  dkim : option dkim_info;
  dmarc : option dmarc_info;
  risk_summary : option risk_counts;
  admin_interfaces : option (list admin_interface);
  exposed_backups : option (list exposed_file);
  config_files : option (list exposed_file);
  waf_detected : option bool;
  ddos_protection : option bool;
  rate_limiting : option bool;
  security_tools : option (list string)
}.

(** The empty dictionary [{}]. *)
Definition empty_result : category_result :=
  mkResult None None None None None None None None None None None None
           None None None None None None None None None None None None.

(** [d.get(k, default)] on an optional field. *)
Definition get_or {A} (field : option A) (default : A) : A :=
  match field with Some a => a | None => default end.

(** [r.update(d)]: the keys of [d] win. *)
Definition dict_update (r d : category_result) : category_result :=
  let pick {A} (f : category_result -> option A) : option A :=
    match f d with Some a => Some a | None => f r end in
  mkResult (pick status) (pick scan_duration) (pick note) (pick data)
           (pick open_ports) (pick os_fingerprint) (pick total_ports_scanned)
           (pick scan_method) (pick tls_versions) (pick certificate)
           (pick vulnerabilities) (pick security_score) (pick missing_headers)
           (pick spf) (pick dkim) (pick dmarc) (pick risk_summary)
           (pick admin_interfaces) (pick exposed_backups) (pick config_files)
           (pick waf_detected) (pick ddos_protection) (pick rate_limiting)
           (pick security_tools).

(** The category map: [{category name: category result}]. *)
Abbreviation category_map := (gmap string category_result).

(** ** The score report *)

Record problem := mkProblem {
  category : string;
  issue : string;
  severity : string;
  description : string;
  impact : string
}.

Record recommendation_entry := mkRec {
  problem_id : string;
  recommendation : string;
  effort_estimate : string;
  steps : list string
}.

Record summary_info := mkSummary {
  categories_scanned : Z;
  categories_completed : Z;
  categories_failed : Z;
  total_issues_found : Z;
  critical_issues : Z;
  high_issues : Z;
  medium_issues : Z;
  low_issues : Z
}.

(** What a category scorer returns: [(score, problems, recommendations)]. *)
Abbreviation scored := (Z * list problem * list recommendation_entry)%type.

(** [x in xs] on ints, and where [x] may be [None]. *)
Definition int_in (n : Z) (xs : list Z) : bool := existsb (Z.eqb n) xs.

Definition port_in (x : option Z) (xs : list Z) : bool :=
  match x with
  | Some n => int_in n xs
  | None => false
  end.

Definition str_in (s : string) (xs : list string) : bool :=
  existsb (String.eqb s) xs.

(** Truthiness of an optional bool and of an optional list. *)
Definition truthy (b : option bool) : bool := get_or b false.
Definition nonempty {A} (l : option (list A)) : bool :=
  match l with Some (_ :: _) => true | _ => false end.

(** [str(x)] for an optional string, as an f-string prints it. *)
Definition str_opt (s : option string) : string := get_or s "None".

(** ** ScoringEngine (scoring.py) *)

(** [self.category_weights], in insertion order. *)
Definition category_weights : list (string * Z) :=
  [ ("internet_exposure", 20); ("tls_security", 15); ("web_security", 15);
    ("email_security", 10); ("vulnerabilities", 25); ("iam_assessment", 8);
    ("backup_dr", 4); ("logging_monitoring", 3) ].

(** [self.max_category_deduction] *)
Definition max_category_deduction : gmap string Z :=
  list_to_map
    [ ("internet_exposure", 20); ("tls_security", 15); ("web_security", 15);
      ("email_security", 10); ("vulnerabilities", 25); ("iam_assessment", 8);
      ("backup_dr", 4); ("logging_monitoring", 3) ].

(** [severity_order] of [_prioritize_problems], with its default 3. *)
Definition severity_order (s : string) : Z :=
  if String.eqb s "critical" then 0
  else if String.eqb s "high" then 1
  else if String.eqb s "medium" then 2
  else 3.

(** The accumulator of a scoring loop: [(problems, deductions)]. *)
Abbreviation loop_acc := (list problem * Z)%type.

Definition _score_internet_exposure (result : category_result) (max_weight : Z) : scored :=
  let open_ports := get_or (open_ports result) [] in
  let step (acc : loop_acc) (port_info : port_info) : loop_acc :=
    let '(problems, deductions) := acc in
    let service := get_or (p_service port_info) "unknown" in
    match p_port port_info with
    | None => acc                       (* [None] is in neither port list *)
    | Some port =>
        if int_in port [21; 23; 135; 139; 445; 1433; 3389] then
          (problems ++ [ mkProblem "internet_exposure"
                           ("High-risk port " +:+ pretty port +:+ " (" +:+ service +:+ ") is open")
                           "high"
                           ("Port " +:+ pretty port +:+ " running " +:+ service
                              +:+ " is accessible from the internet")
                           "Potential unauthorized access and exploitation" ],
           deductions + 4)
        else if int_in port [80; 8080]
                && negb (existsb (fun p => port_in (p_port p) [443]) open_ports) then
          (problems ++ [ mkProblem "internet_exposure"
                           ("HTTP service on port " +:+ pretty port +:+ " without HTTPS")
                           "medium"
                           "Unencrypted web service detected"
                           "Data transmitted in plain text" ],
           deductions + 2)
        else acc
    end in
  let '(problems, deductions) := fold_left step open_ports ([], 0) in
  let recommendations :=
    if existsb (fun p => port_in (p_port p) [21; 23]) open_ports then
      [ mkRec "insecure_protocols"
          "Disable insecure protocols (FTP, Telnet) and use secure alternatives"
          "Medium"
          [ "Identify services using insecure protocols";
            "Migrate to secure alternatives (SFTP, SSH)";
            "Update firewall rules to block insecure ports";
            "Verify secure configuration" ] ]
    else [] in
  (Z.max 0 (max_weight - deductions), problems, recommendations).

Definition _score_tls_security (result : category_result) (max_weight : Z) : scored :=
  let tls_versions := get_or (tls_versions result) [] in
  let vulnerabilities := get_or (vulnerabilities result) [] in
  let acc0 : loop_acc := ([], 0) in
  (* Check for weak TLS versions *)
  let acc1 : loop_acc :=
    if str_in "TLSv1.0" tls_versions || str_in "TLSv1.1" tls_versions then
      (fst acc0 ++ [ mkProblem "tls_security" "Outdated TLS versions supported" "high"
                       "TLS 1.0/1.1 are deprecated and vulnerable"
                       "Potential for man-in-the-middle attacks" ],
       snd acc0 + 6)
    else acc0 in
  (* Check certificate expiry *)
  let acc2 : loop_acc :=
    match certificate result with
    | Some cert =>
        let days := get_or (days_until_expiry cert) 365 in
        if days <? 0 then
          (fst acc1 ++ [ mkProblem "tls_security" "SSL certificate expired" "critical"
                           "SSL certificate has expired"
                           "Service unavailable, security warnings" ],
           snd acc1 + 8)
        else if days <? 30 then
          (fst acc1 ++ [ mkProblem "tls_security" "SSL certificate expiring soon" "medium"
                           ("Certificate expires in " +:+ pretty days +:+ " days")
                           "Potential service disruption" ],
           snd acc1 + 3)
        else acc1
    | None => acc1
    end in
  (* Process vulnerabilities *)
  let step (acc : loop_acc) (vuln : finding) : loop_acc :=
    let '(problems, deductions) := acc in
    let sev := get_or (v_severity vuln) "low" in
    (problems ++ [ mkProblem "tls_security"
                     (get_or (v_type vuln) "TLS vulnerability")
                     sev
                     (get_or (v_description vuln) "TLS security issue detected")
                     "Encryption weakness" ],
     if String.eqb sev "critical" then deductions + 5
     else if String.eqb sev "high" then deductions + 3
     else if String.eqb sev "medium" then deductions + 1
     else deductions) in
  let '(problems, deductions) := fold_left step vulnerabilities acc2 in
  let recommendations :=
    match problems with
    | [] => []
    | _ :: _ =>
        [ mkRec "tls_security_issues" "Update TLS configuration and certificates" "Low"
            [ "Disable TLS 1.0 and 1.1";
              "Enable only TLS 1.2 and 1.3";
              "Renew SSL certificates before expiry";
              "Test configuration with SSL testing tools" ] ]
    end in
  (Z.max 0 (max_weight - deductions), problems, recommendations).

Definition _score_web_security (result : category_result) (max_weight : Z) : outcome scored :=
  let security_score := get_or (security_score result) 0 in
  let missing_headers := get_or (missing_headers result) [] in
  let vulnerabilities := get_or (vulnerabilities result) [] in
  (* Convert security score to weight scale *)
  score_percentage ← int_truediv security_score 100;
  scaled ← py_mul (PInt max_weight) (PFloat score_percentage);
  base_score ← py_int scaled;
  let header_problems :=
    flat_map (fun header =>
                if str_in header ["HSTS"; "CSP"] then
                  [ mkProblem "web_security" ("Missing " +:+ header +:+ " header") "medium"
                      (header +:+ " security header not implemented")
                      "Reduced web application security" ]
                else []) missing_headers in
  let vuln_problems :=
    map (fun vuln =>
           mkProblem "web_security"
             (get_or (v_type vuln) "Web security issue")
             (get_or (v_severity vuln) "low")
             (get_or (v_description vuln) "Web security vulnerability")
             "Web application security weakness") vulnerabilities in
  let recommendations :=
    match missing_headers, vulnerabilities with
    | [], [] => []
    | _, _ =>
        [ mkRec "web_security_headers" "Implement comprehensive security headers" "Low"
            [ "Configure Content Security Policy (CSP)";
              "Enable HSTS with appropriate max-age";
              "Set X-Frame-Options to DENY or SAMEORIGIN";
              "Add X-Content-Type-Options: nosniff" ] ]
    end in
  Ok (base_score, header_problems ++ vuln_problems, recommendations).

Definition _score_email_security (result : category_result) (max_weight : Z) : scored :=
  let vulnerabilities := get_or (vulnerabilities result) [] in
  let acc0 : loop_acc := ([], 0) in
  (* Check SPF *)
  let acc1 : loop_acc :=
    if negb (match spf result with Some s => truthy (spf_exists s) | None => false end) then
      (fst acc0 ++ [ mkProblem "email_security" "SPF record not configured" "medium"
                       "No SPF record found for domain" "Email spoofing vulnerability" ],
       snd acc0 + 3)
    else acc0 in
  (* Check DKIM *)
  let acc2 : loop_acc :=
    if negb (match dkim result with Some d => nonempty (selectors_found d) | None => false end) then
      (fst acc1 ++ [ mkProblem "email_security" "DKIM not configured" "medium"
                       "No DKIM selectors found" "Email authenticity cannot be verified" ],
       snd acc1 + 3)
    else acc1 in
  (* Check DMARC *)
  let acc3 : loop_acc :=
    if negb (match dmarc result with Some d => truthy (dmarc_exists d) | None => false end) then
      (fst acc2 ++ [ mkProblem "email_security" "DMARC policy not configured" "medium"
                       "No DMARC record found" "Email domain abuse vulnerability" ],
       snd acc2 + 4)
    else acc2 in
  (* Process vulnerabilities *)
  let step (acc : loop_acc) (vuln : finding) : loop_acc :=
    let '(problems, deductions) := acc in
    let sev := get_or (v_severity vuln) "low" in
    (problems ++ [ mkProblem "email_security"
                     (get_or (v_type vuln) "Email security issue")
                     sev
                     (get_or (v_description vuln) "Email authentication issue")
                     "Email security weakness" ],
     if String.eqb sev "high" then deductions + 2
     else if String.eqb sev "medium" then deductions + 1
     else deductions) in
  let '(problems, deductions) := fold_left step vulnerabilities acc3 in
  let recommendations :=
    match problems with
    | [] => []
    | _ :: _ =>
        [ mkRec "email_authentication" "Implement comprehensive email authentication" "Medium"
            [ "Configure SPF record with appropriate policy";
              "Set up DKIM signing for outbound emails";
              "Implement DMARC policy starting with p=none";
              "Monitor DMARC reports and gradually strengthen policy" ] ]
    end in
  (Z.max 0 (max_weight - deductions), problems, recommendations).

Definition _score_vulnerabilities (result : category_result) (max_weight : Z) : outcome scored :=
  let vulnerabilities := get_or (vulnerabilities result) [] in
  let risk_summary := get_or (risk_summary result) (mkRisk None None None None) in
  (* Score based on vulnerability severity *)
  let critical_count := get_or (rs_critical risk_summary) 0 in
  let high_count := get_or (rs_high risk_summary) 0 in
  let medium_count := get_or (rs_medium risk_summary) 0 in
  let low_count := get_or (rs_low risk_summary) 0 in
  (* Calculate deductions *)
  let deductions := 0 + critical_count * 8 + high_count * 4 + medium_count * 2 in
  low_part ← py_mul (PInt low_count) (PFloat lit_0_5);
  deductions ← py_add (PInt deductions) low_part;
  (* Convert vulnerabilities to problems *)
  let problems :=
    map (fun vuln =>
           mkProblem "vulnerabilities"
             ("CVE " +:+ get_or (v_cve_id vuln) "Unknown" +:+ " detected")
             (get_or (v_severity vuln) "medium")
             (get_or (v_description vuln) "Known vulnerability detected")
             "Potential for exploitation and system compromise") vulnerabilities in
  let recommendations :=
    if (0 <? critical_count) || (0 <? high_count) then
      [ mkRec "critical_vulnerabilities"
          "Immediately patch critical and high severity vulnerabilities" "High"
          [ "Prioritize critical vulnerabilities for immediate patching";
            "Test patches in staging environment";
            "Apply patches to production systems";
            "Verify vulnerability remediation with rescanning" ] ]
    else [] in
  truncated ← py_int deductions;
  Ok (Z.max 0 (max_weight - truncated), problems, recommendations).

Definition _score_iam_assessment (result : category_result) (max_weight : Z) : scored :=
  let admin_interfaces := get_or (admin_interfaces result) [] in
  let vulnerabilities := get_or (vulnerabilities result) [] in
  (* Check admin interfaces *)
  let step_interface (acc : loop_acc) (interface : admin_interface) : loop_acc :=
    let acc1 : loop_acc :=
      if negb (truthy (authentication_required interface)) then
        (fst acc ++ [ mkProblem "iam_assessment" "Exposed admin interface" "critical"
                        ("Admin interface accessible without authentication: "
                           +:+ str_opt (a_url interface))
                        "Unauthorized administrative access" ],
         snd acc + 6)
      else acc in
    if negb (truthy (mfa_detected interface)) then
      (fst acc1 ++ [ mkProblem "iam_assessment" "Missing multi-factor authentication" "medium"
                       "Admin interface lacks MFA protection"
                       "Increased risk of credential compromise" ],
       snd acc1 + 2)
    else acc1 in
  (* Process vulnerabilities *)
  let step (acc : loop_acc) (vuln : finding) : loop_acc :=
    let '(problems, deductions) := acc in
    let sev := get_or (v_severity vuln) "low" in
    (problems ++ [ mkProblem "iam_assessment"
                     (get_or (v_type vuln) "IAM security issue")
                     sev
                     (get_or (v_description vuln) "Access control vulnerability")
                     "Unauthorized access risk" ],
     if String.eqb sev "critical" then deductions + 4
     else if String.eqb sev "high" then deductions + 2
     else if String.eqb sev "medium" then deductions + 1
     else deductions) in
  let '(problems, deductions) :=
    fold_left step vulnerabilities (fold_left step_interface admin_interfaces ([], 0)) in
  let recommendations :=
    match problems with
    | [] => []
    | _ :: _ =>
        [ mkRec "iam_security" "Strengthen access controls and authentication" "Medium"
            [ "Implement MFA for all admin interfaces";
              "Restrict admin access by IP whitelist";
              "Regular access reviews and cleanup";
              "Implement principle of least privilege" ] ]
    end in
  (Z.max 0 (max_weight - deductions), problems, recommendations).

Definition _score_backup_dr (result : category_result) (max_weight : Z) : scored :=
  let exposed_backups := get_or (exposed_backups result) [] in
  let config_files := get_or (config_files result) [] in
  let vulnerabilities := get_or (vulnerabilities result) [] in
  (* Exposed backups are critical *)
  let step_backup (acc : loop_acc) (backup : exposed_file) : loop_acc :=
    (fst acc ++ [ mkProblem "backup_dr" "Exposed backup file" "critical"
                    ("Backup file publicly accessible: " +:+ str_opt (x_url backup))
                    "Data exposure and potential system compromise" ],
     snd acc + 2) in
  (* Exposed config files are critical *)
  let step_config (acc : loop_acc) (config : exposed_file) : loop_acc :=
    (fst acc ++ [ mkProblem "backup_dr" "Exposed configuration file" "critical"
                    ("Configuration file publicly accessible: " +:+ str_opt (x_url config))
                    "Sensitive configuration data exposure" ],
     snd acc + 2) in
  (* Process other vulnerabilities *)
  let step (acc : loop_acc) (vuln : finding) : loop_acc :=
    let '(problems, deductions) := acc in
    let sev := get_or (v_severity vuln) "low" in
    (problems ++ [ mkProblem "backup_dr"
                     (get_or (v_type vuln) "Backup security issue")
                     sev
                     (get_or (v_description vuln) "Backup/DR security issue")
                     "Data protection weakness" ],
     if String.eqb sev "critical" then deductions + 2
     else if String.eqb sev "high" then deductions + 1
     else deductions) in
  let '(problems, deductions) :=
    fold_left step vulnerabilities
      (fold_left step_config config_files
         (fold_left step_backup exposed_backups ([], 0))) in
  let recommendations :=
    match problems with
    | [] => []
    | _ :: _ =>
        [ mkRec "backup_security" "Secure backup files and configuration" "Low"
            [ "Remove backup files from public directories";
              "Implement proper backup storage security";
              "Use encrypted backup solutions";
              "Regular backup security audits" ] ]
    end in
  (Z.max 0 (max_weight - deductions), problems, recommendations).

Definition _score_security_monitoring (result : category_result) (max_weight : Z) : scored :=
  let waf_detected := get_or (waf_detected result) false in
  let ddos_protection := get_or (ddos_protection result) false in
  let rate_limiting := get_or (rate_limiting result) false in
  let security_tools := get_or (security_tools result) [] in
  let acc0 : list problem * Z := ([], max_weight) in     (* Start with full score *)
  (* Deduct for missing security controls *)
  let acc1 :=
    if negb waf_detected then
      (fst acc0 ++ [ mkProblem "logging_monitoring" "No WAF detected" "low"
                       "Web Application Firewall not detected"
                       "Reduced protection against web attacks" ],
       snd acc0 - 1)
    else acc0 in
  let acc2 :=
    if negb ddos_protection then
      (fst acc1 ++ [ mkProblem "logging_monitoring" "No DDoS protection detected" "low"
                       "DDoS protection mechanisms not detected"
                       "Vulnerability to denial of service attacks" ],
       snd acc1 - 1)
    else acc1 in
  let acc3 :=
    if negb rate_limiting then
      (fst acc2 ++ [ mkProblem "logging_monitoring" "No rate limiting detected" "low"
                       "Rate limiting not implemented"
                       "Vulnerability to abuse and DoS attacks" ],
       snd acc2 - 1)
    else acc2 in
  let recommendations :=
    match security_tools with
    | [] =>
        [ mkRec "security_monitoring" "Implement comprehensive security monitoring" "High"
            [ "Deploy Web Application Firewall (WAF)";
              "Implement DDoS protection";
              "Configure rate limiting";
              "Set up security event monitoring and alerting" ] ]
    | _ :: _ => []
    end in
  (Z.max 0 (snd acc3), fst acc3, recommendations).

Definition _score_category (category : string) (category_result : category_result)
    (max_weight : Z) : outcome scored :=
  if String.eqb category "internet_exposure" then
    Ok (_score_internet_exposure category_result max_weight)
  else if String.eqb category "tls_security" then
    Ok (_score_tls_security category_result max_weight)
  else if String.eqb category "web_security" then
    _score_web_security category_result max_weight
  else if String.eqb category "email_security" then
    Ok (_score_email_security category_result max_weight)
  else if String.eqb category "vulnerabilities" then
    _score_vulnerabilities category_result max_weight
  else if String.eqb category "iam_assessment" then
    Ok (_score_iam_assessment category_result max_weight)
  else if String.eqb category "backup_dr" then
    Ok (_score_backup_dr category_result max_weight)
  else if String.eqb category "logging_monitoring" then
    Ok (_score_security_monitoring category_result max_weight)
  else
    Ok (max_weight, [], []).

(** The sort key of [_prioritize_problems] and the [<] of Python tuples. *)
Definition problem_key (x : problem) : Z * string :=
  (severity_order (severity x), category x).

Definition key_lt (k1 k2 : Z * string) : bool :=
  if fst k1 =? fst k2 then String.ltb (snd k1) (snd k2) else fst k1 <? fst k2.

(** [sorted(xs, key=key)]: Python's sort is stable and compares keys with
    [<] only. An element is inserted before the first element of the sorted
    tail that is not smaller than it, so equal keys keep their input order. *)
Fixpoint insert_by {A} (key : A -> Z * string) (x : A) (l : list A) : list A :=
  match l with
  | [] => [x]
  | y :: ys => if key_lt (key y) (key x) then y :: insert_by key x ys else x :: y :: ys
  end.

Fixpoint sorted {A} (key : A -> Z * string) (xs : list A) : list A :=
  match xs with
  | [] => []
  | x :: rest => insert_by key x (sorted key rest)
  end.

Definition _prioritize_problems (problems : list problem) : list problem :=
  sorted problem_key problems.

Definition _consolidate_recommendations (recommendations : list recommendation_entry)
    : list recommendation_entry :=
  let step (acc : gset string * list recommendation_entry) (rec : recommendation_entry) :=
    let '(seen_recommendations, unique_recommendations) := acc in
    let rec_key := recommendation rec in
    if decide (rec_key ∈ seen_recommendations) then acc
    else (seen_recommendations ∪ {[ rec_key ]}, unique_recommendations ++ [rec]) in
  snd (fold_left step recommendations (∅, [])).

Definition is_completed (category_result : category_result) : bool :=
  match status category_result with
  | Some s => String.eqb s "completed"
  | None => false
  end.

Definition count_severity (s : string) (problems : list problem) : Z :=
  Z.of_nat (length (filter (fun p => severity p = s) problems)).

Definition _generate_summary (scan_results : category_map) (category_scores : gmap string pynum)
    (problems : list problem) : summary_info :=
  let total_categories := Z.of_nat (length category_weights) in
  let completed_categories :=
    Z.of_nat (size (filter (fun kv : string * category_result => is_completed (snd kv) = true)
                           scan_results)) in
  let failed_categories := total_categories - completed_categories in
  mkSummary total_categories completed_categories failed_categories
            (Z.of_nat (length problems))
            (count_severity "critical" problems) (count_severity "high" problems)
            (count_severity "medium" problems) (count_severity "low" problems).

(** The local variables of [calculate_score] that its loop updates. *)
Record engine_state := mkState {
  total_score : pynum;
  all_problems : list problem;
  all_recommendations : list recommendation_entry;
  category_scores : gmap string pynum
}.

Definition initial_state : engine_state := mkState (PInt 100) [] [] ∅.

(** [d[k]], raising KeyError on a missing key. *)
Definition subscript {V} (d : gmap string V) (k : string) : outcome V :=
  match d !! k with
  | Some v => Ok v
  | None => Raise (mkExn KeyError k)
  end.

(** The body of the loop over [self.category_weights.items()]. *)
Definition process_category (scan_results : category_map) (st : engine_state)
    (item : string * Z) : outcome engine_state :=
  let '(category, weight) := item in
  let category_result := default empty_result (scan_results !! category) in
  if is_completed category_result then
    '(score, problems, recommendations) ← _score_category category category_result weight;
    (* Deduct from total score *)
    max_deduction ← subscript max_category_deduction category;
    let deduction := Z.min (weight - score) max_deduction in
    total ← py_sub (total_score st) (PInt deduction);
    Ok (mkState total
                (all_problems st ++ problems)
                (all_recommendations st ++ recommendations)
                (<[category := PInt score]> (category_scores st)))
  else
    (* Category failed - minimal deduction for missing data *)
    failed_score ← py_mul (PInt weight) (PFloat lit_0_8);
    penalty ← py_mul (PInt weight) (PFloat lit_0_2);
    total ← py_sub (total_score st) penalty;
    Ok (mkState total (all_problems st) (all_recommendations st)
                (<[category := failed_score]> (category_scores st))).

Fixpoint for_each {S X} (body : S -> X -> outcome S) (xs : list X) (st : S) : outcome S :=
  match xs with
  | [] => Ok st
  | x :: rest => st' ← body st x; for_each body rest st'
  end.

(** The state of [calculate_score] when its loop has ended. *)
Definition score_loop (scan_results : category_map) : outcome engine_state :=
  for_each (process_category scan_results) category_weights initial_state.

Definition calculate_score (scan_results : category_map)
    : outcome (Z * list problem * list recommendation_entry * summary_info) :=
  st ← score_loop scan_results;
  (* Ensure score stays within bounds *)
  truncated ← py_int (total_score st);
  let final_score := Z.max 0 (Z.min 100 truncated) in
  let sorted_problems := _prioritize_problems (all_problems st) in
  let unique_recommendations := _consolidate_recommendations (all_recommendations st) in
  let summary := _generate_summary scan_results (category_scores st) sorted_problems in
  Ok (final_score, sorted_problems, unique_recommendations, summary).

(** ** BaseScanner (base.py) *)

(** The fields of a constructed scanner that the modelled methods read.
    [started] says whether [start_scan] has set [start_time]. *)
Record base_scanner := mkScanner {
  target : string;
  scan_type : string;
  timeout : Z;
  started : bool
}.

(** [settings.SCAN_TIMEOUT] and [settings.COMMON_PORTS] of config.py. *)
Definition SCAN_TIMEOUT : Z := 30.
Definition COMMON_PORTS : list Z :=
  [21; 22; 23; 25; 53; 80; 110; 143; 443; 993; 995; 3389; 8080; 8443].

Definition start_scan (self : base_scanner) : base_scanner :=
  mkScanner (target self) (scan_type self) (timeout self) true.

(** [get_scan_duration]: [None] before [start_scan]; afterwards the elapsed
    wall time as text. The clock is outside the model: [elapsed] is the text
    the call would format. *)
Definition get_scan_duration (self : base_scanner) (elapsed : string) : option string :=
  if started self then Some elapsed else None.

Definition status_entry (s : string) (duration : option string) : category_result :=
  mkResult (Some s) duration None None None None None None None None None None
           None None None None None None None None None None None None.

Definition note_entry (n : string) : category_result :=
  mkResult None None (Some n) None None None None None None None None None
           None None None None None None None None None None None None.

Definition create_result (self : base_scanner) (elapsed : string) (status : string)
    (data : option category_result) (note : option string) : category_result :=
  let result := status_entry status (get_scan_duration self elapsed) in
  let result := match data with Some d => dict_update result d | None => result end in
  match note with
  | Some n => if String.eqb n "" then result else dict_update result (note_entry n)
  | None => result
  end.

Definition handle_timeout (self : base_scanner) (elapsed operation : string) : category_result :=
  create_result self elapsed "failed" None
    (Some ("Data not obtained; " +:+ operation +:+ " timed out after "
             +:+ pretty (timeout self) +:+ " seconds")).

Definition handle_network_error (self : base_scanner) (elapsed operation : string)
    (error : option string) : category_result :=
  let note := "Data not obtained; " +:+ operation +:+ " failed" in
  let note :=
    match error with
    | Some e => if String.eqb e "" then note else note +:+ ": " +:+ e
    | None => note
    end in
  create_result self elapsed "failed" None (Some note).

Definition handle_service_not_found (self : base_scanner) (elapsed service : string)
    : category_result :=
  create_result self elapsed "failed" None
    (Some ("Scanning not possible; " +:+ service +:+ " not detected or available")).

Definition should_scan_quickly (self : base_scanner) : bool :=
  String.eqb (scan_type self) "quick".

(** The three [except] clauses shared by the probes' [scan] methods, in
    source order: NetworkTimeoutError, ScanningNotPossibleError, Exception. *)
Definition scan_handlers (self : base_scanner) (elapsed operation : string) (e : exn)
    : outcome category_result :=
  match exn_cls e with
  | NetworkTimeoutError => Ok (handle_timeout self elapsed operation)
  | ScanningNotPossibleError => Ok (handle_network_error self elapsed operation (Some (exn_str e)))
  | _ => Ok (handle_network_error self elapsed operation (Some (exn_str e)))
  end.

(** ** TLSSecurityScanner (tls_security.py) *)

(** [self.results] as set by [__init__], for the keys the model keeps. *)
Definition tls_initial_results : category_result :=
  mkResult None None None None None None None None (Some []) None (Some []) None
           None None None None None None None None None None None None.

(** What the TLS probe asks of the network and of its helpers. A handshake
    that ends in any exception counts as an unsupported version. The
    certificate and cipher steps and [_is_port_open_tls] catch every
    exception themselves; [_check_hsts] runs under [asyncio.run]. *)
Record tls_env := mkTlsEnv {
  handshake : Z -> string -> outcome unit;
  _is_port_open_tls : Z -> bool;
  _get_certificate_info : Z -> category_result -> category_result;
  _test_cipher_suites : Z -> category_result -> category_result;
  _check_hsts : category_result -> outcome category_result
}.

(** [self.tls_ports] *)
Definition tls_ports : list Z := [443; 993; 995; 465; 587; 636; 989; 990].

(** The loop of [_find_tls_services]; a service is kept as its port. In a
    quick scan the loop breaks at the first TLS service. *)
Fixpoint find_tls_loop (env : tls_env) (quick : bool) (ports_to_check : list Z) : list Z :=
  match ports_to_check with
  | [] => []
  | port :: rest =>
      if _is_port_open_tls env port
      then port :: (if quick then [] else find_tls_loop env quick rest)
      else find_tls_loop env quick rest
  end.

Definition _find_tls_services (env : tls_env) (self : base_scanner) : list Z :=
  let ports_to_check := if negb (should_scan_quickly self) then tls_ports else [443] in
  find_tls_loop env (should_scan_quickly self) ports_to_check.

Definition weak_tls_finding (vuln_version : string) : finding :=
  mkFinding (Some "weak_tls_version") (Some vuln_version)
    (Some (if str_in vuln_version ["SSLv2"; "SSLv3"] then "high" else "medium"))
    (Some (vuln_version +:+ " is deprecated and vulnerable to attacks"))
    None.

Definition set_tls_versions (versions : list string) (results : category_result)
    : category_result :=
  dict_update results
    (mkResult None None None None None None None None (Some versions) None None None
              None None None None None None None None None None None None).

(** [results["vulnerabilities"].append(f)] *)
Definition append_vulnerability (f : finding) (results : category_result) : category_result :=
  dict_update results
    (mkResult None None None None None None None None None None
              (Some (get_or (vulnerabilities results) [] ++ [f])) None
              None None None None None None None None None None None None).

Definition _test_tls_versions (env : tls_env) (port : Z) (results : category_result)
    : category_result :=
  let tls_versions := ["TLSv1.0"; "TLSv1.1"; "TLSv1.2"; "TLSv1.3"] in
  let supported_versions :=
    List.filter (fun version_name => is_ok (handshake env port version_name)) tls_versions in
  let results := set_tls_versions supported_versions results in
  (* Check for vulnerable versions *)
  let vulnerable_versions := ["TLSv1.0"; "TLSv1.1"; "SSLv2"; "SSLv3"] in
  fold_left (fun results vuln_version =>
               if str_in vuln_version supported_versions
               then append_vulnerability (weak_tls_finding vuln_version) results
               else results)
            vulnerable_versions results.

Definition _analyze_tls_service (env : tls_env) (self : base_scanner) (port : Z)
    (results : category_result) : category_result :=
  let results := _test_tls_versions env port results in
  let results := _get_certificate_info env port results in
  if negb (should_scan_quickly self) then _test_cipher_suites env port results else results.

(** The [try] block of [TLSSecurityScanner.scan]. *)
Definition tls_scan_body (env : tls_env) (self : base_scanner) (elapsed : string)
    : outcome category_result :=
  let tls_services := _find_tls_services env self in
  match tls_services with
  | [] => Ok (handle_service_not_found self elapsed "TLS/SSL services")
  | _ :: _ =>
      let results :=
        fold_left (fun results port => _analyze_tls_service env self port results)
                  tls_services tls_initial_results in
      results ← (if existsb (fun port => int_in port [443; 8443]) tls_services
                 then _check_hsts env results else Ok results);
      Ok (create_result self elapsed "completed" (Some results) None)
  end.

(** [TLSSecurityScanner.scan]. [elapsed] is the duration text of the one
    [create_result] call the run makes. *)
Definition tls_scan (env : tls_env) (self : base_scanner) (elapsed : string)
    : outcome category_result :=
  let self := start_scan self in
  try_except (tls_scan_body env self elapsed)
             (scan_handlers self elapsed "TLS/SSL analysis").

(** ** InternetExposureScanner (internet_exposure.py) *)

(** [_guess_service_name] *)
Definition common_services : gmap Z string :=
  list_to_map
    [ (21, "ftp"); (22, "ssh"); (23, "telnet"); (25, "smtp"); (53, "dns");
      (80, "http"); (110, "pop3"); (143, "imap"); (443, "https"); (993, "imaps");
      (995, "pop3s"); (465, "smtps"); (587, "submission"); (8080, "http-proxy");
      (8443, "https-alt"); (3389, "rdp"); (1433, "mssql"); (3306, "mysql");
      (5432, "postgresql"); (6379, "redis"); (27017, "mongodb") ].

Definition _guess_service_name (port : Z) : string :=
  default "unknown" (common_services !! port).

(** [_get_scan_ports] *)
Definition _get_scan_ports (self : base_scanner) : list Z :=
  if String.eqb (scan_type self) "quick" then COMMON_PORTS
  else if String.eqb (scan_type self) "full" then seqZ 1 1000
  else COMMON_PORTS.

(** One TCP connection attempt of [scan_port]. [create_socket] stands for
    the socket constructor and [settimeout]; [connect_ex] returns the error
    code (0 on success, an errno on refusal or timeout) or raises. Both see
    the ports attempted so far, so that a repeated attempt may end
    differently. *)
Record network := mkNetwork {
  create_socket : list Z -> Z -> outcome unit;
  connect_ex : list Z -> Z -> outcome Z
}.

(** [scan_port] with the log of ports on which [connect_ex] has been called. *)
Definition scan_port (net : network) (log : list Z) (port : Z) : option port_info * list Z :=
  match create_socket net log port with
  | Raise _ => (None, log)
  | Ok _ =>
      match connect_ex net log port with
      | Ok result =>
          if result =? 0 then
            (Some (mkPort (Some port) (Some "tcp") (Some (_guess_service_name port))
                          (Some "open") (Some "socket_connect") None),
             log ++ [port])
          else (None, log ++ [port])
      | Raise _ => (None, log ++ [port])
      end
  end.

(** [list(executor.map(scan_port, ports))]: one call per list entry, results
    in list order. The calls are independent; the model runs them in list
    order. *)
Fixpoint executor_map (net : network) (log : list Z) (ports : list Z)
    : list (option port_info) * list Z :=
  match ports with
  | [] => ([], log)
  | port :: rest =>
      let '(r, log1) := scan_port net log port in
      let '(rs, log2) := executor_map net log1 rest in
      (r :: rs, log2)
  end.

(** [_perform_socket_scan] once its thread pool runs: the new
    [self.open_ports] and the attempt log. *)
Definition _perform_socket_scan (net : network) (ports : list Z) : list port_info * list Z :=
  let '(results, log) := executor_map net [] ports in
  (omap id results, log).

(** The helpers of [scan] that are taken as given: the nmap path, OS
    detection and banner grabbing (the last two catch every exception
    themselves). [thread_pool] stands for the worker threads of the socket
    fallback, started by [executor.map] for a given [max_workers]; it
    raises when a thread cannot be started. *)
Record exposure_env := mkExposureEnv {
  net : network;
  thread_pool : Z -> outcome unit;
  _perform_nmap_scan : list Z -> outcome (list string);
  _extract_nmap_port_info : list string -> outcome (list port_info);
  _perform_os_detection : option string;
  _perform_banner_grabbing : list port_info -> list port_info
}.

(** [_perform_socket_scan] with its [ThreadPoolExecutor]: [min(50,
    len(ports))] workers. The constructor raises ValueError when there is
    no worker, and starting the workers may raise; the exception leaves
    the method. *)
Definition socket_scan_in_pool (env : exposure_env) (ports : list Z)
    : outcome (list port_info) :=
  let max_threads := Z.min 50 (Z.of_nat (length ports)) in
  if max_threads <=? 0 then
    Raise (mkExn ValueError "max_workers must be greater than 0")
  else
    _ ← thread_pool env max_threads;
    Ok (fst (_perform_socket_scan (net env) ports)).

(** The [try] block of [InternetExposureScanner.scan]. *)
Definition exposure_scan_body (env : exposure_env) (self : base_scanner) (use_nmap : bool)
    (elapsed : string) : outcome category_result :=
  let ports_to_scan := _get_scan_ports self in
  open_ports ←
    (if use_nmap then
       scan_results ← _perform_nmap_scan env ports_to_scan;
       match scan_results with
       | [] => Ok []
       | _ :: _ => _extract_nmap_port_info env scan_results
       end
     else socket_scan_in_pool env ports_to_scan);
  let os_fingerprint :=
    if nonempty (Some open_ports) && negb (should_scan_quickly self) && use_nmap
    then _perform_os_detection env else None in
  let open_ports :=
    if nonempty (Some open_ports) then _perform_banner_grabbing env open_ports
    else open_ports in
  Ok (create_result self elapsed "completed"
        (Some (mkResult None (get_scan_duration self elapsed) None None
                        (Some open_ports) os_fingerprint
                        (Some (Z.of_nat (length ports_to_scan)))
                        (Some (if use_nmap then "nmap" else "socket"))
                        None None None None None None None None None None None None
                        None None None None))
        None).

(** [InternetExposureScanner.scan]; [use_nmap] is fixed at construction. *)
Definition exposure_scan (env : exposure_env) (self : base_scanner) (use_nmap : bool)
    (elapsed : string) : outcome category_result :=
  let self := start_scan self in
  try_except (exposure_scan_body env self use_nmap elapsed)
             (scan_handlers self elapsed "port scanning").

(** ** run_comprehensive_scan (tasks.py) *)

(** A scanner class as the orchestrator uses it: the constructor and
    [scan], each of which may raise. *)
Record scanner_class := mkScannerClass {
  instance : Type;
  init : string -> string -> outcome instance;
  scan : instance -> outcome category_result
}.

(** [task.update_state(state='PROGRESS', meta=...)] given [current], [total]
    and the category; [None] when no task is passed. *)
Abbreviation progress_task := (option (Z -> Z -> string -> outcome unit)).

(** The entry written for a category whose scanner raised. *)
Definition failed_entry (e : exn) : category_result :=
  mkResult (Some "failed") None (Some ("Scanning not possible: " +:+ exn_str e)) (Some tt)
           None None None None None None None None None None None None None None None None
           None None None None.

(** The [try] block of the loop of [run_comprehensive_scan] for the [i]-th
    category: the progress update, the constructor and [scan]. *)
Definition category_attempt (task : progress_task) (target scan_type : string)
    (total_categories : Z) (i : Z) (item : string * scanner_class) : outcome category_result :=
  let '(category, scanner_class) := item in
  _ ← match task with
      | Some update_state => update_state (i + 1) total_categories category
      | None => Ok tt
      end;
  scanner ← init scanner_class target scan_type;
  scan scanner_class scanner.

(** The body of the loop: the attempt's result, or the failed entry, is
    written under the category. *)
Definition run_category (task : progress_task) (target scan_type : string)
    (total_categories : Z) (results : category_map) (i : Z)
    (item : string * scanner_class) : category_map :=
  match category_attempt task target scan_type total_categories i item with
  | Ok category_result => <[fst item := category_result]> results
  | Raise e => <[fst item := failed_entry e]> results
  end.

Fixpoint run_categories (task : progress_task) (target scan_type : string)
    (total_categories : Z) (results : category_map) (i : Z)
    (scan_categories : list (string * scanner_class)) : category_map :=
  match scan_categories with
  | [] => results
  | item :: rest =>
      run_categories task target scan_type total_categories
        (run_category task target scan_type total_categories results i item) (i + 1) rest
  end.

(** The eight scanner classes, in the order of [scan_categories]. *)
Record scanner_classes := mkClasses {
  InternetExposureScanner : scanner_class;
  TLSSecurityScanner : scanner_class;
  WebSecurityScanner : scanner_class;
  EmailAuthScanner : scanner_class;
  CVEVulnerabilityScanner : scanner_class;
  IAMAssessmentScanner : scanner_class;
  BackupDRScanner : scanner_class;
  SecurityMonitoringScanner : scanner_class
}.

Definition scan_categories (cls : scanner_classes) : list (string * scanner_class) :=
  [ ("internet_exposure", InternetExposureScanner cls);
    ("tls_security", TLSSecurityScanner cls);
    ("web_security", WebSecurityScanner cls);
    ("email_security", EmailAuthScanner cls);
    ("vulnerabilities", CVEVulnerabilityScanner cls);
    ("iam_assessment", IAMAssessmentScanner cls);
    ("backup_dr", BackupDRScanner cls);
    ("logging_monitoring", SecurityMonitoringScanner cls) ].

Definition run_comprehensive_scan (cls : scanner_classes) (target scan_type : string)
    (task : progress_task) : category_map :=
  let scan_categories := scan_categories cls in
  let total_categories := Z.of_nat (length scan_categories) in
  run_categories task target scan_type total_categories ∅ 0 scan_categories.

(** ** More of BaseScanner (base.py) *)

Definition handle_access_denied (self : base_scanner) (elapsed service : string)
    : category_result :=
  create_result self elapsed "failed" None
    (Some ("Scanning not possible; " +:+ service +:+ " access denied or blocked")).

(** [settings.FULL_SCAN_PORTS]: [list(range(1, 1025))]. *)
Definition FULL_SCAN_PORTS : list Z := seqZ 1 1024.

(** [get_ports_to_scan]; [settings] has [FULL_SCAN_PORTS]. *)
Definition get_ports_to_scan (self : base_scanner) (default_ports : list Z) : list Z :=
  if String.eqb (scan_type self) "quick" then COMMON_PORTS
  else if String.eqb (scan_type self) "full" then FULL_SCAN_PORTS
  else default_ports.

Definition is_scannable_port (port : Z) : bool :=
  let restricted_ports := [0] in
  (1 <=? port) && (port <=? 65535) && negb (int_in port restricted_ports).

(** ** More of TLSSecurityScanner (tls_security.py) *)

(** [needle in hay] on strings. *)
Fixpoint contains (needle hay : string) : bool :=
  if String.prefix needle hay then true
  else match hay with
       | EmptyString => false
       | String _ rest => contains needle rest
       end.

(** The steps of the TLS probe that the scan takes from its environment,
    written out. Each gets what its connection yields: the connection and
    the parsing may raise, and the step then leaves the results as they
    are. The keys of [self.results] that the model does not keep
    ([cipher_suites], [certificate_chain]) and the keys of a finding beside
    type, severity and description are left out. *)
Module TLSSteps.

Definition set_certificate (cert : certificate_info) (results : category_result)
    : category_result :=
  dict_update results
    (mkResult None None None None None None None None None (Some cert) None None
              None None None None None None None None None None None None).

(** [_get_certificate_info], given the parsed certificate's
    [days_until_expiry] and [key_size]. *)
Definition _get_certificate_info (parsed : outcome (Z * Z)) (results : category_result)
    : category_result :=
  match parsed with
  | Raise _ => results
  | Ok (days_until_expiry, key_size) =>
      (* Check for certificate issues *)
      let results :=
        if days_until_expiry <? 30 then
          append_vulnerability
            (mkFinding (Some "certificate_expiry") None
                       (Some (if days_until_expiry <? 0 then "high" else "medium"))
                       (Some ("Certificate expires in " +:+ pretty days_until_expiry
                                +:+ " days"))
                       None)
            results
        else results in
      (* Check key size *)
      let results :=
        if key_size <? 2048 then
          append_vulnerability
            (mkFinding (Some "weak_key_size") None (Some "medium")
                       (Some ("Certificate uses weak key size: " +:+ pretty key_size
                                +:+ " bits"))
                       None)
            results
        else results in
      set_certificate (mkCert (Some days_until_expiry) (Some key_size)) results
  end.

(** [_test_cipher_suites], given [ssock.cipher()]: the negotiated cipher's
    name, protocol and bits, or [None]. *)
Definition _test_cipher_suites (negotiated : outcome (option (string * string * Z)))
    (results : category_result) : category_result :=
  match negotiated with
  | Ok (Some (name, version, bits)) =>
      (* Check for weak ciphers *)
      let weak_ciphers := ["RC4"; "DES"; "3DES"; "MD5"] in
      if existsb (fun weak => contains weak name) weak_ciphers then
        append_vulnerability
          (mkFinding (Some "weak_cipher") None (Some "medium")
                     (Some ("Weak cipher suite supported: " +:+ name)) None)
          results
      else results
  | _ => results
  end.

End TLSSteps.

(** ** More of InternetExposureScanner (internet_exposure.py) *)

(** [_is_port_filtered]: a bare [except] answers [True]. *)
Definition _is_port_filtered (net : network) (log : list Z) (port : Z) : bool :=
  match create_socket net log port with
  | Raise _ => true
  | Ok _ =>
      match connect_ex net log port with
      | Ok result => negb (result =? 0) && negb (result =? 111)
      | Raise _ => true
      end
  end.

(** [s.lower()] on the ASCII letters. Only the comparison with ["tcp"]
    uses it, and no other character lowers to one of its letters. *)
Definition lower_ascii (c : ascii) : ascii :=
  let n := nat_of_ascii c in
  if ((65 <=? n) && (n <=? 90))%nat then ascii_of_nat (n + 32) else c.

Fixpoint lower (s : string) : string :=
  match s with
  | EmptyString => EmptyString
  | String c rest => String (lower_ascii c) (lower rest)
  end.

Module ExposureSteps.

Definition set_banner (banner : string) (p : port_info) : port_info :=
  mkPort (p_port p) (p_protocol p) (p_service p) (p_state p) (p_method p) (Some banner).

(** The body of the loop of [_perform_banner_grabbing] for one record.
    A missing ['protocol'] raises inside the [try] and the record is
    skipped; a missing ['port'] raises again in the handler's message. *)
Definition grab_for (_grab_banner : Z -> option string) (entry : port_info)
    : outcome port_info :=
  match p_port entry with
  | None => Raise (mkExn KeyError "'port'")
  | Some port =>
      match p_protocol entry with
      | None => Ok entry
      | Some protocol =>
          (* Only grab banners for TCP ports *)
          if negb (String.eqb (lower protocol) "tcp") then Ok entry
          else match _grab_banner port with
               | Some banner =>
                   if String.eqb banner "" then Ok entry
                   else Ok (set_banner banner entry)
               | None => Ok entry
               end
      end
  end.

Fixpoint grab_all (_grab_banner : Z -> option string) (open_ports : list port_info)
    : outcome (list port_info) :=
  match open_ports with
  | [] => Ok []
  | entry :: rest =>
      p ← grab_for _grab_banner entry;
      ps ← grab_all _grab_banner rest;
      Ok (p :: ps)
  end.

(** [_perform_banner_grabbing], given [_grab_banner] (which catches every
    exception itself). *)
Definition _perform_banner_grabbing (_grab_banner : Z -> option string)
    (self : base_scanner) (open_ports : list port_info) : outcome (list port_info) :=
  if should_scan_quickly self then Ok open_ports   (* Skip banner grabbing for quick scans *)
  else grab_all _grab_banner open_ports.

End ExposureSteps.

(** * Specification vocabulary *)

(** Definitions that the statements below are written with. *)

(** [x] may stand before [y]: lower severity rank, or equal rank and
    category name not after. *)
Definition problem_le (x y : problem) : Prop :=
  severity_order (severity x) < severity_order (severity y)
  \/ (severity_order (severity x) = severity_order (severity y)
      /\ String.leb (category x) (category y) = true).

(** [weight * 0.8] and [weight * 0.2] as Python computes them: the weight
    converted to a float, times the literal. *)
Definition failed_score (weight : Z) : pynum := PFloat (b64_mul (b64_of_Z weight) lit_0_8).
Definition failed_penalty (weight : Z) : pynum := PFloat (b64_mul (b64_of_Z weight) lit_0_2).

(** Equality of numbers is decidable; it is used to list the running totals
    the loop can reach without repeats. *)
#[global] Instance spec_float_eq_dec : EqDecision spec_float.
Proof. solve_decision. Defined.
#[global] Instance pynum_eq_dec : EqDecision pynum.
Proof. solve_decision. Defined.

Definition ok_value {A} (o : outcome A) : option A :=
  match o with Ok a => Some a | Raise _ => None end.

(** The running totals one loop step can reach from [t], for a category of
    weight [w] whose completed score lies in [0, w]. *)
Definition next_totals (w : Z) (t : pynum) : list (outcome pynum) :=
  py_sub t (failed_penalty w) :: map (fun d => py_sub t (PInt d)) (seqZ 0 (w + 1)).

(** The totals reachable after one more category, or [None] if a step
    could raise. *)
Definition reach_step (w : Z) (totals : list pynum) : option (list pynum) :=
  let outs := flat_map (next_totals w) totals in
  if forallb is_ok outs then Some (remove_dups (omap ok_value outs)) else None.

Fixpoint reach (ws : list Z) (totals : list pynum) : option (list pynum) :=
  match ws with
  | [] => Some totals
  | w :: rest => match reach_step w totals with
                 | Some totals' => reach rest totals'
                 | None => None
                 end
  end.

(** The running totals that the loop over the eight weights can end with. *)
Definition final_totals : option (list pynum) :=
  Eval vm_compute in reach (map snd category_weights) [PInt 100].

Definition all_truncate (totals : option (list pynum)) : bool :=
  match totals with
  | Some ts => forallb (fun t => is_ok (py_int t)) ts
  | None => false
  end.

(** Every completed entry of a weighted category gets a score between 0
    and the weight. *)
Definition scores_within_weights (scan_results : category_map) : Prop :=
  forall c w r, In (c, w) category_weights -> scan_results !! c = Some r ->
    is_completed r = true ->
    exists s ps rs, _score_category c r w = Ok (s, ps, rs) /\ 0 <= s <= w.

(** The score of a scorer's triple. *)
Definition score_of (x : scored) : Z := fst (fst x).

(** [int(max_weight * (security_score / 100))], the base score of the web
    scorer. *)
Definition web_base_score (security_score max_weight : Z) : outcome Z :=
  score_percentage ← int_truediv security_score 100;
  scaled ← py_mul (PInt max_weight) (PFloat score_percentage);
  py_int scaled.

Definition web_base_in_range (z : Z) : bool :=
  match web_base_score z 15 with
  | Ok b => (0 <=? b) && (b <=? 15)
  | Raise _ => false
  end.

(** Floats that truncate to a non-negative integer if they truncate at all. *)
Definition not_negative (f : spec_float) : Prop :=
  match f with
  | S754_finite true _ _ => False
  | _ => True
  end.

Definition risk_counts_not_negative (r : category_result) : Prop :=
  match risk_summary r with
  | Some rs => 0 <= get_or (rs_critical rs) 0 /\ 0 <= get_or (rs_high rs) 0
               /\ 0 <= get_or (rs_medium rs) 0 /\ 0 <= get_or (rs_low rs) 0
  | None => True
  end.

(** The numeric ranges the scanners produce: the web scanner clamps
    [security_score] to [0, 100]; the CVE scanner counts upwards from 0. *)
Definition scanner_ranges (r : category_result) : Prop :=
  0 <= get_or (security_score r) 0 <= 100 /\ risk_counts_not_negative r.

(** A completed web entry with the given [security_score] and nothing else
    reported. *)
Definition web_entry (score : Z) : category_result :=
  mkResult (Some "completed") None None None None None None None None None (Some [])
           (Some score) (Some []) None None None None None None None None None None None.

(** An entry of category [c] with zero findings: no open ports, no weak TLS
    version and no certificate near expiry, no vulnerabilities, no missing
    header, no missing email record, nothing exposed. *)
Definition zero_findings (c : string) (r : category_result) : Prop :=
  get_or (vulnerabilities r) [] = []
  /\ (c = "internet_exposure" -> get_or (open_ports r) [] = [])
  /\ (c = "tls_security" ->
        str_in "TLSv1.0" (get_or (tls_versions r) []) = false
        /\ str_in "TLSv1.1" (get_or (tls_versions r) []) = false
        /\ match certificate r with
           | Some cert => 30 <= get_or (days_until_expiry cert) 365
           | None => True
           end)
  /\ (c = "web_security" -> get_or (missing_headers r) [] = [])
  /\ (c = "email_security" ->
        (exists s, spf r = Some s /\ truthy (spf_exists s) = true)
        /\ (exists d, dkim r = Some d /\ nonempty (selectors_found d) = true)
        /\ (exists d, dmarc r = Some d /\ truthy (dmarc_exists d) = true))
  /\ (c = "vulnerabilities" ->
        match risk_summary r with
        | Some rs => get_or (rs_critical rs) 0 = 0 /\ get_or (rs_high rs) 0 = 0
                     /\ get_or (rs_medium rs) 0 = 0 /\ get_or (rs_low rs) 0 = 0
        | None => True
        end)
  /\ (c = "iam_assessment" -> get_or (admin_interfaces r) [] = [])
  /\ (c = "backup_dr" ->
        get_or (exposed_backups r) [] = [] /\ get_or (config_files r) [] = []).

(** What the web and monitoring scorers need besides: a full
    [security_score], and the three controls detected. *)
Definition full_marks (c : string) (r : category_result) : Prop :=
  (c = "web_security" -> get_or (security_score r) 0 = 100)
  /\ (c = "logging_monitoring" ->
        truthy (waf_detected r) = true /\ truthy (ddos_protection r) = true
        /\ truthy (rate_limiting r) = true).

(** The entries of a scan that found nothing, as the scanners write them. *)
Definition clean_scan (web_score : Z) (controls : bool) : category_map :=
  list_to_map
    [ ("internet_exposure",
       mkResult (Some "completed") None None None (Some []) None (Some 14) (Some "socket")
                None None None None None None None None None None None None
                None None None None);
      ("tls_security",
       mkResult (Some "completed") None None None None None None None
                (Some ["TLSv1.2"; "TLSv1.3"]) (Some (mkCert (Some 200) (Some 2048)))
                (Some []) None None None None None None None None None
                None None None None);
      ("web_security",
       mkResult (Some "completed") None None None None None None None None None
                (Some []) (Some web_score) (Some []) None None None None None None None
                None None None None);
      ("email_security",
       mkResult (Some "completed") None None None None None None None None None
                (Some []) None None (Some (mkSpf (Some true)))
                (Some (mkDkim (Some ["default"]))) (Some (mkDmarc (Some true)))
                None None None None None None None None);
      ("vulnerabilities",
       mkResult (Some "completed") None None None None None None None None None
                (Some []) None None None None None
                (Some (mkRisk (Some 0) (Some 0) (Some 0) (Some 0))) None None None
                None None None None);
      ("iam_assessment",
       mkResult (Some "completed") None None None None None None None None None
                (Some []) None None None None None None (Some []) None None
                None None None None);
      ("backup_dr",
       mkResult (Some "completed") None None None None None None None None None
                (Some []) None None None None None None None (Some []) (Some [])
                None None None None);
      ("logging_monitoring",
       mkResult (Some "completed") None None None None None None None None None
                None None None None None None None None None None
                (Some controls) (Some controls) (Some controls) (Some [])) ].


(** A server that accepts TLSv1.0 and TLSv1.2 on port 443 and has nothing
    else wrong: healthy certificate, strong cipher, HSTS set. *)
Definition tls10_server : tls_env :=
  mkTlsEnv
    (fun port v => if (port =? 443) && str_in v ["TLSv1.0"; "TLSv1.2"]
                   then Ok tt else Raise (mkExn OtherException "wrong version number"))
    (fun port => port =? 443)
    (fun port results =>
       dict_update results
         (mkResult None None None None None None None None None
                   (Some (mkCert (Some 200) (Some 2048))) None None
                   None None None None None None None None None None None None))
    (fun port results => results)
    (fun results => Ok results).

Definition quick_scanner : base_scanner := mkScanner "example.org" "quick" SCAN_TIMEOUT false.

(** What the loop writes for a category: the scanner's result, or the
    failed entry when anything in the attempt raised. *)
Definition category_entry (attempt : outcome category_result) : category_result :=
  match attempt with
  | Ok category_result => category_result
  | Raise e => failed_entry e
  end.

(** The eight scheduled categories. *)
Definition scheduled : gset string :=
  list_to_set (map fst category_weights).

(** The note of [handle_network_error] for an error detail. *)
Definition network_error_note (operation detail : string) : string :=
  if String.eqb detail "" then "Data not obtained; " +:+ operation +:+ " failed"
  else ("Data not obtained; " +:+ operation +:+ " failed") +:+ ": " +:+ detail.

Definition timeout_note (operation : string) (seconds : Z) : string :=
  "Data not obtained; " +:+ operation +:+ " timed out after " +:+ pretty seconds +:+ " seconds".

(** The note a probe's handlers write for an exception of its [try] block. *)
Definition failure_note (operation : string) (seconds : Z) (e : exn) : string :=
  match exn_cls e with
  | NetworkTimeoutError => timeout_note operation seconds
  | _ => network_error_note operation (exn_str e)
  end.

Definition email_failed_entry : category_result :=
  mkResult (Some "failed") (Some "0.1 seconds")
           (Some "Scanning not possible; domain does not exist") None
           None None None None None None None None None None None None None None None None
           None None None None.

(** ** Scores, probes and reports *)

(** The first entry of [l] with the text of [r]. *)
Definition first_with_text (l : list recommendation_entry) (r : recommendation_entry)
    : option recommendation_entry :=
  List.find (fun x => String.eqb (recommendation x) (recommendation r)) l.

(** One of the four severities the summary counts. *)
Definition counted_severity (p : problem) : Prop :=
  severity p = "critical" \/ severity p = "high" \/ severity p = "medium" \/ severity p = "low".

(** The keys of a map produced for the eight categories. *)
Definition only_scheduled (scan_results : category_map) : Prop :=
  dom scan_results ⊆ scheduled.

(** The problems of a scorer's triple. *)
Definition problems_of (x : scored) : list problem := snd (fst x).

(** The problems that the loop of [calculate_score] takes from one
    category: those of its scorer when the entry is completed. *)
Definition category_problems (scan_results : category_map) (item : string * Z)
    : list problem :=
  let r := default empty_result (scan_results !! fst item) in
  if is_completed r then
    match _score_category (fst item) r (snd item) with
    | Ok x => problems_of x
    | Raise _ => []
    end
  else [].

Definition high_risk_port (p : port_info) : bool :=
  port_in (p_port p) [21; 23; 135; 139; 445; 1433; 3389].

Definition plain_http_port (p : port_info) : bool := port_in (p_port p) [80; 8080].

Definition https_open (ports : list port_info) : bool :=
  existsb (fun p => port_in (p_port p) [443]) ports.

(** How many entries satisfy a test. *)
Definition count_where {A} (f : A -> bool) (l : list A) : Z :=
  Z.of_nat (length (List.filter f l)).

(** The three deductions of [_score_tls_security]. *)
Definition weak_version_points (tls_versions : list string) : Z :=
  if str_in "TLSv1.0" tls_versions || str_in "TLSv1.1" tls_versions then 6 else 0.

Definition certificate_points (certificate : option certificate_info) : Z :=
  match certificate with
  | Some cert =>
      if get_or (days_until_expiry cert) 365 <? 0 then 8
      else if get_or (days_until_expiry cert) 365 <? 30 then 3 else 0
  | None => 0
  end.

Definition tls_finding_points (vuln : finding) : Z :=
  if String.eqb (get_or (v_severity vuln) "low") "critical" then 5
  else if String.eqb (get_or (v_severity vuln) "low") "high" then 3
  else if String.eqb (get_or (v_severity vuln) "low") "medium" then 1
  else 0.

(** The sum of [f] over a list. *)
Definition sum_with {A} (f : A -> Z) (l : list A) : Z :=
  fold_right (fun x acc => f x + acc) 0 l.

(** 1 for a deduction that was made, 0 otherwise. *)
Definition made (points : Z) : Z := if points =? 0 then 0 else 1.

(** The results a scanner or the orchestrator writes for a failure. *)
Inductive failure_result : category_result -> Prop :=
  | failure_timeout self elapsed operation :
      failure_result (handle_timeout self elapsed operation)
  | failure_network self elapsed operation error :
      failure_result (handle_network_error self elapsed operation error)
  | failure_access self elapsed service :
      failure_result (handle_access_denied self elapsed service)
  | failure_not_found self elapsed service :
      failure_result (handle_service_not_found self elapsed service)
  | failure_raised e :
      failure_result (failed_entry e).

(** A result without payload: none of the keys the scorers read. *)
Definition no_payload (r : category_result) : Prop :=
  open_ports r = None /\ tls_versions r = None /\ certificate r = None
  /\ vulnerabilities r = None /\ security_score r = None /\ missing_headers r = None
  /\ spf r = None /\ dkim r = None /\ dmarc r = None /\ risk_summary r = None
  /\ admin_interfaces r = None /\ exposed_backups r = None /\ config_files r = None
  /\ waf_detected r = None /\ ddos_protection r = None /\ rate_limiting r = None
  /\ security_tools r = None.


(** The versions for which the handshake on [port] succeeds. *)
Definition supported_versions (env : tls_env) (port : Z) : list string :=
  List.filter (fun v => is_ok (handshake env port v))
              ["TLSv1.0"; "TLSv1.1"; "TLSv1.2"; "TLSv1.3"].

(** The findings [_test_tls_versions] adds for [port]. *)
Definition weak_version_findings (env : tls_env) (port : Z) : list finding :=
  map weak_tls_finding
      (List.filter (fun v => str_in v (supported_versions env port)) ["TLSv1.0"; "TLSv1.1"]).

(** What an expiry in [days] days costs: the probe's finding and the
    scorer's own check of the certificate. *)
Definition expiry_points (days : Z) : Z :=
  if days <? 0 then 8 + 3 else if days <? 30 then 3 + 1 else 0.

Definition weak_key_points (key_size : Z) : Z :=
  if key_size <? 2048 then 1 else 0.

(** The record [scan_port] returns for an open port. *)
Definition socket_record (port : Z) : port_info :=
  mkPort (Some port) (Some "tcp") (Some (_guess_service_name port)) (Some "open")
         (Some "socket_connect") None.

(** The connection to [port] succeeds whatever was attempted before. *)
Definition always_connects (net : network) (port : Z) : Prop :=
  forall log, create_socket net log port = Ok tt /\ connect_ex net log port = Ok 0.

(** No connection ever succeeds. *)
Definition unreachable (net : network) : Prop :=
  forall log port, connect_ex net log port <> Ok 0.


(** [q] is [p] with, at most, a banner that [_grab_banner] returned. *)
Definition banner_added (_grab_banner : Z -> option string) (p q : port_info) : Prop :=
  p_port q = p_port p /\ p_protocol q = p_protocol p /\ p_service q = p_service p
  /\ p_state q = p_state p /\ p_method q = p_method p
  /\ (p_banner q = p_banner p
      \/ exists port banner, p_port p = Some port /\ _grab_banner port = Some banner
                             /\ banner <> "" /\ p_banner q = Some banner).

(** The entry with other open ports. *)
Definition with_open_ports (r : category_result) (ports : list port_info) : category_result :=
  dict_update r
    (mkResult None None None None (Some ports) None None None None None None None
              None None None None None None None None None None None None).

(** No entry of the map is completed. *)
Definition nothing_completed (scan_results : category_map) : Prop :=
  forall c r, scan_results !! c = Some r -> status r <> Some "completed".

(** The report for a scan in which no category completed. *)
Definition all_failed_report : Z * list problem * list recommendation_entry * summary_info :=
  (80, [], [], mkSummary 8 0 8 0 0 0 0 0).

(** The entries that are not completed. *)
Definition not_completed_entries (scan_results : category_map) : category_map :=
  filter (fun kv : string * category_result => ~ is_completed (snd kv) = true) scan_results.

(** The entry of a server that accepts TLSv1.0 and TLSv1.2 on port 443. *)
Definition tls10_entry : category_result :=
  create_result quick_scanner "1.0 seconds" "completed"
    (Some (_test_tls_versions tls10_server 443 tls_initial_results)) None.

(** The recommendations of a scorer's triple. *)
Definition recommendations_of (x : scored) : list recommendation_entry := snd x.

(** The one recommendation text of each category's scorer. *)
Definition recommendation_texts : list (string * string) :=
  [ ("internet_exposure",
     "Disable insecure protocols (FTP, Telnet) and use secure alternatives");
    ("tls_security", "Update TLS configuration and certificates");
    ("web_security", "Implement comprehensive security headers");
    ("email_security", "Implement comprehensive email authentication");
    ("vulnerabilities", "Immediately patch critical and high severity vulnerabilities");
    ("iam_assessment", "Strengthen access controls and authentication");
    ("backup_dr", "Secure backup files and configuration");
    ("logging_monitoring", "Implement comprehensive security monitoring") ].

(** At most one recommendation, with the text [text]. *)
Definition at_most_one (text : string) (recs : list recommendation_entry) : Prop :=
  recs = [] \/ exists rec, recs = [rec] /\ recommendation rec = text.

(** The recommendations that the loop of [calculate_score] takes from one
    category. *)
Definition category_recommendations (scan_results : category_map) (item : string * Z)
    : list recommendation_entry :=
  let r := default empty_result (scan_results !! fst item) in
  if is_completed r then
    match _score_category (fst item) r (snd item) with
    | Ok x => recommendations_of x
    | Raise _ => []
    end
  else [].

(** The email records. *)
Definition spf_found (r : category_result) : bool :=
  match spf r with Some s => truthy (spf_exists s) | None => false end.

Definition dkim_found (r : category_result) : bool :=
  match dkim r with Some d => nonempty (selectors_found d) | None => false end.

Definition dmarc_found (r : category_result) : bool :=
  match dmarc r with Some d => truthy (dmarc_exists d) | None => false end.

Definition email_record_points (r : category_result) : Z :=
  (if spf_found r then 0 else 3) + (if dkim_found r then 0 else 3)
  + (if dmarc_found r then 0 else 4).

Definition email_records_missing (r : category_result) : Z :=
  (if spf_found r then 0 else 1) + (if dkim_found r then 0 else 1)
  + (if dmarc_found r then 0 else 1).

(** What a finding costs by its severity, per category. *)
Definition severity_points (critical high medium : Z) (vuln : finding) : Z :=
  if String.eqb (get_or (v_severity vuln) "low") "critical" then critical
  else if String.eqb (get_or (v_severity vuln) "low") "high" then high
  else if String.eqb (get_or (v_severity vuln) "low") "medium" then medium
  else 0.

Definition interface_points (i : admin_interface) : Z :=
  (if truthy (authentication_required i) then 0 else 6)
  + (if truthy (mfa_detected i) then 0 else 2).

Definition interface_problems (i : admin_interface) : Z :=
  (if truthy (authentication_required i) then 0 else 1)
  + (if truthy (mfa_detected i) then 0 else 1).

Definition controls_missing (r : category_result) : Z :=
  (if get_or (waf_detected r) false then 0 else 1)
  + (if get_or (ddos_protection r) false then 0 else 1)
  + (if get_or (rate_limiting r) false then 0 else 1).

(** The counts of the risk summary, 0 for a missing one. *)
Definition risk_count (field : risk_counts -> option Z) (r : category_result) : Z :=
  get_or (field (get_or (risk_summary r) (mkRisk None None None None))) 0.

(** The points of the critical, high and medium counts. *)
Definition counted_points (r : category_result) : Z :=
  risk_count rs_critical r * 8 + risk_count rs_high r * 4 + risk_count rs_medium r * 2.

(** [int(points + low * 0.5)] as the scorer computes it. *)
Definition truncated_deduction (points low : Z) : outcome Z :=
  low_part ← py_mul (PInt low) (PFloat lit_0_5);
  deductions ← py_add (PInt points) low_part;
  py_int deductions.

(** The bound up to which the float arithmetic of the deduction is
    checked value by value. *)
Definition checked_counts : Z := 50.

Definition half_points_exact (points low : Z) : bool :=
  match truncated_deduction points low with
  | Ok t => t =? points + low / 2
  | Raise _ => false
  end.





(** * Properties *)

(** Case analysis on a member of the weight table. *)
Ltac each_category Hin :=
  simpl in Hin;
  repeat (destruct Hin as [Hin|Hin]; [injection Hin as <- <-|]);
  [..|destruct Hin].

(** ** The float literals *)

#[local] Set Warnings "-inexact-float".

(** The literals of the model are the binary64 values that Python reads
    for [0.8], [0.2] and [0.5]. *)
Example literals_are_binary64 :
  Prim2SF 0.8%float = lit_0_8 /\ Prim2SF 0.2%float = lit_0_2 /\ Prim2SF 0.5%float = lit_0_5.
Proof. repeat split; vm_compute; reflexivity. Qed.

(** The eight penalties taken in turn from 100: every category failed. *)
Example all_failed_running_total :
  fold_left (fun t w => b64_sub t (b64_mul (b64_of_Z w) lit_0_2))
            (map snd category_weights) (b64_of_Z 100)
  = Prim2SF (100 - 4 - 3 - 3 - 2 - 5 - 1.6 - 0.8 - 0.6000000000000001)%float.
Proof. vm_compute. reflexivity. Qed.

(** ** Order on strings *)

Lemma ascii_compare_refl (a : ascii) : Ascii.compare a a = Eq.
Proof. unfold Ascii.compare. apply N.compare_refl. Qed.

Lemma string_compare_refl (s : string) : String.compare s s = Eq.
Proof. induction s as [|a s IH]; simpl; [done|]. by rewrite ascii_compare_refl. Qed.

Lemma ascii_compare_trans (a b c : ascii) (o : comparison) :
  Ascii.compare a b = o -> Ascii.compare b c = o -> Ascii.compare a c = o.
Proof.
  unfold Ascii.compare. intros H1 H2. destruct o.
  - apply N.compare_eq_iff in H1, H2. apply N.compare_eq_iff. congruence.
  - rewrite N.compare_lt_iff in *. lia.
  - rewrite N.compare_gt_iff in *. lia.
Qed.

Lemma string_compare_lt_trans (s1 s2 s3 : string) :
  String.compare s1 s2 = Lt -> String.compare s2 s3 = Lt -> String.compare s1 s3 = Lt.
Proof.
  revert s2 s3. induction s1 as [|a s1 IH]; intros [|b s2] [|c s3]; simpl; try done.
  destruct (Ascii.compare a b) eqn:Hab; try done;
    destruct (Ascii.compare b c) eqn:Hbc; try done; intros H1 H2.
  - apply Ascii.compare_eq_iff in Hab, Hbc. subst. rewrite ascii_compare_refl. eauto.
  - apply Ascii.compare_eq_iff in Hab. subst. by rewrite Hbc.
  - apply Ascii.compare_eq_iff in Hbc. subst. by rewrite Hab.
  - by rewrite (ascii_compare_trans a b c Lt).
Qed.

Lemma string_leb_trans (s1 s2 s3 : string) :
  String.leb s1 s2 = true -> String.leb s2 s3 = true -> String.leb s1 s3 = true.
Proof.
  unfold String.leb. intros H1 H2.
  destruct (String.compare s1 s2) eqn:E12; try done;
    destruct (String.compare s2 s3) eqn:E23; try done.
  - apply String.compare_eq_iff in E12, E23. subst. by rewrite string_compare_refl.
  - apply String.compare_eq_iff in E12. subst. by rewrite E23.
  - apply String.compare_eq_iff in E23. subst. by rewrite E12.
  - by rewrite (string_compare_lt_trans s1 s2 s3).
Qed.

Lemma string_ltb_false_leb (s1 s2 : string) :
  String.ltb s1 s2 = false <-> String.leb s2 s1 = true.
Proof.
  unfold String.ltb, String.leb. rewrite (String.compare_antisym s2 s1).
  destruct (String.compare s1 s2); simpl; split; done.
Qed.

(** ** The order of the problem list *)

Lemma key_lt_false_le (x y : problem) :
  key_lt (problem_key y) (problem_key x) = false <-> problem_le x y.
Proof.
  unfold key_lt, problem_le, problem_key. simpl.
  destruct (Z.eqb_spec (severity_order (severity y)) (severity_order (severity x))) as [E|E].
  - rewrite string_ltb_false_leb. split; [intros; right; split; congruence|].
    intros [?|[_ ?]]; [lia|done].
  - rewrite Z.ltb_ge. split; [intros; left; lia|]. intros [?|[? _]]; lia.
Qed.

Lemma key_lt_true_le (x y : problem) :
  key_lt (problem_key y) (problem_key x) = true -> problem_le y x.
Proof.
  unfold key_lt, problem_le, problem_key. simpl.
  destruct (Z.eqb_spec (severity_order (severity y)) (severity_order (severity x))) as [E|E].
  - unfold String.ltb, String.leb. destruct (String.compare _ _); try done. by right.
  - rewrite Z.ltb_lt. by left.
Qed.

Lemma problem_le_trans (x y z : problem) : problem_le x y -> problem_le y z -> problem_le x z.
Proof.
  unfold problem_le. intros [H1|[H1 L1]] [H2|[H2 L2]]; try (left; lia).
  right. split; [lia|]. by apply (string_leb_trans _ (category y)).
Qed.

Lemma insert_by_perm {A} (key : A -> Z * string) (x : A) (l : list A) :
  Permutation (x :: l) (insert_by key x l).
Proof.
  induction l as [|y l IH]; simpl; [done|].
  destruct (key_lt (key y) (key x)); [|done].
  rewrite perm_swap. by constructor.
Qed.

Lemma sorted_perm {A} (key : A -> Z * string) (l : list A) : Permutation l (sorted key l).
Proof.
  induction l as [|x l IH]; simpl; [done|].
  rewrite <- insert_by_perm. by constructor.
Qed.

Lemma insert_by_sorted (x : problem) (l : list problem) :
  StronglySorted problem_le l -> StronglySorted problem_le (insert_by problem_key x l).
Proof.
  induction 1 as [|y l Hs IH Hy]; simpl.
  - repeat constructor.
  - destruct (key_lt (problem_key y) (problem_key x)) eqn:E.
    + constructor; [done|].
      apply key_lt_true_le in E.
      eapply Permutation_Forall; [apply insert_by_perm|].
      constructor; done.
    + apply key_lt_false_le in E.
      constructor; [by constructor|].
      constructor; [done|].
      eapply Forall_impl; [exact Hy|]. intros z Hz. by eapply problem_le_trans.
Qed.

Lemma prioritize_sorted (problems : list problem) :
  StronglySorted problem_le (_prioritize_problems problems).
Proof.
  unfold _prioritize_problems.
  induction problems as [|x l IH]; simpl; [constructor|]. by apply insert_by_sorted.
Qed.

Lemma sorted_fixpoint (l : list problem) :
  Sorted problem_le l -> sorted problem_key l = l.
Proof.
  induction 1 as [|x l Hs IH Hx]; simpl; [done|].
  rewrite IH. destruct Hx as [|y l' Hxy]; simpl; [done|].
  apply key_lt_false_le in Hxy. by rewrite Hxy.
Qed.

(** ** The scoring loop *)

Lemma bind_ok {A B} (m : outcome A) (f : A -> outcome B) (b : B) :
  m ≫= f = Ok b -> exists a, m = Ok a /\ f a = Ok b.
Proof. destruct m as [a|e]; [by exists a|done]. Qed.

(** The weight table, case by case. *)
Lemma category_weights_cases (P : string -> Z -> Prop) :
  P "internet_exposure" 20 -> P "tls_security" 15 -> P "web_security" 15 ->
  P "email_security" 10 -> P "vulnerabilities" 25 -> P "iam_assessment" 8 ->
  P "backup_dr" 4 -> P "logging_monitoring" 3 ->
  forall c w, In (c, w) category_weights -> P c w.
Proof.
  intros ???????? c w Hin. simpl in Hin.
  repeat (destruct Hin as [Hin|Hin]; [injection Hin as <- <-; assumption|]).
  destruct Hin.
Qed.

Lemma weight_times_literal (c : string) (w : Z) :
  In (c, w) category_weights ->
  py_mul (PInt w) (PFloat lit_0_8) = Ok (failed_score w)
  /\ py_mul (PInt w) (PFloat lit_0_2) = Ok (failed_penalty w)
  /\ max_category_deduction !! c = Some w.
Proof. revert c w. apply category_weights_cases; by vm_compute. Qed.

(** A category that is not completed takes the else branch, whatever its
    entry holds and whether it has one. *)
Lemma process_category_not_completed (scan_results : category_map) (st : engine_state)
    (c : string) (w : Z) :
  In (c, w) category_weights ->
  is_completed (default empty_result (scan_results !! c)) = false ->
  process_category scan_results st (c, w) =
    (total ← py_sub (total_score st) (failed_penalty w);
     Ok (mkState total (all_problems st) (all_recommendations st)
                 (<[c := failed_score w]> (category_scores st)))).
Proof.
  intros Hin Hnc. destruct (weight_times_literal c w Hin) as (H8 & H2 & _).
  unfold process_category. rewrite Hnc, H8, H2. reflexivity.
Qed.

Lemma is_completed_false (r : category_result) :
  status r <> Some "completed" -> is_completed r = false.
Proof.
  unfold is_completed. destruct (status r) as [s|]; [|done].
  intros H. destruct (String.eqb_spec s "completed"); [|done]. by subst.
Qed.

Lemma process_category_scores_ne (scan_results : category_map) (st st' : engine_state)
    (c c' : string) (w : Z) :
  process_category scan_results st (c', w) = Ok st' -> c <> c' ->
  category_scores st' !! c = category_scores st !! c.
Proof.
  unfold process_category. intros H Hne.
  destruct (is_completed _).
  - apply bind_ok in H as ([[s ps] rs] & _ & H).
    apply bind_ok in H as (d & _ & H). apply bind_ok in H as (t & _ & H).
    injection H as <-. simpl. by rewrite lookup_insert_ne.
  - apply bind_ok in H as (fs & _ & H). apply bind_ok in H as (p & _ & H).
    apply bind_ok in H as (t & _ & H).
    injection H as <-. simpl. by rewrite lookup_insert_ne.
Qed.

Lemma for_each_scores_notin (scan_results : category_map) (l : list (string * Z))
    (st st' : engine_state) (c : string) :
  for_each (process_category scan_results) l st = Ok st' ->
  ~ In c (map fst l) ->
  category_scores st' !! c = category_scores st !! c.
Proof.
  revert st. induction l as [|[c' w'] l IH]; simpl; intros st H Hnin.
  - by injection H as <-.
  - apply bind_ok in H as (st1 & H1 & H).
    rewrite (IH st1 H) by tauto.
    eapply process_category_scores_ne; [exact H1|]. intros ->. tauto.
Qed.

(** Each weighted category is processed once, and its entry in
    [category_scores] is the one written then. *)
Lemma for_each_scores_in (scan_results : category_map) (l : list (string * Z))
    (st st' : engine_state) (c : string) (w : Z) :
  NoDup (map fst l) -> In (c, w) l ->
  for_each (process_category scan_results) l st = Ok st' ->
  exists st1 st2, process_category scan_results st1 (c, w) = Ok st2
                  /\ category_scores st' !! c = category_scores st2 !! c.
Proof.
  revert st. induction l as [|[c' w'] l IH]; simpl; intros st Hnd Hin H; [done|].
  apply NoDup_cons in Hnd as [Hc' Hnd].
  apply bind_ok in H as (st1 & H1 & H).
  destruct Hin as [Heq|Hin].
  - injection Heq as -> ->. exists st, st1. split; [done|].
    eapply for_each_scores_notin; [exact H|]. by rewrite <- list_elem_of_In.
  - eauto.
Qed.

Lemma category_weights_nodup : NoDup (map fst category_weights).
Proof. compute_done. Qed.

(** ** Totality of the scoring loop *)

Lemma reachable_totals_truncate :
  exists totals, reach (map snd category_weights) [PInt 100] = Some totals
                 /\ forall t, t ∈ totals -> is_ok (py_int t) = true.
Proof.
  assert (Hr : reach (map snd category_weights) [PInt 100] = final_totals)
    by (vm_compute; reflexivity).
  assert (Hc : all_truncate final_totals = true) by (vm_compute; reflexivity).
  rewrite Hr. clear Hr. destruct final_totals as [ts|]; [|discriminate Hc].
  exists ts. split; [reflexivity|].
  intros t Ht. unfold all_truncate in Hc. rewrite forallb_forall in Hc.
  apply Hc. by apply list_elem_of_In.
Qed.

Lemma reach_step_sound (w : Z) (totals totals' : list pynum) (t : pynum) (o : outcome pynum) :
  reach_step w totals = Some totals' -> t ∈ totals -> o ∈ next_totals w t ->
  exists t', o = Ok t' /\ t' ∈ totals'.
Proof.
  unfold reach_step. intros H Ht Ho.
  destruct (forallb is_ok _) eqn:Hall; [|done]. injection H as <-.
  assert (Hin : o ∈ flat_map (next_totals w) totals).
  { apply list_elem_of_In, in_flat_map. exists t. by rewrite <- !list_elem_of_In. }
  rewrite forallb_forall in Hall. specialize (Hall o).
  rewrite <- list_elem_of_In in Hall. specialize (Hall Hin).
  destruct o as [t'|e]; [|done]. exists t'. split; [done|].
  apply elem_of_remove_dups, list_elem_of_omap. by exists (Ok t').
Qed.

Lemma next_totals_failed (w : Z) (t : pynum) : py_sub t (failed_penalty w) ∈ next_totals w t.
Proof. unfold next_totals. by left. Qed.

Lemma next_totals_completed (w d : Z) (t : pynum) :
  0 <= d <= w -> py_sub t (PInt d) ∈ next_totals w t.
Proof.
  intros Hd. unfold next_totals. right.
  apply list_elem_of_In, in_map_iff. exists d. split; [done|].
  apply list_elem_of_In, elem_of_seqZ. lia.
Qed.

Lemma process_category_reach (scan_results : category_map) (st : engine_state)
    (c : string) (w : Z) (totals totals' : list pynum) :
  scores_within_weights scan_results -> In (c, w) category_weights ->
  reach_step w totals = Some totals' -> total_score st ∈ totals ->
  exists st', process_category scan_results st (c, w) = Ok st' /\ total_score st' ∈ totals'.
Proof.
  intros Hw Hin Hr Ht.
  destruct (is_completed (default empty_result (scan_results !! c))) eqn:Hc.
  - destruct (scan_results !! c) as [r|] eqn:Hl; [|done]. simpl in Hc.
    destruct (Hw c w r Hin Hl Hc) as (s & ps & rs & Hs & Hb).
    destruct (weight_times_literal c w Hin) as (_ & _ & Hm).
    destruct (reach_step_sound w totals totals' (total_score st)
                (py_sub (total_score st) (PInt (w - s))) Hr Ht) as (t' & Ht' & Hin').
    { apply next_totals_completed. lia. }
    unfold process_category. rewrite Hl. simpl. rewrite Hc, Hs. simpl.
    unfold subscript. rewrite Hm. simpl.
    rewrite Z.min_l by lia. rewrite Ht'. simpl. eauto.
  - rewrite process_category_not_completed by done.
    destruct (reach_step_sound w totals totals' (total_score st)
                (py_sub (total_score st) (failed_penalty w)) Hr Ht) as (t' & Ht' & Hin').
    { apply next_totals_failed. }
    rewrite Ht'. simpl. eauto.
Qed.

Lemma for_each_reach (scan_results : category_map) (l : list (string * Z)) (st : engine_state)
    (totals totals' : list pynum) :
  scores_within_weights scan_results ->
  (forall item, In item l -> In item category_weights) ->
  reach (map snd l) totals = Some totals' -> total_score st ∈ totals ->
  exists st', for_each (process_category scan_results) l st = Ok st'
              /\ total_score st' ∈ totals'.
Proof.
  intros Hw. revert st totals.
  induction l as [|[c w] l IH]; cbn [for_each map snd reach]; intros st totals Hsub Hr Ht.
  - injection Hr as <-. eauto.
  - destruct (reach_step w totals) as [totals1|] eqn:Hstep; [|done].
    assert (Hcw : In (c, w) category_weights) by (apply Hsub; by left).
    destruct (process_category_reach scan_results st c w totals totals1 Hw Hcw Hstep Ht)
      as (st1 & H1 & Ht1).
    rewrite H1. apply (IH st1 totals1); [|done|done].
    intros item Hitem. apply Hsub. by right.
Qed.

(** With every completed score within its weight, [calculate_score] returns. *)
Lemma calculate_score_returns (scan_results : category_map) :
  scores_within_weights scan_results -> is_ok (calculate_score scan_results) = true.
Proof.
  intros Hw. destruct reachable_totals_truncate as (totals & Hr & Hcheck).
  destruct (for_each_reach scan_results category_weights initial_state [PInt 100] totals Hw)
    as (st & Hst & Hin); [tauto|exact Hr|by left|].
  specialize (Hcheck (total_score st) Hin).
  unfold calculate_score, score_loop. rewrite Hst.
  cbn [mbind outcome_mbind outcome_bind].
  destruct (py_int (total_score st)); [reflexivity|discriminate Hcheck].
Qed.

(** [process_category] reads the map only at its own category, and a
    category that is not completed only through that fact. *)
Lemma process_category_agree (m1 m2 : category_map) (st : engine_state) (c : string) (w : Z) :
  m1 !! c = m2 !! c
  \/ (is_completed (default empty_result (m1 !! c)) = false
      /\ is_completed (default empty_result (m2 !! c)) = false) ->
  process_category m1 st (c, w) = process_category m2 st (c, w).
Proof.
  unfold process_category. intros [->|[-> ->]]; reflexivity.
Qed.

Lemma for_each_agree (m1 m2 : category_map) (l : list (string * Z)) (st : engine_state) :
  (forall c w, In (c, w) l ->
     m1 !! c = m2 !! c
     \/ (is_completed (default empty_result (m1 !! c)) = false
         /\ is_completed (default empty_result (m2 !! c)) = false)) ->
  for_each (process_category m1) l st = for_each (process_category m2) l st.
Proof.
  revert st. induction l as [|[c w] l IH]; cbn [for_each]; intros st H; [done|].
  rewrite (process_category_agree m1 m2 st c w) by (apply (H c w); by left).
  destruct (process_category m2 st (c, w)) as [st1|e]; [|done].
  cbn [mbind outcome_mbind outcome_bind]. apply IH. intros c' w' Hin. apply (H c' w'). by right.
Qed.

Lemma generate_summary_insert_not_completed (m : category_map) (c : string)
    (r : category_result) (scores : gmap string pynum) (problems : list problem) :
  is_completed (default empty_result (m !! c)) = false ->
  is_completed r = false ->
  _generate_summary (<[c := r]> m) scores problems = _generate_summary m scores problems.
Proof.
  intros Hm Hr. unfold _generate_summary.
  rewrite map_filter_insert_False by (simpl; congruence).
  rewrite map_filter_delete, delete_id; [done|].
  apply map_lookup_filter_None. right. intros r0 Hr0. rewrite Hr0 in Hm. simpl in *. congruence.
Qed.

(** Writing an entry that is not completed over a category that is missing
    or not completed changes nothing in the report. *)
Lemma calculate_score_insert_not_completed (m : category_map) (c : string)
    (r : category_result) :
  is_completed (default empty_result (m !! c)) = false ->
  is_completed r = false ->
  score_loop (<[c := r]> m) = score_loop m
  /\ calculate_score (<[c := r]> m) = calculate_score m.
Proof.
  intros Hm Hr.
  assert (Hloop : score_loop (<[c := r]> m) = score_loop m).
  { unfold score_loop. apply for_each_agree. intros c' w' _.
    destruct (decide (c = c')) as [<-|Hne].
    - right. by rewrite lookup_insert_eq.
    - left. by rewrite lookup_insert_ne. }
  split; [done|].
  unfold calculate_score. rewrite Hloop.
  destruct (score_loop m) as [st|e]; [|done]. cbn [mbind outcome_mbind outcome_bind].
  destruct (py_int (total_score st)) as [n|e]; [|done].
  by rewrite generate_summary_insert_not_completed.
Qed.

(** ** Bounds on the category scores *)

Lemma fold_left_invariant {S X} (P : S -> Prop) (step : S -> X -> S) (l : list X) (acc : S) :
  (forall a x, P a -> P (step a x)) -> P acc -> P (fold_left step l acc).
Proof. intros Hstep. revert acc. induction l; simpl; auto. Qed.

(** A scorer that subtracts non-negative deductions and clamps at zero. *)
Lemma clamped_score_bounds (w d : Z) : 0 <= w -> 0 <= d -> 0 <= Z.max 0 (w - d) <= w.
Proof. lia. Qed.

Lemma _score_internet_exposure_bounds (r : category_result) (w : Z) :
  0 <= w -> 0 <= score_of (_score_internet_exposure r w) <= w.
Proof.
  intros Hw. unfold _score_internet_exposure.
  match goal with |- context [fold_left ?f ?l ?a] =>
    pose proof (fold_left_invariant (fun acc : loop_acc => 0 <= snd acc) f l a) as Hinv;
    destruct (fold_left f l a) as [ps d] end.
  simpl in *. apply clamped_score_bounds; [done|]. apply Hinv; [|lia].
  intros [ps' d'] x Hd. simpl in *.
  destruct (p_port x); [|done]. repeat case_match; simpl; lia.
Qed.

Lemma _score_tls_security_bounds (r : category_result) (w : Z) :
  0 <= w -> 0 <= score_of (_score_tls_security r w) <= w.
Proof.
  intros Hw. unfold _score_tls_security.
  match goal with |- context [fold_left ?f ?l ?a] =>
    pose proof (fold_left_invariant (fun acc : loop_acc => 0 <= snd acc) f l a) as Hinv;
    destruct (fold_left f l a) as [ps d] end.
  simpl in *. apply clamped_score_bounds; [done|]. apply Hinv.
  - intros [ps' d'] x Hd. simpl in *. repeat case_match; lia.
  - repeat case_match; simpl; lia.
Qed.

Lemma _score_email_security_bounds (r : category_result) (w : Z) :
  0 <= w -> 0 <= score_of (_score_email_security r w) <= w.
Proof.
  intros Hw. unfold _score_email_security.
  match goal with |- context [fold_left ?f ?l ?a] =>
    pose proof (fold_left_invariant (fun acc : loop_acc => 0 <= snd acc) f l a) as Hinv;
    destruct (fold_left f l a) as [ps d] end.
  simpl in *. apply clamped_score_bounds; [done|]. apply Hinv.
  - intros [ps' d'] x Hd. simpl in *. repeat case_match; lia.
  - repeat case_match; simpl; lia.
Qed.

Lemma _score_iam_assessment_bounds (r : category_result) (w : Z) :
  0 <= w -> 0 <= score_of (_score_iam_assessment r w) <= w.
Proof.
  intros Hw. unfold _score_iam_assessment.
  match goal with |- context [fold_left ?f ?l (fold_left ?g ?k ?a)] =>
    pose proof (fold_left_invariant (fun acc : loop_acc => 0 <= snd acc) f l
                  (fold_left g k a)) as Hinv;
    pose proof (fold_left_invariant (fun acc : loop_acc => 0 <= snd acc) g k a) as Hinv';
    destruct (fold_left f l (fold_left g k a)) as [ps d] end.
  simpl in *. apply clamped_score_bounds; [done|]. apply Hinv.
  - intros [ps' d'] x Hd. simpl in *. repeat case_match; lia.
  - apply Hinv'; [|lia]. intros [ps' d'] x Hd. simpl in *. repeat case_match; simpl; lia.
Qed.

Lemma _score_backup_dr_bounds (r : category_result) (w : Z) :
  0 <= w -> 0 <= score_of (_score_backup_dr r w) <= w.
Proof.
  intros Hw. unfold _score_backup_dr.
  match goal with |- context [fold_left ?f ?l (fold_left ?g ?k (fold_left ?h ?j ?a))] =>
    pose proof (fold_left_invariant (fun acc : loop_acc => 0 <= snd acc) f l
                  (fold_left g k (fold_left h j a))) as Hinv;
    pose proof (fold_left_invariant (fun acc : loop_acc => 0 <= snd acc) g k
                  (fold_left h j a)) as Hinv';
    pose proof (fold_left_invariant (fun acc : loop_acc => 0 <= snd acc) h j a) as Hinv'';
    destruct (fold_left f l (fold_left g k (fold_left h j a))) as [ps d] end.
  simpl in *. apply clamped_score_bounds; [done|]. apply Hinv.
  - intros [ps' d'] x Hd. simpl in *. repeat case_match; lia.
  - apply Hinv'; [intros [ps' d'] x Hd; simpl in *; lia|].
    apply Hinv''; [intros [ps' d'] x Hd; simpl in *; lia|lia].
Qed.

Lemma _score_security_monitoring_bounds (r : category_result) (w : Z) :
  0 <= w -> 0 <= score_of (_score_security_monitoring r w) <= w.
Proof.
  intros Hw. unfold _score_security_monitoring, score_of.
  repeat case_match; simpl; lia.
Qed.

Lemma _score_web_security_base (r : category_result) (w : Z) :
  match _score_web_security r w with
  | Ok x => web_base_score (get_or (security_score r) 0) w = Ok (score_of x)
  | Raise e => web_base_score (get_or (security_score r) 0) w = Raise e
  end.
Proof.
  unfold _score_web_security, web_base_score. cbv zeta.
  destruct (int_truediv _ 100) as [pct|e]; cbn [mbind outcome_mbind outcome_bind];
    try reflexivity.
  destruct (py_mul _ _) as [scaled|e]; cbn [mbind outcome_mbind outcome_bind];
    try reflexivity.
  destruct (py_int scaled) as [b|e]; cbn [mbind outcome_mbind outcome_bind]; reflexivity.
Qed.

Lemma web_base_score_bounds (z : Z) :
  0 <= z <= 100 -> exists b, web_base_score z 15 = Ok b /\ 0 <= b <= 15.
Proof.
  intros Hz.
  assert (Hall : forallb web_base_in_range (seqZ 0 101) = true) by (vm_compute; reflexivity).
  rewrite forallb_forall in Hall. specialize (Hall z).
  unfold web_base_in_range in Hall.
  destruct (web_base_score z 15) as [b|e].
  - exists b. split; [done|].
    assert (Hb : (0 <=? b) && (b <=? 15) = true)
      by (apply Hall, list_elem_of_In, elem_of_seqZ; lia).
    apply andb_true_iff in Hb as [H1 H2]. lia.
  - exfalso. assert (false = true) by (apply Hall, list_elem_of_In, elem_of_seqZ; lia). done.
Qed.

Lemma binary_round_aux_not_negative (m e : Z) (l : location) :
  not_negative (binary_round_aux prec emax false m e l).
Proof.
  unfold binary_round_aux. repeat case_match; done.
Qed.

Lemma b64_of_Z_not_negative (z : Z) : 0 <= z -> not_negative (b64_of_Z z).
Proof.
  intros Hz. unfold b64_of_Z, binary_normalize. destruct z as [|p|p]; [done| |lia].
  unfold binary_round. case_match. apply binary_round_aux_not_negative.
Qed.

Lemma b64_mul_half_not_negative (f : spec_float) :
  not_negative f -> not_negative (b64_mul f lit_0_5).
Proof.
  destruct f as [s|s| |[] m e]; try done. intros _.
  unfold b64_mul, lit_0_5, SFmul. apply binary_round_aux_not_negative.
Qed.

Lemma b64_add_not_negative (f g : spec_float) :
  not_negative f -> not_negative g -> not_negative (b64_add f g).
Proof.
  destruct f as [s|s| |[] m e]; destruct g as [s'|s'| |[] m' e']; try done;
    intros _ _; unfold b64_add, SFadd; try (repeat case_match; done).
  unfold cond_Zopp, binary_normalize.
  destruct (Z.pos _ + Z.pos _) eqn:Hs; [done| |lia].
  unfold binary_round. case_match. apply binary_round_aux_not_negative.
Qed.

Lemma int_of_float_not_negative (f : spec_float) (n : Z) :
  not_negative f -> int_of_float f = Ok n -> 0 <= n.
Proof.
  destruct f as [s|s| |[] m e]; try done; simpl; intros _ H; injection H as <-; [lia|].
  destruct (0 <=? e) eqn:He.
  - apply Z.shiftl_nonneg. lia.
  - apply Z.shiftr_nonneg. lia.
Qed.

Lemma float_of_int_not_negative (z : Z) (f : spec_float) :
  0 <= z -> float_of_int z = Ok f -> not_negative f.
Proof.
  intros Hz. unfold float_of_int. pose proof (b64_of_Z_not_negative z Hz) as Hn.
  destruct (b64_of_Z z); intros H; try done; by injection H as <-.
Qed.

Lemma _score_vulnerabilities_bounds (r : category_result) (w : Z) (x : scored) :
  0 <= w -> risk_counts_not_negative r ->
  _score_vulnerabilities r w = Ok x -> 0 <= score_of x <= w.
Proof.
  intros Hw Hr. unfold _score_vulnerabilities.
  set (rs := get_or (risk_summary r) (mkRisk None None None None)).
  assert (Hrs : 0 <= get_or (rs_critical rs) 0 /\ 0 <= get_or (rs_high rs) 0
                /\ 0 <= get_or (rs_medium rs) 0 /\ 0 <= get_or (rs_low rs) 0).
  { unfold rs, risk_counts_not_negative in *. destruct (risk_summary r); simpl; [done|lia]. }
  destruct Hrs as (Hc & Hh & Hm & Hl).
  set (d := 0 + get_or (rs_critical rs) 0 * 8 + get_or (rs_high rs) 0 * 4
            + get_or (rs_medium rs) 0 * 2).
  assert (Hd : 0 <= d) by (unfold d; lia).
  intros H. apply bind_ok in H as (low_part & Hlow & H).
  apply bind_ok in H as (ded & Hded & H). apply bind_ok in H as (n & Hn & H).
  injection H as <-. unfold score_of. simpl.
  apply clamped_score_bounds; [done|].
  change (float_of_int (get_or (rs_low rs) 0) ≫= (fun f => Ok (PFloat (b64_mul f lit_0_5)))
          = Ok low_part) in Hlow.
  apply bind_ok in Hlow as (fl & Hfl & Hlow). injection Hlow as <-.
  change (float_of_int d ≫= (fun f => Ok (PFloat (b64_add f (b64_mul fl lit_0_5))))
          = Ok ded) in Hded.
  apply bind_ok in Hded as (fd & Hfd & Hded). injection Hded as <-.
  change (int_of_float (b64_add fd (b64_mul fl lit_0_5)) = Ok n) in Hn. eapply int_of_float_not_negative; [|exact Hn].
  apply b64_add_not_negative.
  - exact (float_of_int_not_negative _ _ Hd Hfd).
  - apply b64_mul_half_not_negative. exact (float_of_int_not_negative _ _ Hl Hfl).
Qed.

(** A completed entry within the scanners' ranges scores within the
    weight of its category, and outside the CVE category the scorer always
    returns. *)
Lemma score_category_bounds (c : string) (w : Z) (r : category_result) :
  In (c, w) category_weights ->
  scanner_ranges r ->
  (forall x, _score_category c r w = Ok x -> 0 <= score_of x <= w)
  /\ (c <> "vulnerabilities" -> is_ok (_score_category c r w) = true).
Proof.
  intros Hin [Hweb Hrisk]. revert c w Hin.
  apply category_weights_cases; (split; [intros x Hx|intros Hc; try done]);
    unfold _score_category in *; cbn [String.eqb Ascii.eqb Bool.eqb] in *;
    try (injection Hx as <-).
  - by apply _score_internet_exposure_bounds.
  - by apply _score_tls_security_bounds.
  - pose proof (_score_web_security_base r 15) as Hb. rewrite Hx in Hb.
    destruct (web_base_score_bounds _ Hweb) as (b & Hb' & Hrange). congruence.
  - pose proof (_score_web_security_base r 15) as Hb.
    destruct (web_base_score_bounds _ Hweb) as (b & Hb' & Hrange).
    destruct (_score_web_security r 15); [done|congruence].
  - by apply _score_email_security_bounds.
  - by apply (_score_vulnerabilities_bounds r).
  - by apply _score_iam_assessment_bounds.
  - by apply _score_backup_dr_bounds.
  - by apply _score_security_monitoring_bounds.
Qed.

(** C4, as the code has it. For a completed entry whose [security_score]
    lies in [0, 100] and whose risk counts are not negative, every score a
    category scorer returns lies between 0 and the category's weight; and
    outside the CVE category the scorer always returns. *)
Theorem completed_score_within_weight (c : string) (w : Z) (r : category_result) :
  In (c, w) category_weights ->
  status r = Some "completed" ->
  scanner_ranges r ->
  (forall x, _score_category c r w = Ok x -> 0 <= score_of x <= w)
  /\ (c <> "vulnerabilities" -> is_ok (_score_category c r w) = true).
Proof. intros Hin _ Hr. by apply score_category_bounds. Qed.

(** Entries within the scanners' ranges score within their weights,
    provided the CVE scorer returns on its entry. *)
Lemma scanner_ranges_within_weights (scan_results : category_map) :
  (forall c r, scan_results !! c = Some r -> scanner_ranges r) ->
  (forall r, scan_results !! "vulnerabilities" = Some r ->
             is_ok (_score_category "vulnerabilities" r 25) = true) ->
  scores_within_weights scan_results.
Proof.
  intros Hranges Hcve c w r Hin Hl _.
  destruct (score_category_bounds c w r Hin (Hranges c r Hl)) as [Hb Hok].
  assert (Hret : is_ok (_score_category c r w) = true).
  { destruct (decide (c = "vulnerabilities")) as [->|Hne]; [|by apply Hok].
    assert (w = 25) as -> by (simpl in Hin; intuition congruence). by apply Hcve. }
  destruct (_score_category c r w) as [[[x ps] rs]|e] eqn:Hs; [|done].
  exists x, ps, rs. split; [done|]. by apply (Hb (x, ps, rs)).
Qed.

Lemma completed_score_within_weight_witness :
  _score_category "web_security" (web_entry 70) 15 = Ok (10, [], [])
  /\ 0 <= 10 <= 15.
Proof.
  split; [vm_compute; reflexivity|].
  apply (proj1 (completed_score_within_weight "web_security" 15 (web_entry 70)
                  ltac:(simpl; tauto) eq_refl
                  ltac:(split; [vm_compute; split; discriminate|exact I]))
               (10, [], [])).
  vm_compute. reflexivity.
Defined.

(** C4 as stated fails: a completed web entry with [security_score = 200]
    scores 30, twice the weight of its category, and [calculate_score]
    records that score. *)
Lemma web_score_exceeds_weight :
  status (web_entry 200) = Some "completed"
  /\ In ("web_security", 15) category_weights
  /\ _score_category "web_security" (web_entry 200) 15 = Ok (30, [], [])
  /\ 15 < 30
  /\ exists st, score_loop {[ "web_security" := web_entry 200 ]} = Ok st
                /\ category_scores st !! "web_security" = Some (PInt 30).
Proof.
  split; [reflexivity|]. split; [simpl; tauto|]. split; [vm_compute; reflexivity|].
  split; [lia|]. eexists. split; vm_compute; reflexivity.
Qed.

(** ** The clean scan *)

Lemma clean_category_score (c : string) (w : Z) (r : category_result) :
  In (c, w) category_weights -> zero_findings c r -> full_marks c r ->
  exists recs, _score_category c r w = Ok (w, [], recs).
Proof.
  intros Hin (Hv & Hie & Htls & Hweb & Hmail & Hcve & Hiam & Hbk) (Hfw & Hfm).
  each_category Hin; unfold _score_category; cbn [String.eqb Ascii.eqb Bool.eqb].
  - unfold _score_internet_exposure. rewrite (Hie eq_refl). by eexists.
  - destruct (Htls eq_refl) as (H0 & H1 & Hcert).
    unfold _score_tls_security. rewrite Hv, H0, H1. cbn [orb fold_left].
    destruct (certificate r) as [cert|]; [|by eexists].
    assert (Hd0 : (get_or (days_until_expiry cert) 365 <? 0) = false) by lia.
    assert (Hd30 : (get_or (days_until_expiry cert) 365 <? 30) = false) by lia.
    rewrite Hd0, Hd30. by eexists.
  - unfold _score_web_security. rewrite (Hfw eq_refl), (Hweb eq_refl), Hv. by eexists.
  - destruct (Hmail eq_refl) as ((s & Hs & Hse) & (d & Hd & Hde) & (d' & Hd' & Hde')).
    unfold _score_email_security. rewrite Hv, Hs, Hd, Hd', Hse, Hde, Hde'. by eexists.
  - unfold _score_vulnerabilities. rewrite Hv. specialize (Hcve eq_refl).
    destruct (risk_summary r) as [rs|]; simpl in *.
    + destruct Hcve as (-> & -> & -> & ->). by eexists.
    + by eexists.
  - unfold _score_iam_assessment. rewrite Hv, (Hiam eq_refl). by eexists.
  - destruct (Hbk eq_refl) as [Hb Hc].
    unfold _score_backup_dr. rewrite Hv, Hb, Hc. by eexists.
  - destruct (Hfm eq_refl) as (Hw & Hd & Hr). unfold truthy in *.
    unfold _score_security_monitoring. rewrite Hw, Hd, Hr. by eexists.
Qed.

Lemma process_category_full_score (m : category_map) (st : engine_state) (c : string) (w t : Z)
    (r : category_result) (recs : list recommendation_entry) :
  In (c, w) category_weights -> m !! c = Some r -> is_completed r = true ->
  _score_category c r w = Ok (w, [], recs) -> total_score st = PInt t ->
  process_category m st (c, w) =
    Ok (mkState (PInt t) (all_problems st) (all_recommendations st ++ recs)
                (<[c := PInt w]> (category_scores st))).
Proof.
  intros Hin Hl Hc Hs Ht. destruct (weight_times_literal c w Hin) as (_ & _ & Hm).
  unfold process_category. rewrite Hl.
  change (default empty_result (Some r)) with r. rewrite Hc, Hs.
  cbn [mbind outcome_mbind outcome_bind]. unfold subscript. rewrite Hm, Ht.
  cbn [mbind outcome_mbind outcome_bind py_sub].
  rewrite Z.sub_diag, Z.min_l, Z.sub_0_r, app_nil_r; [done|].
  each_category Hin; lia.
Qed.

Lemma is_completed_true (r : category_result) :
  status r = Some "completed" -> is_completed r = true.
Proof. unfold is_completed. by intros ->. Qed.

Lemma for_each_clean (m : category_map) (l : list (string * Z)) (st : engine_state) (t : Z) :
  (forall c w, In (c, w) l ->
     In (c, w) category_weights
     /\ exists r, m !! c = Some r /\ status r = Some "completed"
                  /\ zero_findings c r /\ full_marks c r) ->
  total_score st = PInt t -> all_problems st = [] ->
  exists st', for_each (process_category m) l st = Ok st'
              /\ total_score st' = PInt t /\ all_problems st' = [].
Proof.
  revert st. induction l as [|[c w] l IH]; cbn [for_each]; intros st H Ht Hp; [eauto|].
  destruct (H c w) as (Hin & r & Hl & Hs & Hz & Hf); [by left|].
  destruct (clean_category_score c w r Hin Hz Hf) as (recs & Hscore).
  rewrite (process_category_full_score m st c w t r recs)
    by auto using is_completed_true.
  cbn [mbind outcome_mbind outcome_bind]. apply IH; [|done|done].
  intros c' w' Hin'. apply H. by right.
Qed.

(** C5, as the code has it. With all eight categories completed with zero
    findings, a web [security_score] of 100 and the WAF, DDoS protection
    and rate limiting all detected, the score is 100 and no problem is
    reported. *)
Theorem clean_scan_scores_100 (scan_results : category_map) :
  (forall c w, In (c, w) category_weights ->
     exists r, scan_results !! c = Some r /\ status r = Some "completed"
               /\ zero_findings c r /\ full_marks c r) ->
  exists recommendations summary,
    calculate_score scan_results = Ok (100, [], recommendations, summary)
    /\ total_issues_found summary = 0.
Proof.
  intros H.
  destruct (for_each_clean scan_results category_weights initial_state 100)
    as (st & Hst & Ht & Hp); [|done|done|].
  { intros c w Hin. split; [done|]. exact (H c w Hin). }
  unfold calculate_score, score_loop. rewrite Hst.
  cbn [mbind outcome_mbind outcome_bind]. rewrite Ht, Hp. by eexists _, _.
Qed.

Lemma clean_scan_zero_findings (web_score : Z) (controls : bool) (c : string) (w : Z) :
  In (c, w) category_weights ->
  exists r, clean_scan web_score controls !! c = Some r /\ status r = Some "completed"
            /\ zero_findings c r.
Proof.
  intros Hin. each_category Hin; eexists; (split; [reflexivity|]); (split; [reflexivity|]);
    unfold zero_findings; cbn; repeat split; try discriminate; try lia; eauto.
Qed.

Lemma clean_scan_scores_100_witness :
  exists recommendations summary,
    calculate_score (clean_scan 100 true) = Ok (100, [], recommendations, summary)
    /\ total_issues_found summary = 0.
Proof.
  apply clean_scan_scores_100. intros c w Hin.
  destruct (clean_scan_zero_findings 100 true c w Hin) as (r & Hl & Hs & Hz).
  exists r. split; [exact Hl|]. split; [exact Hs|]. split; [exact Hz|].
  split; intros ->; vm_compute in Hl; injection Hl as <-; vm_compute; auto.
Defined.

(** C5 as stated fails: with all eight categories completed and zero
    findings, but no WAF, DDoS protection or rate limiting detected, the
    score is 97 and three problems are reported. *)
Lemma clean_scan_without_controls_scores_97 :
  (forall c w, In (c, w) category_weights ->
     exists r, clean_scan 100 false !! c = Some r /\ status r = Some "completed"
               /\ zero_findings c r)
  /\ exists problems recommendations summary,
       calculate_score (clean_scan 100 false) = Ok (97, problems, recommendations, summary)
       /\ length problems = 3%nat.
Proof.
  split; [apply clean_scan_zero_findings|].
  eexists _, _, _. split; vm_compute; reflexivity.
Qed.

(** ** The score and the failed categories *)

(** C1. Whenever [calculate_score] returns, the score is the truncated
    running total clamped to [0, 100]; and it does return whenever every
    completed category scores within its weight, as is the case when the
    entries keep to the scanners' ranges and the CVE scorer returns. *)
Theorem calculate_score_clamped (scan_results : category_map) :
  (forall score problems recommendations summary,
      calculate_score scan_results = Ok (score, problems, recommendations, summary) ->
      0 <= score <= 100
      /\ exists st truncated,
           score_loop scan_results = Ok st
           /\ py_int (total_score st) = Ok truncated
           /\ score = Z.max 0 (Z.min 100 truncated))
  /\ (scores_within_weights scan_results -> is_ok (calculate_score scan_results) = true)
  /\ ((forall c r, scan_results !! c = Some r -> scanner_ranges r) ->
      (forall r, scan_results !! "vulnerabilities" = Some r ->
                 is_ok (_score_category "vulnerabilities" r 25) = true) ->
      is_ok (calculate_score scan_results) = true).
Proof.
  split; [|split; [apply calculate_score_returns|]].
  2:{ intros Hr Hc. by apply calculate_score_returns, scanner_ranges_within_weights. }
  intros score problems recommendations summary H. unfold calculate_score in H.
  apply bind_ok in H as (st & Hst & H). apply bind_ok in H as (n & Hn & H).
  injection H as <- _ _ _. split; [lia|]. by exists st, n.
Qed.

(** C2. A weighted category whose entry is not completed gets the score
    [weight * 0.8] and takes [weight * 0.2] off the running total, and the
    report does not depend on anything else in the entry. *)
Theorem failed_category_contribution (scan_results : category_map) (st : engine_state)
    (c : string) (w : Z) (r : category_result) :
  In (c, w) category_weights ->
  scan_results !! c = Some r ->
  status r <> Some "completed" ->
  py_mul (PInt w) (PFloat lit_0_8) = Ok (failed_score w)
  /\ py_mul (PInt w) (PFloat lit_0_2) = Ok (failed_penalty w)
  /\ process_category scan_results st (c, w) =
       (total ← py_sub (total_score st) (failed_penalty w);
        Ok (mkState total (all_problems st) (all_recommendations st)
                    (<[c := failed_score w]> (category_scores st))))
  /\ (forall final, score_loop scan_results = Ok final ->
        category_scores final !! c = Some (failed_score w))
  /\ (forall r', status r' <> Some "completed" ->
        calculate_score (<[c := r']> scan_results) = calculate_score scan_results).
Proof.
  intros Hin Hl Hs. apply is_completed_false in Hs.
  assert (Hnc : is_completed (default empty_result (scan_results !! c)) = false)
    by (by rewrite Hl).
  destruct (weight_times_literal c w Hin) as (H8 & H2 & _).
  split; [done|]. split; [done|]. split; [by apply process_category_not_completed|].
  split.
  - intros final Hfinal.
    destruct (for_each_scores_in scan_results category_weights initial_state final c w
                category_weights_nodup Hin Hfinal) as (st1 & st2 & Hstep & ->).
    rewrite process_category_not_completed in Hstep by done.
    apply bind_ok in Hstep as (t & _ & Hstep). injection Hstep as <-.
    apply lookup_insert_eq.
  - intros r' Hr'. apply is_completed_false in Hr'.
    by apply calculate_score_insert_not_completed.
Qed.

(** C10. A weighted category with no entry is scored as a failed one: same
    score, same deduction, and the whole report (the summary's
    [categories_failed] included) is the one of the map with a failed entry
    written for it. *)
Theorem missing_category_scored_as_failed (scan_results : category_map) (st : engine_state)
    (c : string) (w : Z) :
  In (c, w) category_weights ->
  scan_results !! c = None ->
  process_category scan_results st (c, w) =
    (total ← py_sub (total_score st) (failed_penalty w);
     Ok (mkState total (all_problems st) (all_recommendations st)
                 (<[c := failed_score w]> (category_scores st))))
  /\ (forall final, score_loop scan_results = Ok final ->
        category_scores final !! c = Some (failed_score w))
  /\ (forall r, status r <> Some "completed" ->
        calculate_score scan_results = calculate_score (<[c := r]> scan_results))
  /\ (forall score problems recommendations summary,
        calculate_score scan_results = Ok (score, problems, recommendations, summary) ->
        categories_scanned summary = 8
        /\ categories_failed summary = 8 - categories_completed summary
        /\ categories_completed summary =
             Z.of_nat (size (filter (fun kv : string * category_result =>
                                       is_completed (snd kv) = true /\ fst kv <> c)
                                    scan_results)))
  /\ (scores_within_weights scan_results -> is_ok (calculate_score scan_results) = true).
Proof.
  intros Hin Hl.
  assert (Hnc : is_completed (default empty_result (scan_results !! c)) = false)
    by (by rewrite Hl).
  split; [by apply process_category_not_completed|]. split; [|split; [|split]].
  - intros final Hfinal.
    destruct (for_each_scores_in scan_results category_weights initial_state final c w
                category_weights_nodup Hin Hfinal) as (st1 & st2 & Hstep & ->).
    rewrite process_category_not_completed in Hstep by done.
    apply bind_ok in Hstep as (t & _ & Hstep). injection Hstep as <-.
    apply lookup_insert_eq.
  - intros r Hr. apply is_completed_false in Hr. symmetry.
    by apply calculate_score_insert_not_completed.
  - intros score problems recommendations summary H. unfold calculate_score in H.
    apply bind_ok in H as (st' & _ & H). apply bind_ok in H as (n & _ & H).
    injection H as _ _ _ <-. cbn. split; [done|]. split; [done|].
    do 2 f_equal. apply map_filter_ext. intros c' r' Hc'. simpl.
    split; [|tauto]. intros Hr'. split; [done|]. intros ->. congruence.
  - apply calculate_score_returns.
Qed.

(** ** The TLS probe *)


(** ** The orchestrator *)

Lemma run_category_insert (task : progress_task) (target scan_type : string) (total : Z)
    (results : category_map) (i : Z) (item : string * scanner_class) :
  run_category task target scan_type total results i item =
    <[fst item := category_entry (category_attempt task target scan_type total i item)]> results.
Proof. unfold run_category, category_entry. by destruct (category_attempt _ _ _ _ _ _). Qed.

Lemma run_comprehensive_scan_lookup (cls : scanner_classes) (target scan_type : string)
    (task : progress_task) (i : nat) (c : string) (sc : scanner_class) :
  scan_categories cls !! i = Some (c, sc) ->
  run_comprehensive_scan cls target scan_type task !! c =
    Some (category_entry (category_attempt task target scan_type 8 (Z.of_nat i) (c, sc))).
Proof.
  intros Hi. unfold run_comprehensive_scan.
  cbn [scan_categories length Z.of_nat Pos.of_succ_nat Pos.succ run_categories].
  rewrite !run_category_insert. cbn [fst].
  do 8 (destruct i as [|i]; [injection Hi as <- <-; by simplify_map_eq|]).
  done.
Qed.

(** C6. The map returned by [run_comprehensive_scan] has exactly the eight
    scheduled categories as keys. The entry of a category is what [scan]
    of its scanner class returned; when the progress update, the
    constructor or [scan] raises [e], it is the failed entry built from
    [e], with status failed and the note made of [str(e)]. *)
Theorem run_comprehensive_scan_one_entry_each (cls : scanner_classes)
    (target scan_type : string) (task : progress_task) :
  dom (run_comprehensive_scan cls target scan_type task) = scheduled
  /\ size (run_comprehensive_scan cls target scan_type task) = 8%nat
  /\ map fst (scan_categories cls) = map fst category_weights
  /\ (forall (i : nat) c sc, scan_categories cls !! i = Some (c, sc) ->
        run_comprehensive_scan cls target scan_type task !! c =
          Some match (match task with
                      | Some update_state => update_state (Z.of_nat i + 1) 8 c
                      | None => Ok tt
                      end) with
               | Raise e => failed_entry e
               | Ok _ =>
                   match init sc target scan_type with
                   | Raise e => failed_entry e
                   | Ok scanner =>
                       match scan sc scanner with
                       | Ok category_result => category_result
                       | Raise e => failed_entry e
                       end
                   end
               end)
  /\ (forall (i : nat) c sc e, scan_categories cls !! i = Some (c, sc) ->
        task = None -> init sc target scan_type = Raise e ->
        run_comprehensive_scan cls target scan_type task !! c = Some (failed_entry e))
  /\ (forall (i : nat) c sc scanner e, scan_categories cls !! i = Some (c, sc) ->
        task = None -> init sc target scan_type = Ok scanner -> scan sc scanner = Raise e ->
        run_comprehensive_scan cls target scan_type task !! c = Some (failed_entry e))
  /\ (forall (i : nat) c sc scanner r, scan_categories cls !! i = Some (c, sc) ->
        task = None -> init sc target scan_type = Ok scanner -> scan sc scanner = Ok r ->
        run_comprehensive_scan cls target scan_type task !! c = Some r)
  /\ (forall e, status (failed_entry e) = Some "failed"
                /\ note (failed_entry e) = Some ("Scanning not possible: " +:+ exn_str e))
  /\ (forall (i : nat) c sc, scan_categories cls !! i = Some (c, sc) ->
        run_comprehensive_scan cls target scan_type task !! c =
          Some (category_entry
                  (category_attempt task target scan_type 8 (Z.of_nat i) (c, sc))))
  /\ (forall (i : nat) c sc e, scan_categories cls !! i = Some (c, sc) ->
        category_attempt task target scan_type 8 (Z.of_nat i) (c, sc) = Raise e ->
        exists r, run_comprehensive_scan cls target scan_type task !! c = Some r
                  /\ status r = Some "failed"
                  /\ note r = Some ("Scanning not possible: " +:+ exn_str e)).
Proof.
  pose proof (run_comprehensive_scan_lookup cls target scan_type task) as Hlookup.
  assert (Hentry : forall (i : nat) c sc, scan_categories cls !! i = Some (c, sc) ->
            run_comprehensive_scan cls target scan_type task !! c =
              Some match (match task with
                          | Some update_state => update_state (Z.of_nat i + 1) 8 c
                          | None => Ok tt
                          end) with
                   | Raise e => failed_entry e
                   | Ok _ =>
                       match init sc target scan_type with
                       | Raise e => failed_entry e
                       | Ok scanner =>
                           match scan sc scanner with
                           | Ok category_result => category_result
                           | Raise e => failed_entry e
                           end
                       end
                   end).
  { intros i c sc Hi. rewrite (Hlookup i c sc Hi). f_equal.
    unfold category_entry, category_attempt.
    destruct task as [update_state|]; [destruct (update_state _ _ _) as [[]|e]|];
      cbn [mbind outcome_mbind outcome_bind]; try reflexivity;
      destruct (init sc target scan_type) as [scanner|e];
      cbn [mbind outcome_mbind outcome_bind]; reflexivity. }
  split; [|split; [|split; [reflexivity|]]].
  - unfold run_comprehensive_scan.
    cbn [scan_categories length Z.of_nat Pos.of_succ_nat Pos.succ run_categories].
    rewrite !run_category_insert. cbn [fst].
    rewrite !dom_insert_L, dom_empty_L. unfold scheduled. cbn. set_solver.
  - unfold run_comprehensive_scan.
    cbn [scan_categories length Z.of_nat Pos.of_succ_nat Pos.succ run_categories].
    rewrite !run_category_insert. cbn [fst].
    repeat (rewrite map_size_insert_None; [|by simplify_map_eq]).
    by rewrite map_size_empty.
  - split; [exact Hentry|].
    split; [intros i c sc e Hi -> He; by rewrite (Hentry i c sc Hi), He|].
    split; [intros i c sc scanner e Hi -> Hs He; by rewrite (Hentry i c sc Hi), Hs, He|].
    split; [intros i c sc scanner r Hi -> Hs Hr; by rewrite (Hentry i c sc Hi), Hs, Hr|].
    split; [by intros e|]. split; [exact Hlookup|].
    intros i c sc e Hi He. eexists. split; [by apply (Hlookup i c sc)|].
    rewrite He. by split.
Qed.

(** ** The probes' error boundary *)

Lemma handle_network_error_failed (self : base_scanner) (elapsed operation detail : string) :
  status (handle_network_error self elapsed operation (Some detail)) = Some "failed"
  /\ note (handle_network_error self elapsed operation (Some detail))
     = Some (network_error_note operation detail).
Proof.
  unfold handle_network_error, network_error_note, create_result.
  destruct (String.eqb detail ""); split; reflexivity.
Qed.

Lemma handle_timeout_failed (self : base_scanner) (elapsed operation : string) :
  status (handle_timeout self elapsed operation) = Some "failed"
  /\ note (handle_timeout self elapsed operation)
     = Some (timeout_note operation (timeout self)).
Proof. split; reflexivity. Qed.

Lemma scan_handlers_failed (self : base_scanner) (elapsed operation : string) (e : exn) :
  exists r, scan_handlers self elapsed operation e = Ok r
            /\ status r = Some "failed"
            /\ note r = Some (failure_note operation (timeout self) e).
Proof.
  unfold scan_handlers, failure_note.
  destruct (exn_cls e); eexists; (split; [reflexivity|]);
    first [apply handle_network_error_failed | apply handle_timeout_failed].
Qed.

(** C7. [scan] of the TLS probe and of the service-discovery probe never
    raises. When the [try] block raises, the result is a failed entry whose
    note is the network-error note built from [str(e)] (the timeout note
    for a NetworkTimeoutError); otherwise it is the block's result. *)
Theorem scan_never_raises (tenv : tls_env) (xenv : exposure_env) (self : base_scanner)
    (use_nmap : bool) (elapsed : string) :
  (exists r, tls_scan tenv self elapsed = Ok r
             /\ match tls_scan_body tenv (start_scan self) elapsed with
                | Ok r' => r = r'
                | Raise e =>
                    status r = Some "failed"
                    /\ note r = Some (failure_note "TLS/SSL analysis" (timeout self) e)
                end)
  /\ (exists r, exposure_scan xenv self use_nmap elapsed = Ok r
                /\ match exposure_scan_body xenv (start_scan self) use_nmap elapsed with
                   | Ok r' => r = r'
                   | Raise e =>
                       status r = Some "failed"
                       /\ note r = Some (failure_note "port scanning" (timeout self) e)
                   end).
Proof.
  split.
  - unfold tls_scan, try_except.
    destruct (tls_scan_body tenv (start_scan self) elapsed) as [r|e]; [by exists r|].
    destruct (scan_handlers_failed (start_scan self) elapsed "TLS/SSL analysis" e)
      as (r & Hr & Hs & Hn). by exists r.
  - unfold exposure_scan, try_except.
    destruct (exposure_scan_body xenv (start_scan self) use_nmap elapsed) as [r|e];
      [by exists r|].
    destruct (scan_handlers_failed (start_scan self) elapsed "port scanning" e)
      as (r & Hr & Hs & Hn). by exists r.
Qed.

(** ** The socket fallback *)

Lemma executor_map_open (net : network) (ports : list Z) (log : list Z) (r : port_info) :
  Some r ∈ fst (executor_map net log ports) ->
  exists port log0,
    p_port r = Some port /\ p_state r = Some "open" /\ In port ports
    /\ create_socket net log0 port = Ok tt /\ connect_ex net log0 port = Ok 0.
Proof.
  revert log. induction ports as [|port rest IH]; cbn [executor_map]; intros log H.
  - simpl in H. by apply elem_of_nil in H.
  - destruct (scan_port net log port) as [x log1] eqn:Hsp.
    destruct (executor_map net log1 rest) as [rs log2] eqn:Hem. cbn [fst] in H.
    apply elem_of_cons in H as [H|H].
    + subst x. unfold scan_port in Hsp.
      destruct (create_socket net log port) as [[]|] eqn:Hcs; [|done].
      destruct (connect_ex net log port) as [code|] eqn:Hce; [|done].
      destruct (Z.eqb_spec code 0) as [->|]; [|done].
      injection Hsp as <- _. exists port, log. repeat split; try done. by left.
    + specialize (IH log1). rewrite Hem in IH. destruct (IH H) as (p & l0 & ? & ? & ? & ? & ?).
      exists p, l0. repeat split; try done. by right.
Qed.

Lemma executor_map_log (net : network) (ports : list Z) (log : list Z) :
  exists attempted, snd (executor_map net log ports) = log ++ attempted
                    /\ sublist attempted ports.
Proof.
  revert log. induction ports as [|port rest IH]; cbn [executor_map]; intros log.
  - exists []. split; [by rewrite app_nil_r|constructor].
  - destruct (scan_port net log port) as [x log1] eqn:Hsp.
    destruct (IH log1) as (att & Hatt & Hsub).
    destruct (executor_map net log1 rest) as [rs log2]. cbn [snd] in *. subst log2.
    unfold scan_port in Hsp.
    destruct (create_socket net log port) as [[]|].
    + assert (log1 = log ++ [port]) as ->.
      { destruct (connect_ex net log port) as [code|]; [destruct (code =? 0)|];
          by injection Hsp as _ <-. }
      exists (port :: att). split; [by rewrite <- app_assoc|by constructor].
    + injection Hsp as _ <-. exists att. split; [done|by constructor].
Qed.

Lemma _get_scan_ports_nodup (self : base_scanner) : NoDup (_get_scan_ports self).
Proof.
  assert (NoDup COMMON_PORTS) by compute_done.
  unfold _get_scan_ports. repeat case_match; try done. apply NoDup_seqZ.
Qed.

(** C9. In the socket fallback every open-port record belongs to a port of
    the list whose [connect_ex] returned 0; the connection attempts are a
    sub-list of the port list, one per entry at most, so a list without
    repeats (as the probe's own lists are) has no port attempted twice. *)
Theorem socket_scan_open_only_on_connect (net : network) (ports : list Z) :
  (forall r, r ∈ fst (_perform_socket_scan net ports) ->
     exists port log,
       p_port r = Some port /\ p_state r = Some "open" /\ In port ports
       /\ create_socket net log port = Ok tt /\ connect_ex net log port = Ok 0)
  /\ (forall port, (forall log, connect_ex net log port <> Ok 0) ->
        forall r, r ∈ fst (_perform_socket_scan net ports) -> p_port r <> Some port)
  /\ sublist (snd (_perform_socket_scan net ports)) ports
  /\ (NoDup ports -> NoDup (snd (_perform_socket_scan net ports)))
  /\ (forall self, NoDup (_get_scan_ports self)).
Proof.
  unfold _perform_socket_scan.
  pose proof (executor_map_open net ports []) as Hopen.
  destruct (executor_map_log net ports []) as (att & Hatt & Hsub).
  destruct (executor_map net [] ports) as [results log]. cbn [fst snd] in *. subst log.
  assert (Hrec : forall r, r ∈ omap id results ->
            exists port log,
              p_port r = Some port /\ p_state r = Some "open" /\ In port ports
              /\ create_socket net log port = Ok tt /\ connect_ex net log port = Ok 0).
  { intros r Hr. apply Hopen. apply list_elem_of_omap in Hr as (x & Hx & Hid).
    unfold id in Hid. by subst x. }
  split; [exact Hrec|]. split; [|split; [done|split]].
  - intros port Hnever r Hr Hport.
    destruct (Hrec r Hr) as (port' & log & Hp & _ & _ & _ & Hc).
    rewrite Hport in Hp. injection Hp as <-. by apply (Hnever log).
  - intros Hnd. by eapply sublist_NoDup.
  - apply _get_scan_ports_nodup.
Qed.

(** ** The order of the problem list, and scenarios *)

Lemma key_lt_irrefl (k : Z * string) : key_lt k k = false.
Proof.
  unfold key_lt. rewrite Z.eqb_refl. unfold String.ltb. by rewrite string_compare_refl.
Qed.

(** Equal keys keep their input order: the sort is stable. *)
Lemma insert_by_filter_key {A} (key : A -> Z * string) (k : Z * string) (x : A) (l : list A) :
  filter (fun y => key y = k) (insert_by key x l) = filter (fun y => key y = k) (x :: l).
Proof.
  induction l as [|y l IH]; cbn [insert_by]; [done|].
  destruct (key_lt (key y) (key x)) eqn:E; [|done].
  rewrite (filter_cons _ y), IH, !filter_cons.
  destruct (decide (key y = k)) as [Hy|Hy]; [|done].
  destruct (decide (key x = k)) as [Hx|Hx]; [|done].
  rewrite Hy, Hx, key_lt_irrefl in E. done.
Qed.

Lemma sorted_filter_key {A} (key : A -> Z * string) (k : Z * string) (l : list A) :
  filter (fun y => key y = k) (sorted key l) = filter (fun y => key y = k) l.
Proof.
  induction l as [|x l IH]; cbn [sorted]; [done|].
  by rewrite insert_by_filter_key, !filter_cons, IH.
Qed.

(** C8. The prioritized list is the input list reordered: ascending in
    severity rank (critical, high, medium, low) and, within a rank, in
    category name; problems with equal keys keep their input order, so the
    output is a function of the input; a list already in order is returned
    unchanged, and so sorting twice is sorting once. *)
Theorem prioritize_problems_sorted (problems : list problem) :
  StronglySorted problem_le (_prioritize_problems problems)
  /\ Permutation problems (_prioritize_problems problems)
  /\ (forall k, filter (fun p => problem_key p = k) (_prioritize_problems problems)
                = filter (fun p => problem_key p = k) problems)
  /\ (Sorted problem_le problems -> _prioritize_problems problems = problems)
  /\ _prioritize_problems (_prioritize_problems problems) = _prioritize_problems problems
  /\ severity_order "critical" < severity_order "high" < severity_order "medium"
     /\ severity_order "medium" < severity_order "low".
Proof.
  split; [apply prioritize_sorted|]. split; [apply sorted_perm|].
  split; [intros k; apply sorted_filter_key|]. split; [apply sorted_fixpoint|].
  split; [|by vm_compute].
  apply sorted_fixpoint, StronglySorted_Sorted, prioritize_sorted.
Qed.

Lemma failed_category_contribution_witness :
  exists st,
    process_category (<["email_security" := email_failed_entry]> (clean_scan 100 true))
                     initial_state ("email_security", 10) = Ok st
    /\ category_scores st !! "email_security" = Some (PFloat (b64_of_Z 8))
    /\ total_score st = PFloat (b64_of_Z 98).
Proof.
  destruct (failed_category_contribution
              (<["email_security" := email_failed_entry]> (clean_scan 100 true))
              initial_state "email_security" 10 email_failed_entry)
    as (_ & _ & Hstep & _).
  - simpl. tauto.
  - reflexivity.
  - discriminate.
  - rewrite Hstep. eexists. split; [reflexivity|]. split; vm_compute; reflexivity.
Defined.

Lemma missing_category_scored_as_failed_witness :
  exists st,
    process_category (delete "email_security" (clean_scan 100 true))
                     initial_state ("email_security", 10) = Ok st
    /\ category_scores st !! "email_security" = Some (PFloat (b64_of_Z 8))
    /\ total_score st = PFloat (b64_of_Z 98).
Proof.
  destruct (missing_category_scored_as_failed
              (delete "email_security" (clean_scan 100 true))
              initial_state "email_security" 10)
    as (Hstep & _).
  - simpl. tauto.
  - reflexivity.
  - rewrite Hstep. eexists. split; [reflexivity|]. split; vm_compute; reflexivity.
Defined.

(** The scenario of one failed category: email authentication fails, the
    other seven are clean; the score is 98 and one category is failed. *)
Example one_failed_category_scores_98 :
  exists recommendations summary,
    calculate_score (<["email_security" := email_failed_entry]> (clean_scan 100 true))
      = Ok (98, [], recommendations, summary)
    /\ categories_failed summary = 1.
Proof. eexists _, _. split; vm_compute; reflexivity. Qed.

(** With no entry at all every category is failed: the score is 80. *)
Example empty_map_scores_80 :
  exists summary, calculate_score ∅ = Ok (80, [], [], summary)
                  /\ categories_failed summary = 8.
Proof. eexists. split; vm_compute; reflexivity. Qed.

(** ** Recommendations *)

(** The loop of [_consolidate_recommendations], from any point on: the set
    of seen texts stays the set of the texts kept, no text is kept twice,
    what is added is a sub-list of what is read, and an added entry is the
    first of what is read with its text, which was not seen before. *)
Lemma consolidate_loop (l : list recommendation_entry) (seen : gset string)
    (unique : list recommendation_entry) :
  (forall t, t ∈ seen <-> t ∈ map recommendation unique) ->
  NoDup (map recommendation unique) ->
  exists seen' added,
    fold_left
      (fun (acc : gset string * list recommendation_entry) (rec : recommendation_entry) =>
         let '(seen_recommendations, unique_recommendations) := acc in
         if decide (recommendation rec ∈ seen_recommendations) then acc
         else (seen_recommendations ∪ {[ recommendation rec ]},
               unique_recommendations ++ [rec]))
      l (seen, unique) = (seen', unique ++ added)
    /\ (forall t, t ∈ seen' <-> t ∈ map recommendation (unique ++ added))
    /\ NoDup (map recommendation (unique ++ added))
    /\ sublist added l
    /\ (forall r, r ∈ l -> recommendation r ∈ seen')
    /\ (forall t, t ∈ seen -> t ∈ seen')
    /\ (forall r, r ∈ added -> (recommendation r ∉ seen) /\ first_with_text l r = Some r).
Proof.
  revert seen unique. induction l as [|r l IH]; intros seen unique Hseen Hnd; cbn [fold_left].
  - exists seen, []. rewrite app_nil_r.
    split; [done|]. split; [exact Hseen|]. split; [done|]. split; [constructor|].
    split; [intros r Hr; by apply elem_of_nil in Hr|]. split; [done|].
    intros r Hr. by apply elem_of_nil in Hr.
  - destruct (decide (recommendation r ∈ seen)) as [Hin|Hnin].
    + destruct (IH seen unique Hseen Hnd)
        as (seen' & added & Hf & Hs & Hn & Hsub & Hall & Hmono & Hfirst).
      exists seen', added. split; [done|]. split; [done|]. split; [done|].
      split; [by constructor|]. split; [|split; [done|]].
      * intros r' Hr'. apply elem_of_cons in Hr' as [->|Hr']; auto.
      * intros r' Hr'. destruct (Hfirst r' Hr') as [Hns Hfind]. split; [done|].
        unfold first_with_text in *. cbn [List.find].
        destruct (String.eqb_spec (recommendation r) (recommendation r')) as [Heq|_]; [|done].
        rewrite Heq in Hin. done.
    + destruct (IH (seen ∪ {[recommendation r]}) (unique ++ [r]))
        as (seen' & added & Hf & Hs & Hn & Hsub & Hall & Hmono & Hfirst).
      { intros t. rewrite map_app, elem_of_app, elem_of_union, Hseen. simpl.
        by rewrite elem_of_singleton, list_elem_of_singleton. }
      { rewrite map_app. apply NoDup_app. split; [done|]. split.
        - intros t Ht. rewrite <- Hseen in Ht. simpl.
          rewrite list_elem_of_singleton. by intros ->.
        - simpl. apply NoDup_singleton. }
      rewrite <- app_assoc in *. simpl in *.
      exists seen', (r :: added). split; [done|]. split; [done|]. split; [done|].
      split; [by constructor|]. split; [|split].
      * intros r' Hr'. apply elem_of_cons in Hr' as [->|Hr']; [|auto].
        apply Hmono, elem_of_union. right. by apply elem_of_singleton.
      * intros t Ht. apply Hmono, elem_of_union. by left.
      * intros r' Hr'. unfold first_with_text in *. cbn [List.find].
        apply elem_of_cons in Hr' as [->|Hr'].
        { split; [done|]. by rewrite String.eqb_refl. }
        destruct (Hfirst r' Hr') as [Hns Hfind].
        apply not_elem_of_union in Hns as [Hns Hne].
        split; [done|].
        destruct (String.eqb_spec (recommendation r) (recommendation r')) as [Heq|_]; [|done].
        rewrite Heq in Hne. by apply not_elem_of_singleton in Hne.
Qed.

Lemma empty_seen_nil (t : string) :
  t ∈ (∅ : gset string) <-> t ∈ map recommendation [].
Proof.
  split; intros H; [by apply elem_of_empty in H|by apply elem_of_nil in H].
Qed.

Lemma sublist_full {A} (l1 l2 : list A) :
  sublist l1 l2 -> (length l2 <= length l1)%nat -> l1 = l2.
Proof.
  induction 1 as [|x l1 l2 Hs IH|x l1 l2 Hs IH]; simpl; intros Hlen; [done| |].
  - f_equal. apply IH. lia.
  - apply sublist_length in Hs. lia.
Qed.

Lemma consolidate_nodup_id (l : list recommendation_entry) :
  NoDup (map recommendation l) -> _consolidate_recommendations l = l.
Proof.
  intros Hnd. unfold _consolidate_recommendations. cbv zeta.
  destruct (consolidate_loop l ∅ []) as (seen' & added & Hf & Hs & Hn & Hsub & Hall & _);
    [apply empty_seen_nil|constructor|].
  rewrite Hf. simpl in *.
  apply sublist_full; [done|].
  rewrite <- (length_map recommendation added), <- (length_map recommendation l).
  apply submseteq_length, NoDup_submseteq; [done|].
  intros t Ht. apply list_elem_of_fmap in Ht as (r & -> & Hr).
  apply Hs. by apply Hall.
Qed.


(** ** The summary *)

Lemma count_severity_cons (s : string) (p : problem) (ps : list problem) :
  count_severity s (p :: ps)
  = (if decide (severity p = s) then 1 else 0) + count_severity s ps.
Proof.
  unfold count_severity. rewrite filter_cons. destruct (decide (severity p = s)); simpl; lia.
Qed.

Lemma severity_counts_sum (ps : list problem) :
  0 <= count_severity "critical" ps /\ 0 <= count_severity "high" ps
  /\ 0 <= count_severity "medium" ps /\ 0 <= count_severity "low" ps
  /\ count_severity "critical" ps + count_severity "high" ps
     + count_severity "medium" ps + count_severity "low" ps <= Z.of_nat (length ps)
  /\ (Forall counted_severity ps ->
        count_severity "critical" ps + count_severity "high" ps
        + count_severity "medium" ps + count_severity "low" ps = Z.of_nat (length ps)).
Proof.
  induction ps as [|p ps IH].
  - repeat split; try done. 
  - rewrite !count_severity_cons.
    destruct IH as (H1 & H2 & H3 & H4 & Hle & Heq).
    assert (Hlen : Z.of_nat (length (p :: ps)) = 1 + Z.of_nat (length ps))
      by (simpl length; lia).
    rewrite Hlen.
    repeat split; try (repeat case_decide; lia).
    + repeat case_decide; try lia; congruence.
    + intros Hall. apply Forall_cons in Hall as [Hp Hall]. specialize (Heq Hall).
      unfold counted_severity in Hp.
      repeat case_decide; try lia; try congruence; intuition congruence.
Qed.

(** X2. [_generate_summary]: eight categories scanned, split into completed and
    failed; the issue total is the length of the problem list and bounds
    the four severity counts, which add up to it when every severity is one
    of the four. With no key besides the eight categories, the failed count
    lies between 0 and 8. *)
Theorem generate_summary_counts (scan_results : category_map)
    (scores : gmap string pynum) (problems : list problem) :
  categories_scanned (_generate_summary scan_results scores problems) = 8
  /\ categories_completed (_generate_summary scan_results scores problems)
     + categories_failed (_generate_summary scan_results scores problems) = 8
  /\ 0 <= categories_completed (_generate_summary scan_results scores problems)
          <= Z.of_nat (size scan_results)
  /\ (only_scheduled scan_results ->
      0 <= categories_failed (_generate_summary scan_results scores problems) <= 8)
  /\ total_issues_found (_generate_summary scan_results scores problems)
     = Z.of_nat (length problems)
  /\ critical_issues (_generate_summary scan_results scores problems)
     + high_issues (_generate_summary scan_results scores problems)
     + medium_issues (_generate_summary scan_results scores problems)
     + low_issues (_generate_summary scan_results scores problems)
     <= Z.of_nat (length problems)
  /\ (Forall counted_severity problems ->
      critical_issues (_generate_summary scan_results scores problems)
      + high_issues (_generate_summary scan_results scores problems)
      + medium_issues (_generate_summary scan_results scores problems)
      + low_issues (_generate_summary scan_results scores problems)
      = Z.of_nat (length problems)).
Proof.
  unfold _generate_summary. cbn [categories_scanned categories_completed categories_failed
    total_issues_found critical_issues high_issues medium_issues low_issues].
  set (P := fun kv : string * category_result => is_completed kv.2 = true).
  assert (Hsize : (size (filter P scan_results) <= size scan_results)%nat)
    by (apply map_subseteq_size, map_filter_subseteq).
  destruct (severity_counts_sum problems) as (_ & _ & _ & _ & Hle & Heq).
  change (Z.of_nat (length category_weights)) with 8.
  split; [done|]. split; [lia|]. split; [lia|]. split; [|split; [done|split; done]].
  intros Hdom. unfold only_scheduled in Hdom.
  assert (size scan_results <= 8)%nat; [|lia].
  rewrite <- size_dom. change 8%nat with (size scheduled).
  by apply subseteq_size.
Qed.

(** ** The merged problem list *)

Ltac problems_invariant P :=
  match goal with
  | |- context [fold_left ?f ?l (fold_left ?g ?k (fold_left ?h ?j ?a))] =>
      pose proof (fold_left_invariant (fun acc : loop_acc => Forall P (fst acc)) f l
                    (fold_left g k (fold_left h j a))) as Hinv;
      pose proof (fold_left_invariant (fun acc : loop_acc => Forall P (fst acc)) g k
                    (fold_left h j a)) as Hinv';
      pose proof (fold_left_invariant (fun acc : loop_acc => Forall P (fst acc)) h j a)
        as Hinv'';
      destruct (fold_left f l (fold_left g k (fold_left h j a))) as [ps d]
  | |- context [fold_left ?f ?l (fold_left ?g ?k ?a)] =>
      pose proof (fold_left_invariant (fun acc : loop_acc => Forall P (fst acc)) f l
                    (fold_left g k a)) as Hinv;
      pose proof (fold_left_invariant (fun acc : loop_acc => Forall P (fst acc)) g k a)
        as Hinv';
      destruct (fold_left f l (fold_left g k a)) as [ps d]
  | |- context [fold_left ?f ?l ?a] =>
      pose proof (fold_left_invariant (fun acc : loop_acc => Forall P (fst acc)) f l a)
        as Hinv;
      destruct (fold_left f l a) as [ps d]
  end.

Ltac step_keeps :=
  let ps := fresh "ps" in let d := fresh "d" in let x := fresh "x" in let H := fresh "H" in
  intros [ps d] x H; simpl in *; repeat case_match; simpl; try done;
  repeat (apply Forall_app; split; [|by repeat constructor]); done.

Lemma _score_internet_exposure_category (r : category_result) (w : Z) :
  Forall (fun p => category p = "internet_exposure")
         (problems_of (_score_internet_exposure r w)).
Proof.
  unfold _score_internet_exposure, problems_of.
  problems_invariant (fun p => category p = "internet_exposure").
  simpl in *. apply Hinv; [step_keeps|constructor].
Qed.

Lemma _score_tls_security_category (r : category_result) (w : Z) :
  Forall (fun p => category p = "tls_security") (problems_of (_score_tls_security r w)).
Proof.
  unfold _score_tls_security, problems_of.
  problems_invariant (fun p => category p = "tls_security").
  simpl in *. apply Hinv; [step_keeps|].
  repeat case_match; simpl; repeat constructor.
Qed.

Lemma _score_email_security_category (r : category_result) (w : Z) :
  Forall (fun p => category p = "email_security")
         (problems_of (_score_email_security r w)).
Proof.
  unfold _score_email_security, problems_of.
  problems_invariant (fun p => category p = "email_security").
  simpl in *. apply Hinv; [step_keeps|].
  repeat case_match; simpl; repeat constructor.
Qed.

Lemma _score_iam_assessment_category (r : category_result) (w : Z) :
  Forall (fun p => category p = "iam_assessment")
         (problems_of (_score_iam_assessment r w)).
Proof.
  unfold _score_iam_assessment, problems_of.
  problems_invariant (fun p => category p = "iam_assessment").
  simpl in *. apply Hinv; [step_keeps|]. apply Hinv'; [step_keeps|constructor].
Qed.

Lemma _score_backup_dr_category (r : category_result) (w : Z) :
  Forall (fun p => category p = "backup_dr") (problems_of (_score_backup_dr r w)).
Proof.
  unfold _score_backup_dr, problems_of.
  problems_invariant (fun p => category p = "backup_dr").
  simpl in *. apply Hinv; [step_keeps|]. apply Hinv'; [step_keeps|].
  apply Hinv''; [step_keeps|constructor].
Qed.

Lemma _score_security_monitoring_category (r : category_result) (w : Z) :
  Forall (fun p => category p = "logging_monitoring")
         (problems_of (_score_security_monitoring r w)).
Proof.
  unfold _score_security_monitoring, problems_of.
  repeat case_match; simpl; repeat constructor.
Qed.

Lemma _score_web_security_category (r : category_result) (w : Z) (x : scored) :
  _score_web_security r w = Ok x ->
  Forall (fun p => category p = "web_security") (problems_of x).
Proof.
  unfold _score_web_security. intros H.
  apply bind_ok in H as (pct & _ & H). apply bind_ok in H as (sc & _ & H).
  apply bind_ok in H as (b & _ & H). injection H as <-. unfold problems_of. simpl.
  apply Forall_app. split.
  - apply Forall_forall. intros p Hp. apply list_elem_of_In, in_flat_map in Hp as (h & _ & Hp).
    case_match; [|done]. by destruct Hp as [<-|[]].
  - apply Forall_forall. intros p Hp. apply list_elem_of_In, in_map_iff in Hp as (v & <- & _).
    done.
Qed.

Lemma _score_vulnerabilities_category (r : category_result) (w : Z) (x : scored) :
  _score_vulnerabilities r w = Ok x ->
  Forall (fun p => category p = "vulnerabilities") (problems_of x).
Proof.
  unfold _score_vulnerabilities. intros H.
  apply bind_ok in H as (lp & _ & H). apply bind_ok in H as (d & _ & H).
  apply bind_ok in H as (n & _ & H). injection H as <-. unfold problems_of. simpl.
  apply Forall_forall. intros p Hp. apply list_elem_of_In, in_map_iff in Hp as (v & <- & _).
  done.
Qed.

(** Every problem a weighted category's scorer reports carries that
    category's name. *)
Lemma _score_category_problems (c : string) (w : Z) (r : category_result) (x : scored) :
  In (c, w) category_weights -> _score_category c r w = Ok x ->
  Forall (fun p => category p = c) (problems_of x).
Proof.
  intros Hin. each_category Hin; unfold _score_category;
    cbn [String.eqb Ascii.eqb Bool.eqb]; intros H; try (injection H as <-).
  - apply _score_internet_exposure_category.
  - apply _score_tls_security_category.
  - by eapply _score_web_security_category.
  - apply _score_email_security_category.
  - by eapply _score_vulnerabilities_category.
  - apply _score_iam_assessment_category.
  - apply _score_backup_dr_category.
  - apply _score_security_monitoring_category.
Qed.

Lemma process_category_problems (m : category_map) (st st' : engine_state)
    (item : string * Z) :
  process_category m st item = Ok st' ->
  all_problems st' = all_problems st ++ category_problems m item.
Proof.
  destruct item as [c w]. unfold process_category, category_problems. cbn [fst snd].
  destruct (is_completed _).
  - destruct (_score_category c _ w) as [[[s ps] rs]|e]; [|done].
    cbn [mbind outcome_mbind outcome_bind]. intros H.
    apply bind_ok in H as (d & _ & H). apply bind_ok in H as (t & _ & H).
    by injection H as <-.
  - intros H. apply bind_ok in H as (fs & _ & H). apply bind_ok in H as (p & _ & H).
    apply bind_ok in H as (t & _ & H). injection H as <-. simpl. by rewrite app_nil_r.
Qed.

Lemma for_each_problems (m : category_map) (l : list (string * Z)) (st st' : engine_state) :
  for_each (process_category m) l st = Ok st' ->
  all_problems st' = all_problems st ++ flat_map (category_problems m) l.
Proof.
  revert st. induction l as [|item l IH]; cbn [for_each flat_map]; intros st H.
  - injection H as <-. by rewrite app_nil_r.
  - apply bind_ok in H as (st1 & H1 & H). rewrite (IH st1 H).
    rewrite (process_category_problems m st st1 item H1). by rewrite <- app_assoc.
Qed.

(** X3. The problem list of the report is the stable sort of the problems of
    the completed categories, taken in the order of the weight table; it
    holds nothing else, each problem carries the name of a weighted
    category, and the summary's issue total is its length. *)
Theorem calculate_score_problems (scan_results : category_map) (score : Z)
    (problems : list problem) (recommendations : list recommendation_entry)
    (summary : summary_info) :
  calculate_score scan_results = Ok (score, problems, recommendations, summary) ->
  problems = _prioritize_problems (flat_map (category_problems scan_results) category_weights)
  /\ Permutation (flat_map (category_problems scan_results) category_weights) problems
  /\ Forall (fun p => In (category p) (map fst category_weights)) problems
  /\ total_issues_found summary = Z.of_nat (length problems).
Proof.
  intros H. unfold calculate_score in H.
  apply bind_ok in H as (st & Hst & H). apply bind_ok in H as (n & _ & H).
  injection H as _ <- _ <-.
  pose proof (for_each_problems scan_results category_weights initial_state st Hst) as Hp.
  change (all_problems initial_state) with (@nil problem) in Hp.
  rewrite app_nil_l in Hp. rewrite Hp.
  split; [done|]. split; [apply sorted_perm|]. split; [|done].
  eapply Permutation_Forall; [apply sorted_perm|].
  apply Forall_forall. intros p Hin.
  apply list_elem_of_In, in_flat_map in Hin as ([c w] & Hcw & Hin).
  unfold category_problems in Hin. cbn [fst snd] in Hin.
  destruct (is_completed _); [|done].
  destruct (_score_category c _ w) as [x|e] eqn:Hs; [|done].
  pose proof (_score_category_problems c w _ x Hcw Hs) as Hall.
  rewrite Forall_forall in Hall. rewrite (Hall p) by (by apply list_elem_of_In).
  apply in_map_iff. by exists (c, w).
Qed.

Lemma calculate_score_problems_witness :
  match calculate_score {[ "tls_security" := tls10_entry ]} with
  | Ok (score, problems, recommendations, summary) =>
      problems
      = _prioritize_problems
          (flat_map (category_problems {[ "tls_security" := tls10_entry ]}) category_weights)
      /\ length problems = 2%nat
      /\ total_issues_found summary = Z.of_nat (length problems)
  | Raise _ => False
  end.
Proof.
  destruct (calculate_score {[ "tls_security" := tls10_entry ]})
    as [[[[score problems] recommendations] summary]|e] eqn:H.
  - destruct (calculate_score_problems _ score problems recommendations summary H)
      as (Hp & _ & _ & Ht).
    split; [exact Hp|]. split; [|exact Ht].
    vm_compute in H. injection H as _ <- _ _. reflexivity.
  - vm_compute in H. discriminate H.
Defined.

(** ** The score of the open ports *)

Lemma count_where_cons {A} (f : A -> bool) (x : A) (l : list A) :
  count_where f (x :: l) = (if f x then 1 else 0) + count_where f l.
Proof. unfold count_where. simpl. destruct (f x); simpl length; lia. Qed.

Lemma count_where_nonneg {A} (f : A -> bool) (l : list A) : 0 <= count_where f l.
Proof. unfold count_where. lia. Qed.

Lemma high_risk_not_http (p : port_info) :
  high_risk_port p = true -> plain_http_port p = false.
Proof.
  unfold high_risk_port, plain_http_port, port_in, int_in. destruct (p_port p) as [n|]; [|done].
  simpl. rewrite !orb_false_r, !orb_true_iff, !Z.eqb_eq. intros H.
  apply orb_false_iff. rewrite !Z.eqb_neq. lia.
Qed.

(** X4. [_score_internet_exposure]: 4 points for every entry on a high-risk
    port, 2 for every entry on port 80 or 8080 unless some entry is on port
    443, one problem for each of these entries and for no other, clamped
    at zero. *)
Theorem _score_internet_exposure_formula (r : category_result) (w : Z) :
  score_of (_score_internet_exposure r w)
  = Z.max 0 (w - 4 * count_where high_risk_port (get_or (open_ports r) [])
               - (if https_open (get_or (open_ports r) []) then 0
                  else 2 * count_where plain_http_port (get_or (open_ports r) [])))
  /\ Z.of_nat (length (problems_of (_score_internet_exposure r w)))
     = count_where high_risk_port (get_or (open_ports r) [])
       + (if https_open (get_or (open_ports r) []) then 0
          else count_where plain_http_port (get_or (open_ports r) []))
  /\ Forall (fun p => severity p = "high" \/ severity p = "medium")
            (problems_of (_score_internet_exposure r w)).
Proof.
  unfold _score_internet_exposure, score_of, problems_of. cbv zeta.
  fold (https_open (get_or (open_ports r) [])).
  set (https := https_open (get_or (open_ports r) [])).
  set (l := get_or (open_ports r) []). clearbody https l.
  match goal with |- context [fold_left ?f l ([], 0)] => set (step := f) end.
  assert (Hgen : forall l ps d,
            exists ps', fold_left step l (ps, d)
                        = (ps ++ ps',
                           d + 4 * count_where high_risk_port l
                             + (if https then 0 else 2 * count_where plain_http_port l))
                        /\ Z.of_nat (length ps')
                           = count_where high_risk_port l
                             + (if https then 0 else count_where plain_http_port l)
                        /\ Forall (fun p => severity p = "high" \/ severity p = "medium") ps').
  { clear l. induction l as [|p l IH]; intros ps d; cbn [fold_left].
    - exists []. rewrite app_nil_r. unfold count_where. simpl.
      split; [f_equal; destruct https; lia|]. split; [by destruct https|constructor].
    - rewrite !count_where_cons.
      pose proof (high_risk_not_http p) as Hexcl.
      unfold step at 2. unfold high_risk_port, plain_http_port, port_in in *.
      destruct (p_port p) as [n|].
      + destruct (int_in n [21; 23; 135; 139; 445; 1433; 3389]) eqn:Hh.
        * rewrite (Hexcl eq_refl).
          edestruct IH as (ps' & -> & Hlen & Hall). eexists (_ :: ps').
          rewrite <- app_assoc. split; [simpl; f_equal; destruct https; lia|].
          split; [simpl length; destruct https; lia|]. constructor; [by left|done].
        * destruct (int_in n [80; 8080]) eqn:Hp; destruct https; cbn [andb negb].
          -- edestruct IH as (ps' & -> & Hlen & Hall). exists ps'.
             split; [f_equal; lia|]. split; [lia|done].
          -- edestruct IH as (ps' & -> & Hlen & Hall). eexists (_ :: ps').
             rewrite <- app_assoc. split; [simpl; f_equal; lia|].
             split; [simpl length; lia|]. constructor; [by right|done].
          -- edestruct IH as (ps' & -> & Hlen & Hall). exists ps'.
             split; [f_equal; lia|]. split; [lia|done].
          -- edestruct IH as (ps' & -> & Hlen & Hall). exists ps'.
             split; [f_equal; lia|]. split; [lia|done].
      + edestruct IH as (ps' & -> & Hlen & Hall). exists ps'.
        split; [f_equal; destruct https; lia|]. split; [destruct https; lia|done]. }
  destruct (Hgen l [] 0) as (ps' & -> & Hlen & Hall). cbn [fst snd app].
  split; [f_equal; destruct https; lia|]. split; done.
Qed.

(** ** The score of the TLS findings *)

Lemma tls_score_eq (r : category_result) (w : Z) :
  score_of (_score_tls_security r w)
  = Z.max 0 (w - (weak_version_points (get_or (tls_versions r) [])
                  + certificate_points (certificate r)
                  + sum_with tls_finding_points (get_or (vulnerabilities r) [])))
  /\ Z.of_nat (length (problems_of (_score_tls_security r w)))
     = made (weak_version_points (get_or (tls_versions r) []))
       + made (certificate_points (certificate r))
       + Z.of_nat (length (get_or (vulnerabilities r) [])).
Proof.
  unfold _score_tls_security, score_of, problems_of. cbv zeta.
  set (vs := get_or (vulnerabilities r) []). clearbody vs.
  match goal with |- context [fold_left ?f vs ?a] => set (step := f); set (acc := a) end.
  assert (Hgen : forall l ps d,
            exists ps', fold_left step l (ps, d)
                        = (ps ++ ps', d + sum_with tls_finding_points l)
                        /\ length ps' = length l).
  { induction l as [|v l IH]; intros ps d; cbn [fold_left].
    - exists []. rewrite app_nil_r. unfold sum_with. simpl. split; [f_equal; lia|done].
    - unfold step at 2. cbv beta iota.
      edestruct IH as (ps' & -> & Hlen). eexists (_ :: ps').
      rewrite <- app_assoc. split; [|simpl; by rewrite Hlen].
      change (sum_with tls_finding_points (v :: l))
        with (tls_finding_points v + sum_with tls_finding_points l).
      generalize (sum_with tls_finding_points l). intros rest.
      cbn [app]. f_equal. unfold tls_finding_points. repeat case_match; lia. }
  assert (Hacc : snd acc = weak_version_points (get_or (tls_versions r) [])
                           + certificate_points (certificate r)
                 /\ Z.of_nat (length (fst acc))
                    = made (weak_version_points (get_or (tls_versions r) []))
                      + made (certificate_points (certificate r))).
  { unfold acc, weak_version_points, certificate_points.
    destruct (str_in "TLSv1.0" _ || str_in "TLSv1.1" _);
      destruct (certificate r) as [cert|]; cbn [fst snd];
      repeat case_match; simpl; split; reflexivity. }
  destruct acc as [ps0 d0]. cbn [fst snd] in Hacc. destruct Hacc as [-> Hlen0].
  edestruct (Hgen vs ps0) as (ps' & Heq & Hlen). rewrite Heq. cbn [fst snd].
  split; [f_equal; lia|]. rewrite length_app, Nat2Z.inj_add, Hlen0, Hlen. done.
Qed.

(** X5. [_score_tls_security]: the deductions for an outdated version, for the
    certificate and for each finding add up, one problem is reported per
    deduction source and per finding, and the score is clamped at zero. *)
Theorem _score_tls_security_formula (r : category_result) (w : Z) :
  score_of (_score_tls_security r w)
  = Z.max 0 (w - (weak_version_points (get_or (tls_versions r) [])
                  + certificate_points (certificate r)
                  + sum_with tls_finding_points (get_or (vulnerabilities r) [])))
  /\ Z.of_nat (length (problems_of (_score_tls_security r w)))
     = made (weak_version_points (get_or (tls_versions r) []))
       + made (certificate_points (certificate r))
       + Z.of_nat (length (get_or (vulnerabilities r) [])).
Proof. exact (tls_score_eq r w). Qed.

(** ** The score of the web entry *)

(** X6. [_score_web_security]: the score is [int(max_weight * security_score /
    100)] whatever the entry reports as missing headers or
    vulnerabilities; these only add problems, one per missing HSTS or CSP
    header and one per vulnerability. *)
Theorem _score_web_security_ignores_findings (r : category_result) (w : Z) :
  match _score_web_security r w with
  | Ok x =>
      web_base_score (get_or (security_score r) 0) w = Ok (score_of x)
      /\ Z.of_nat (length (problems_of x))
         = count_where (fun h => str_in h ["HSTS"; "CSP"]) (get_or (missing_headers r) [])
           + Z.of_nat (length (get_or (vulnerabilities r) []))
  | Raise e => web_base_score (get_or (security_score r) 0) w = Raise e
  end.
Proof.
  unfold _score_web_security, web_base_score. cbv zeta.
  destruct (int_truediv _ 100) as [pct|e]; cbn [mbind outcome_mbind outcome_bind];
    try reflexivity.
  destruct (py_mul _ _) as [scaled|e]; cbn [mbind outcome_mbind outcome_bind];
    try reflexivity.
  destruct (py_int scaled) as [b|e]; cbn [mbind outcome_mbind outcome_bind];
    [|reflexivity].
  split; [reflexivity|]. unfold problems_of. cbn [fst snd].
  rewrite length_app, length_map, Nat2Z.inj_add. f_equal.
  unfold count_where. f_equal.
  induction (get_or (missing_headers r) []) as [|h l IH]; [done|].
  cbn [flat_map List.filter]. rewrite length_app, IH.
  destruct (str_in h ["HSTS"; "CSP"]); reflexivity.
Qed.

(** ** Failure results and payloads *)

(** X7. Every failure shape has status failed, a note that is not empty and
    no payload, and the scoring loop takes it as a failed category: the
    score [weight * 0.8], the penalty [weight * 0.2], no problem. *)
Theorem failure_results_scored_as_failed (r : category_result) (scan_results : category_map)
    (st : engine_state) (c : string) (w : Z) :
  failure_result r ->
  status r = Some "failed"
  /\ (exists n, note r = Some n /\ n <> "")
  /\ no_payload r
  /\ (In (c, w) category_weights -> scan_results !! c = Some r ->
      process_category scan_results st (c, w) =
        (total ← py_sub (total_score st) (failed_penalty w);
         Ok (mkState total (all_problems st) (all_recommendations st)
                     (<[c := failed_score w]> (category_scores st))))).
Proof.
  intros Hr.
  assert (Hs : status r = Some "failed").
  { destruct Hr; try reflexivity.
    unfold handle_network_error, create_result. repeat case_match; reflexivity. }
  split; [done|]. split; [|split].
  - destruct Hr; try (eexists; split; [reflexivity|discriminate]).
    unfold handle_network_error, create_result.
    destruct error as [err|]; [destruct (String.eqb err "")|];
      (eexists; split; [reflexivity|discriminate]).
  - destruct Hr; try (repeat split; reflexivity).
    unfold handle_network_error, create_result. repeat case_match; repeat split; reflexivity.
  - intros Hin Hl. apply process_category_not_completed; [done|].
    rewrite Hl. change (default empty_result (Some r)) with r.
    apply is_completed_false. rewrite Hs. discriminate.
Qed.

Lemma failure_results_scored_as_failed_witness :
  failure_result (handle_timeout quick_scanner "1.0 seconds" "TLS/SSL analysis")
  /\ status (handle_timeout quick_scanner "1.0 seconds" "TLS/SSL analysis") = Some "failed"
  /\ process_category
       {[ "tls_security" := handle_timeout quick_scanner "1.0 seconds" "TLS/SSL analysis" ]}
       initial_state ("tls_security", 15)
     = (total ← py_sub (PInt 100) (failed_penalty 15);
        Ok (mkState total [] [] {[ "tls_security" := failed_score 15 ]})).
Proof.
  assert (H : failure_result (handle_timeout quick_scanner "1.0 seconds" "TLS/SSL analysis"))
    by constructor.
  split; [exact H|].
  destruct (failure_results_scored_as_failed _
              {[ "tls_security" := handle_timeout quick_scanner "1.0 seconds"
                                     "TLS/SSL analysis" ]}
              initial_state "tls_security" 15 H) as (Hs & _ & _ & Hp).
  split; [exact Hs|]. apply Hp; [simpl; tauto|reflexivity].
Defined.

Lemma option_match_id {A} (o : option A) :
  match o with Some a => Some a | None => None end = o.
Proof. by destruct o. Qed.

(** X8. [create_result] around a payload [data] that holds no status, duration
    or note of its own: the result carries the given status and every key
    of the payload unchanged, so each scorer sees the payload as the
    scanner built it. *)
Theorem create_result_keeps_payload (self : base_scanner) (elapsed status' : string)
    (data : category_result) (c : string) (w : Z) :
  status data = None -> scan_duration data = None -> note data = None ->
  status (create_result self elapsed status' (Some data) None) = Some status'
  /\ scan_duration (create_result self elapsed status' (Some data) None)
     = get_scan_duration self elapsed
  /\ note (create_result self elapsed status' (Some data) None) = None
  /\ create_result self elapsed status' (Some data) None
     = dict_update data (status_entry status' (get_scan_duration self elapsed))
  /\ _score_category c (create_result self elapsed status' (Some data) None) w
     = _score_category c data w.
Proof.
  intros Hs Hd Hn. destruct data. simpl in Hs, Hd, Hn. subst.
  unfold create_result, dict_update, status_entry. cbn.
  rewrite !option_match_id.
  repeat split; try (by destruct (started self)).
Qed.

Lemma create_result_keeps_payload_witness :
  status (_test_tls_versions tls10_server 443 tls_initial_results) = None
  /\ status tls10_entry = Some "completed"
  /\ _score_category "tls_security" tls10_entry 15
     = _score_category "tls_security"
         (_test_tls_versions tls10_server 443 tls_initial_results) 15.
Proof.
  split; [reflexivity|].
  destruct (create_result_keeps_payload quick_scanner "1.0 seconds" "completed"
              (_test_tls_versions tls10_server 443 tls_initial_results)
              "tls_security" 15 eq_refl eq_refl eq_refl) as (Hs & _ & _ & _ & Hc).
  split; [exact Hs|exact Hc].
Defined.

(** ** Port lists *)

Lemma is_scannable_port_range (port : Z) :
  is_scannable_port port = true <-> 1 <= port <= 65535.
Proof.
  unfold is_scannable_port, int_in. simpl. rewrite orb_false_r.
  rewrite !andb_true_iff, negb_true_iff, Z.eqb_neq, !Z.leb_le. lia.
Qed.

Lemma common_ports_scannable : Forall (fun p => 1 <= p <= 65535) COMMON_PORTS.
Proof. unfold COMMON_PORTS. repeat constructor; lia. Qed.

(** X9. The port lists of every scan type hold only scannable ports: 14 ports for a quick or custom scan, ports 1 to 1000 for a
    full scan of the service-discovery probe and 1 to 1024 for
    [get_ports_to_scan]; and a port is scannable exactly when it lies
    between 1 and 65535, the restricted list adding nothing. *)
Theorem scan_ports_scannable (self : base_scanner) (default_ports : list Z) :
  (forall port, is_scannable_port port = true <-> 1 <= port <= 65535)
  /\ Forall (fun p => is_scannable_port p = true) (_get_scan_ports self)
  /\ (length (_get_scan_ports self) = 14%nat \/ length (_get_scan_ports self) = 1000%nat)
  /\ (scan_type self = "full" ->
      forall p, p ∈ _get_scan_ports self <-> 1 <= p <= 1000)
  /\ (scan_type self <> "full" -> _get_scan_ports self = COMMON_PORTS)
  /\ (Forall (fun p => is_scannable_port p = true) default_ports ->
      Forall (fun p => is_scannable_port p = true) (get_ports_to_scan self default_ports))
  /\ (scan_type self = "full" ->
      forall p, p ∈ get_ports_to_scan self default_ports <-> 1 <= p <= 1024).
Proof.
  assert (Hc : Forall (fun p => is_scannable_port p = true) COMMON_PORTS).
  { eapply Forall_impl; [apply common_ports_scannable|].
    intros p Hp. by apply is_scannable_port_range. }
  assert (Hseq : forall n, 0 <= n <= 65535 ->
            Forall (fun p => is_scannable_port p = true) (seqZ 1 n)).
  { intros n Hn. apply Forall_forall. intros p Hp. apply elem_of_seqZ in Hp.
    apply is_scannable_port_range. lia. }
  split; [apply is_scannable_port_range|].
  unfold _get_scan_ports, get_ports_to_scan, FULL_SCAN_PORTS.
  split; [|split; [|split; [|split; [|split]]]].
  - repeat case_match; try done. apply Hseq. lia.
  - repeat case_match; [left|right|left]; reflexivity.
  - intros ->. cbn [String.eqb Ascii.eqb Bool.eqb]. intros p. rewrite elem_of_seqZ. lia.
  - intros Hne. destruct (String.eqb_spec (scan_type self) "quick"); [done|].
    destruct (String.eqb_spec (scan_type self) "full"); done.
  - intros Hd. repeat case_match; try done. apply Hseq. lia.
  - intros ->. cbn [String.eqb Ascii.eqb Bool.eqb]. intros p. rewrite elem_of_seqZ. lia.
Qed.

(** ** TLS services *)

Lemma find_tls_loop_sublist (env : tls_env) (quick : bool) (ports : list Z) :
  sublist (find_tls_loop env quick ports) ports
  /\ Forall (fun p => _is_port_open_tls env p = true) (find_tls_loop env quick ports)
  /\ (quick = true -> (length (find_tls_loop env quick ports) <= 1)%nat)
  /\ (quick = false ->
      find_tls_loop env quick ports = List.filter (_is_port_open_tls env) ports)
  /\ (find_tls_loop env quick ports = [] <->
      Forall (fun p => _is_port_open_tls env p = false) ports).
Proof.
  induction ports as [|p ports IH]; cbn [find_tls_loop List.filter].
  - split; [constructor|]. split; [constructor|]. split; [simpl; lia|]. split; [done|].
    split; [constructor|done].
  - destruct IH as (Hsub & Hall & Hq & Hf & Hnil).
    destruct (_is_port_open_tls env p) eqn:Hp.
    + split; [destruct quick; constructor; [apply sublist_nil_l|done]|].
      split; [constructor; [done|destruct quick; [constructor|done]]|].
      split; [intros ->; simpl; lia|]. split; [intros ->; f_equal; by apply Hf|].
      split; [done|]. intros H. apply Forall_cons in H as [H _]. congruence.
    + split; [by constructor|]. split; [done|]. split; [done|]. split; [done|].
      rewrite Hnil. split; [by constructor|]. intros H. by apply Forall_cons in H as [_ H].
Qed.

Lemma find_tls_services_facts (env : tls_env) (self : base_scanner) :
  Forall (fun p => _is_port_open_tls env p = true) (_find_tls_services env self)
  /\ sublist (_find_tls_services env self) tls_ports
  /\ NoDup (_find_tls_services env self)
  /\ (scan_type self = "quick" ->
      _find_tls_services env self = if _is_port_open_tls env 443 then [443] else [])
  /\ (scan_type self <> "quick" ->
      _find_tls_services env self = List.filter (_is_port_open_tls env) tls_ports)
  /\ (scan_type self <> "quick" ->
      (_find_tls_services env self = [] <->
       Forall (fun p => _is_port_open_tls env p = false) tls_ports)).
Proof.
  unfold _find_tls_services, should_scan_quickly.
  destruct (String.eqb_spec (scan_type self) "quick") as [Hq|Hq]; cbn [negb].
  - destruct (find_tls_loop_sublist env true [443]) as (Hsub & Hall & _).
    assert (Hsub' : sublist (find_tls_loop env true [443]) tls_ports).
    { etransitivity; [exact Hsub|]. unfold tls_ports. by repeat constructor. }
    split; [done|]. split; [done|].
    split; [apply (sublist_NoDup _ tls_ports); [compute_done|exact Hsub']|].
    split; [|done]. intros _. cbn. by destruct (_is_port_open_tls env 443).
  - destruct (find_tls_loop_sublist env false tls_ports) as (Hsub & Hall & _ & Hf & Hnil).
    split; [done|]. split; [done|].
    split; [apply (sublist_NoDup _ tls_ports); [compute_done|exact Hsub]|].
    split; [done|]. split; [intros _; by apply Hf|done].
Qed.

(** X10. [_find_tls_services]: the services found are TLS-capable ports of the
    candidate list, in its order; a quick scan looks at port 443 only, a
    full scan returns every TLS-capable port of the eight; none is found
    exactly when no candidate is TLS-capable. *)
Theorem _find_tls_services_candidates (env : tls_env) (self : base_scanner) :
  Forall (fun p => _is_port_open_tls env p = true) (_find_tls_services env self)
  /\ sublist (_find_tls_services env self) tls_ports
  /\ NoDup (_find_tls_services env self)
  /\ (scan_type self = "quick" ->
      _find_tls_services env self = if _is_port_open_tls env 443 then [443] else [])
  /\ (scan_type self <> "quick" ->
      _find_tls_services env self = List.filter (_is_port_open_tls env) tls_ports)
  /\ (scan_type self <> "quick" ->
      (_find_tls_services env self = [] <->
       Forall (fun p => _is_port_open_tls env p = false) tls_ports)).
Proof. exact (find_tls_services_facts env self). Qed.




(** ** TLS versions *)

Lemma _test_tls_versions_eq (env : tls_env) (port : Z) (results : category_result) :
  tls_versions (_test_tls_versions env port results) = Some (supported_versions env port)
  /\ get_or (vulnerabilities (_test_tls_versions env port results)) []
     = get_or (vulnerabilities results) [] ++ weak_version_findings env port
  /\ certificate (_test_tls_versions env port results) = certificate results
  /\ status (_test_tls_versions env port results) = status results.
Proof.
  unfold _test_tls_versions, weak_version_findings, supported_versions.
  cbn [List.filter].
  destruct (is_ok (handshake env port "TLSv1.0"));
    destruct (is_ok (handshake env port "TLSv1.1"));
    destruct (is_ok (handshake env port "TLSv1.2"));
    destruct (is_ok (handshake env port "TLSv1.3"));
    destruct results; cbn; rewrite ?app_nil_r, <- ?app_assoc, ?option_match_id;
    repeat split; reflexivity.
Qed.

Lemma list_filter_sublist {A} (f : A -> bool) (l : list A) : sublist (List.filter f l) l.
Proof.
  induction l as [|a l IH]; simpl; [constructor|].
  destruct (f a); by constructor.
Qed.

(** X12. [_test_tls_versions]: [tls_versions] becomes the versions whose
    handshake succeeded, in candidate order; one finding is appended for
    each of TLSv1.0 and TLSv1.1 among them, always of severity medium
    (SSLv2 and SSLv3 are never tried, so the high severity is never used);
    the findings already there are kept. *)
Theorem _test_tls_versions_findings (env : tls_env) (port : Z) (results : category_result) :
  tls_versions (_test_tls_versions env port results) = Some (supported_versions env port)
  /\ sublist (supported_versions env port) ["TLSv1.0"; "TLSv1.1"; "TLSv1.2"; "TLSv1.3"]
  /\ get_or (vulnerabilities (_test_tls_versions env port results)) []
     = get_or (vulnerabilities results) [] ++ weak_version_findings env port
  /\ Forall (fun f => v_type f = Some "weak_tls_version" /\ v_severity f = Some "medium")
            (weak_version_findings env port)
  /\ Z.of_nat (length (weak_version_findings env port))
     = (if is_ok (handshake env port "TLSv1.0") then 1 else 0)
       + (if is_ok (handshake env port "TLSv1.1") then 1 else 0).
Proof.
  destruct (_test_tls_versions_eq env port results) as (Hv & Hf & _).
  split; [done|]. split; [apply list_filter_sublist|]. split; [done|].
  unfold weak_version_findings, supported_versions. cbn [List.filter].
  destruct (is_ok (handshake env port "TLSv1.0"));
    destruct (is_ok (handshake env port "TLSv1.1"));
    destruct (is_ok (handshake env port "TLSv1.2"));
    destruct (is_ok (handshake env port "TLSv1.3")); cbn;
    split; try reflexivity; repeat constructor.
Qed.

(** X13. Two analysed ports: the versions of the first are overwritten by those
    of the second, while the findings of both are kept. *)
Theorem _test_tls_versions_two_ports (env : tls_env) (p1 p2 : Z) (results : category_result) :
  tls_versions (_test_tls_versions env p2 (_test_tls_versions env p1 results))
  = Some (supported_versions env p2)
  /\ get_or (vulnerabilities (_test_tls_versions env p2 (_test_tls_versions env p1 results))) []
     = get_or (vulnerabilities results) []
         ++ weak_version_findings env p1 ++ weak_version_findings env p2.
Proof.
  destruct (_test_tls_versions_eq env p2 (_test_tls_versions env p1 results)) as (Hv & Hf & _).
  destruct (_test_tls_versions_eq env p1 results) as (_ & Hf1 & _).
  split; [done|]. rewrite Hf, Hf1. by rewrite <- app_assoc.
Qed.

(** ** The certificate *)

Lemma sum_with_app {A} (f : A -> Z) (l1 l2 : list A) :
  sum_with f (l1 ++ l2) = sum_with f l1 + sum_with f l2.
Proof.
  induction l1 as [|a l1 IH]; [done|].
  change (f a + sum_with f (l1 ++ l2) = f a + sum_with f l1 + sum_with f l2). lia.
Qed.

(** X14. [_get_certificate_info] and [_score_tls_security] together: the
    certificate is stored with its days and key size, the findings already
    there are kept, and one expiry is charged twice — by the probe's
    finding and by the scorer's look at the certificate: 11 points once
    expired, 4 points in the last 30 days; a key under 2048 bits costs 1
    point. A failed connection or parse changes nothing. *)
Theorem _get_certificate_info_scored (days key_size : Z) (results : category_result) (w : Z) :
  let scanned := TLSSteps._get_certificate_info (Ok (days, key_size)) results in
  certificate scanned = Some (mkCert (Some days) (Some key_size))
  /\ sublist (get_or (vulnerabilities results) []) (get_or (vulnerabilities scanned) [])
  /\ Z.of_nat (length (get_or (vulnerabilities scanned) []))
     = Z.of_nat (length (get_or (vulnerabilities results) []))
       + (if days <? 30 then 1 else 0) + (if key_size <? 2048 then 1 else 0)
  /\ score_of (_score_tls_security scanned w)
     = Z.max 0 (w - (weak_version_points (get_or (tls_versions results) [])
                     + sum_with tls_finding_points (get_or (vulnerabilities results) [])
                     + expiry_points days + weak_key_points key_size))
  /\ forall e, TLSSteps._get_certificate_info (Raise e) results = results.
Proof.
  intros scanned.
  assert (Hc : certificate scanned = Some (mkCert (Some days) (Some key_size))).
  { unfold scanned, TLSSteps._get_certificate_info. cbv zeta.
    destruct (days <? 30), (key_size <? 2048), results; reflexivity. }
  assert (Ht : tls_versions scanned = tls_versions results).
  { unfold scanned, TLSSteps._get_certificate_info. cbv zeta.
    destruct (days <? 30), (key_size <? 2048), results; cbn; by rewrite ?option_match_id. }
  assert (Hv : exists added,
             get_or (vulnerabilities scanned) [] = get_or (vulnerabilities results) [] ++ added
             /\ Z.of_nat (length added)
                = (if days <? 30 then 1 else 0) + (if key_size <? 2048 then 1 else 0)
             /\ sum_with tls_finding_points added
                = (if days <? 0 then 3 else if days <? 30 then 1 else 0)
                  + weak_key_points key_size).
  { unfold scanned, TLSSteps._get_certificate_info, weak_key_points. cbv zeta.
    destruct (days <? 30) eqn:H30, (key_size <? 2048), (days <? 0) eqn:H0;
      try (apply Z.ltb_lt in H0; apply Z.ltb_ge in H30; lia);
      destruct results as [? ? ? ? ? ? ? ? ? ? [old|] ? ? ? ? ? ? ? ? ? ? ? ? ?]; cbn;
      eexists; (split; [rewrite <- ?app_assoc; try reflexivity; by rewrite app_nil_r|]);
      split; reflexivity. }
  destruct Hv as (added & Hv & Hlen & Hsum).
  split; [done|]. split; [rewrite Hv; by apply sublist_inserts_r|].
  split; [rewrite Hv, length_app; lia|]. split; [|done].
  destruct (tls_score_eq scanned w) as [-> _].
  rewrite Ht, Hc, Hv, sum_with_app, Hsum. f_equal.
  unfold certificate_points, expiry_points. cbn [days_until_expiry get_or default].
  change (get_or (Some days) 365) with days.
  destruct (days <? 0), (days <? 30); lia.
Qed.

(** ** The cipher's name *)

Lemma contains_eq (needle hay : string) :
  contains needle hay
  = if String.prefix needle hay then true
    else match hay with
         | EmptyString => false
         | String _ rest => contains needle rest
         end.
Proof. by destruct hay. Qed.

Lemma contains_tail (a : ascii) (needle hay : string) :
  contains (String a needle) hay = true -> contains needle hay = true.
Proof.
  induction hay as [|b hay IH]; [discriminate|].
  rewrite (contains_eq (String a needle)), (contains_eq needle (String b hay)).
  destruct (String.prefix needle (String b hay)); [done|].
  cbn [String.prefix]. destruct (ascii_dec a b) as [_|_].
  - destruct (String.prefix needle hay) eqn:Hp.
    + intros _. rewrite contains_eq. by rewrite Hp.
    + exact IH.
  - exact IH.
Qed.

(** X15. [_test_cipher_suites]: a name that contains "3DES" contains "DES", so
    the cipher is reported exactly when its name contains "RC4", "DES" or
    "MD5"; the finding is of severity medium and costs one point in
    [_score_tls_security]. Without a cipher, or when the connection fails,
    nothing changes. *)
Theorem _test_cipher_suites_markers (name version : string) (bits : Z)
    (results : category_result) (w : Z) :
  let scanned := TLSSteps._test_cipher_suites (Ok (Some (name, version, bits))) results in
  let weak := contains "RC4" name || contains "DES" name || contains "MD5" name in
  (contains "3DES" name = true -> contains "DES" name = true)
  /\ Z.of_nat (length (get_or (vulnerabilities scanned) []))
     = Z.of_nat (length (get_or (vulnerabilities results) [])) + (if weak then 1 else 0)
  /\ score_of (_score_tls_security scanned w)
     = Z.max 0 (w - (weak_version_points (get_or (tls_versions results) [])
                     + certificate_points (certificate results)
                     + sum_with tls_finding_points (get_or (vulnerabilities results) [])
                     + (if weak then 1 else 0)))
  /\ TLSSteps._test_cipher_suites (Ok None) results = results
  /\ forall e, TLSSteps._test_cipher_suites (Raise e) results = results.
Proof.
  intros scanned weak.
  assert (H3 : contains "3DES" name = true -> contains "DES" name = true)
    by apply contains_tail.
  split; [done|].
  assert (Hw : existsb (fun weak => contains weak name) ["RC4"; "DES"; "3DES"; "MD5"] = weak).
  { unfold weak. cbn [existsb]. rewrite orb_false_r.
    destruct (contains "RC4" name), (contains "DES" name), (contains "3DES" name) eqn:E3,
      (contains "MD5" name); try reflexivity; by specialize (H3 eq_refl). }
  assert (Hs : exists added,
             get_or (vulnerabilities scanned) [] = get_or (vulnerabilities results) [] ++ added
             /\ tls_versions scanned = tls_versions results
             /\ certificate scanned = certificate results
             /\ Z.of_nat (length added) = (if weak then 1 else 0)
             /\ sum_with tls_finding_points added = (if weak then 1 else 0)).
  { unfold scanned, TLSSteps._test_cipher_suites. cbv zeta. rewrite Hw.
    destruct weak; [|exists []; by rewrite app_nil_r].
    destruct results as [? ? ? ? ? ? ? ? ? ? vs ? ? ? ? ? ? ? ? ? ? ? ? ?].
    eexists [_]. cbn. by rewrite ?option_match_id. }
  destruct Hs as (added & Hv & Ht & Hc & Hlen & Hsum).
  split; [rewrite Hv, length_app; lia|]. split; [|done].
  destruct (tls_score_eq scanned w) as [-> _].
  rewrite Hv, Ht, Hc, sum_with_app, Hsum. f_equal. lia.
Qed.

(** ** The socket fallback *)

Lemma scan_port_cases (net : network) (log : list Z) (port : Z) :
  fst (scan_port net log port) = None
  \/ fst (scan_port net log port) = Some (socket_record port).
Proof.
  unfold scan_port.
  destruct (create_socket net log port) as [[]|]; [|by left].
  destruct (connect_ex net log port) as [code|]; [|by left].
  destruct (code =? 0); [by right|by left].
Qed.

Lemma executor_map_records (net : network) (ports log : list Z) :
  exists opened, omap id (fst (executor_map net log ports)) = map socket_record opened
                 /\ sublist opened ports
                 /\ forall port, In port ports -> always_connects net port -> In port opened.
Proof.
  revert log. induction ports as [|port rest IH]; cbn [executor_map]; intros log.
  - exists []. split; [done|]. split; [constructor|]. by intros ? [].
  - pose proof (scan_port_cases net log port) as Hc.
    assert (Hal : always_connects net port -> fst (scan_port net log port) <> None).
    { intros Ha. destruct (Ha log) as [Hs Hx]. unfold scan_port. by rewrite Hs, Hx. }
    destruct (scan_port net log port) as [x log1]. cbn [fst] in Hc, Hal.
    destruct (IH log1) as (opened & Heq & Hsub & Hall).
    destruct (executor_map net log1 rest) as [rs log2]. cbn [fst] in *.
    destruct Hc as [-> | ->].
    + exists opened. split; [done|]. split; [by constructor|].
      intros p [<-|Hin] Ha; [by destruct (Hal Ha)|by apply Hall].
    + exists (port :: opened). cbn [map].
      change (omap id (Some (socket_record port) :: rs))
        with (socket_record port :: omap id rs). rewrite Heq.
      split; [done|]. split; [by constructor|].
      intros p [<-|Hin] Ha; [by left|right; by apply Hall].
Qed.

Lemma socket_scan_unreachable (net : network) (ports : list Z) :
  unreachable net -> fst (_perform_socket_scan net ports) = [].
Proof.
  intros Hun. unfold _perform_socket_scan.
  pose proof (executor_map_open net ports []) as Hopen.
  destruct (executor_map net [] ports) as [results log]. cbn [fst] in *.
  destruct (omap id results) as [|r found] eqn:Heq; [done|].
  destruct (Hopen r) as (p & log0 & _ & _ & _ & _ & Hx).
  { assert (H : r ∈ omap id results) by (rewrite Heq; left).
    apply list_elem_of_omap in H as (x & Hx & Hid). unfold id in Hid. by subst x. }
  by destruct (Hun log0 p).
Qed.

(** X16. [_perform_socket_scan]: the open ports are reported in the order of the
    port list, each with protocol tcp, the service name of
    [_guess_service_name], state open and no banner; a port of the list
    whose connection always succeeds is among them. *)
Theorem socket_scan_reports_in_order (net : network) (ports : list Z) :
  exists opened,
    fst (_perform_socket_scan net ports) = map socket_record opened
    /\ sublist opened ports
    /\ (forall port, In port ports -> always_connects net port -> In port opened)
    /\ (unreachable net -> opened = []).
Proof.
  pose proof (socket_scan_unreachable net ports) as Hnil. revert Hnil.
  unfold _perform_socket_scan.
  destruct (executor_map_records net ports []) as (opened & Heq & Hsub & Hall).
  destruct (executor_map net [] ports) as [results log]. cbn [fst] in *.
  intros Hnil. exists opened. split; [done|]. split; [done|]. split; [done|].
  intros Hun. rewrite (Hnil Hun) in Heq. by destruct opened.
Qed.



(** ** Banner grabbing *)

Lemma grab_for_banner_added (_grab_banner : Z -> option string) (p q : port_info) :
  ExposureSteps.grab_for _grab_banner p = Ok q -> banner_added _grab_banner p q.
Proof.
  unfold ExposureSteps.grab_for, banner_added.
  destruct (p_port p) as [port|] eqn:Hport; [|done].
  destruct (p_protocol p) as [protocol|] eqn:Hproto.
  2: { intros [= <-]. rewrite Hport, Hproto. tauto. }
  destruct (negb (String.eqb (lower protocol) "tcp")).
  { intros [= <-]. rewrite Hport, Hproto. tauto. }
  destruct (_grab_banner port) as [banner|] eqn:Hb.
  2: { intros [= <-]. rewrite Hport, Hproto. tauto. }
  destruct (String.eqb banner "") eqn:He.
  { intros [= <-]. rewrite Hport, Hproto. tauto. }
  intros [= <-]. cbn. apply String.eqb_neq in He. rewrite Hport, Hproto.
  repeat split; try done. right. by exists port, banner.
Qed.

Lemma grab_all_banner_added (_grab_banner : Z -> option string) (l out : list port_info) :
  ExposureSteps.grab_all _grab_banner l = Ok out -> Forall2 (banner_added _grab_banner) l out.
Proof.
  revert out. induction l as [|p l IH]; cbn [ExposureSteps.grab_all]; intros out H.
  - injection H as <-. constructor.
  - apply bind_ok in H as (q & Hq & H). apply bind_ok in H as (qs & Hqs & H).
    injection H as <-. constructor; [by apply grab_for_banner_added|by apply IH].
Qed.

Lemma grab_all_returns (_grab_banner : Z -> option string) (l : list port_info) :
  Forall (fun p => is_Some (p_port p)) l ->
  exists out, ExposureSteps.grab_all _grab_banner l = Ok out.
Proof.
  induction 1 as [|p l [port Hp] _ [out IH]]; cbn [ExposureSteps.grab_all]; [by eexists|].
  assert (exists q, ExposureSteps.grab_for _grab_banner p = Ok q) as [q ->].
  { unfold ExposureSteps.grab_for. rewrite Hp. repeat case_match; by eexists. }
  rewrite IH. cbn [mbind outcome_mbind outcome_bind]. by eexists.
Qed.

Lemma grab_all_raises (_grab_banner : Z -> option string) (l : list port_info) (p : port_info) :
  In p l -> p_port p = None ->
  ExposureSteps.grab_all _grab_banner l = Raise (mkExn KeyError "'port'").
Proof.
  induction l as [|q l IH]; [done|]. intros [->|Hin] Hp; cbn [ExposureSteps.grab_all].
  - unfold ExposureSteps.grab_for. by rewrite Hp.
  - destruct (ExposureSteps.grab_for _grab_banner q) as [q'|e] eqn:Hq.
    + cbn [mbind outcome_mbind outcome_bind]. by rewrite IH.
    + cbn [mbind outcome_mbind outcome_bind]. unfold ExposureSteps.grab_for in Hq.
      destruct (p_port q); [|by injection Hq as <-].
      repeat case_match; discriminate.
Qed.

(** The open-port scoring reads the port and the service of each record
    and nothing else. *)
Lemma _score_internet_exposure_reads (r : category_result) (l1 l2 : list port_info) (w : Z) :
  Forall2 (fun p q => p_port q = p_port p /\ p_service q = p_service p) l1 l2 ->
  _score_internet_exposure (with_open_ports r l2) w
  = _score_internet_exposure (with_open_ports r l1) w.
Proof.
  intros H. unfold _score_internet_exposure. cbv zeta.
  assert (Ho : forall l, get_or (open_ports (with_open_ports r l)) [] = l)
    by (intros l; by destruct r).
  rewrite !Ho.
  assert (He : forall ports, existsb (fun p => port_in (p_port p) ports) l2
                             = existsb (fun p => port_in (p_port p) ports) l1).
  { intros ports. induction H as [|p q l1 l2 [Hp _] _ IH]; [done|].
    cbn [existsb]. by rewrite Hp, IH. }
  rewrite !He. clear He.
  generalize (existsb (fun p => port_in (p_port p) [443]) l1).
  generalize (existsb (fun p => port_in (p_port p) [21; 23]) l1). intros insecure https.
  match goal with |- context [fold_left ?f l1 _] => set (step := f) end.
  assert (Hf : forall acc, fold_left step l2 acc = fold_left step l1 acc).
  { induction H as [|p q l1 l2 [Hp Hs] _ IH]; [done|]. intros acc. cbn [fold_left].
    rewrite IH. f_equal. unfold step. destruct acc. by rewrite Hp, Hs. }
  by rewrite Hf.
Qed.

(** X18. [_perform_banner_grabbing]: a quick scan leaves the records as they
    are. Otherwise, when every record has a port, the records come back in
    the same order with the same port, protocol, service, state and method
    and at most a new, non-empty banner, so that the score of the entry is
    the same with or without the banners; a record without a port raises
    KeyError. *)
Theorem _perform_banner_grabbing_keeps_records (_grab_banner : Z -> option string)
    (self : base_scanner) (open_ports : list port_info) :
  (should_scan_quickly self = true ->
   ExposureSteps._perform_banner_grabbing _grab_banner self open_ports = Ok open_ports)
  /\ (Forall (fun p => is_Some (p_port p)) open_ports ->
      exists grabbed,
        ExposureSteps._perform_banner_grabbing _grab_banner self open_ports = Ok grabbed
        /\ Forall2 (banner_added _grab_banner) open_ports grabbed
        /\ forall r w, _score_internet_exposure (with_open_ports r grabbed) w
                       = _score_internet_exposure (with_open_ports r open_ports) w)
  /\ (should_scan_quickly self = false ->
      forall p, In p open_ports -> p_port p = None ->
      ExposureSteps._perform_banner_grabbing _grab_banner self open_ports
      = Raise (mkExn KeyError "'port'")).
Proof.
  unfold ExposureSteps._perform_banner_grabbing.
  split; [by intros ->|]. split.
  - intros Hall.
    assert (exists grabbed,
              (if should_scan_quickly self then Ok open_ports
               else ExposureSteps.grab_all _grab_banner open_ports) = Ok grabbed
              /\ Forall2 (banner_added _grab_banner) open_ports grabbed)
      as (grabbed & -> & Hg).
    { destruct (should_scan_quickly self).
      - exists open_ports. split; [done|].
        apply Forall2_same_length_lookup_2; [done|].
        intros i p q Hp Hq. rewrite Hp in Hq. injection Hq as <-.
        unfold banner_added. tauto.
      - destruct (grab_all_returns _grab_banner open_ports Hall) as [out Hout].
        exists out. split; [done|]. by apply grab_all_banner_added. }
    exists grabbed. split; [done|]. split; [done|].
    intros r w. apply _score_internet_exposure_reads.
    eapply Forall2_impl; [exact Hg|]. unfold banner_added. intros p q H. tauto.
  - intros -> p Hin Hp. by eapply grab_all_raises.
Qed.

(** ** Filtered ports *)

(** X19. [_is_port_filtered] against [scan_port] on the same connection: a port
    reported open is not filtered, neither is one that refuses the
    connection (errno 111); a failing socket or connection counts as
    filtered. *)
Theorem _is_port_filtered_not_open (net : network) (log : list Z) (port : Z) :
  (_is_port_filtered net log port = true -> fst (scan_port net log port) = None)
  /\ (create_socket net log port = Ok tt ->
      _is_port_filtered net log port
      = match connect_ex net log port with
        | Ok code => negb (code =? 0) && negb (code =? 111)
        | Raise _ => true
        end)
  /\ (forall e, create_socket net log port = Raise e -> _is_port_filtered net log port = true).
Proof.
  unfold _is_port_filtered, scan_port.
  destruct (create_socket net log port) as [[]|e0].
  - split; [|split; [done|discriminate]].
    destruct (connect_ex net log port) as [code|]; [|done].
    by destruct (code =? 0).
  - split; [done|]. split; [discriminate|done].
Qed.

(** ** Scoring what the orchestrator returns *)

Lemma nothing_completed_lookup (m : category_map) (c : string) :
  nothing_completed m -> is_completed (default empty_result (m !! c)) = false.
Proof.
  intros H. destruct (m !! c) as [r|] eqn:Hc; [|reflexivity].
  apply is_completed_false. by apply (H c).
Qed.

Lemma nothing_completed_filter (m : category_map) :
  nothing_completed m ->
  filter (fun kv : string * category_result => is_completed (snd kv) = true) m = ∅.
Proof.
  intros H. apply map_empty_filter. intros c r Hc Hr. cbn in Hr.
  pose proof (is_completed_false r (H c r Hc)) as Hf. congruence.
Qed.

Lemma calculate_score_nothing_completed (m : category_map) :
  nothing_completed m -> calculate_score m = Ok all_failed_report.
Proof.
  intros H.
  assert (H0 : calculate_score ∅ = Ok all_failed_report) by (vm_compute; reflexivity).
  rewrite <- H0. unfold calculate_score.
  assert (Hloop : score_loop m = score_loop ∅).
  { unfold score_loop. apply for_each_agree. intros c w _. right.
    split; [by apply nothing_completed_lookup|reflexivity]. }
  rewrite Hloop. destruct (score_loop ∅) as [st|e]; [|done].
  cbn [mbind outcome_mbind outcome_bind].
  destruct (py_int (total_score st)) as [n|e]; [|done].
  cbn [mbind outcome_mbind outcome_bind]. do 2 f_equal.
  unfold _generate_summary. cbv zeta.
  rewrite (nothing_completed_filter m H), map_filter_empty. reflexivity.
Qed.

(** X20. [calculate_score] when no entry is completed (failed entries, entries
    without a status, missing categories): the score is 80, there is no
    problem and no recommendation, and the summary counts 8 failed
    categories. *)
Theorem nothing_completed_scores_80 (scan_results : category_map) :
  nothing_completed scan_results -> calculate_score scan_results = Ok all_failed_report.
Proof. apply calculate_score_nothing_completed. Qed.

Lemma nothing_completed_scores_80_witness :
  nothing_completed {[ "tls_security" := email_failed_entry ]}
  /\ calculate_score {[ "tls_security" := email_failed_entry ]} = Ok all_failed_report.
Proof.
  assert (H : nothing_completed {[ "tls_security" := email_failed_entry ]}).
  { intros c r Hc. apply lookup_singleton_Some in Hc as [_ <-]. discriminate. }
  split; [exact H|]. exact (nothing_completed_scores_80 _ H).
Defined.

Lemma run_comprehensive_scan_entries (cls : scanner_classes) (target scan_type : string)
    (task : progress_task) :
  dom (run_comprehensive_scan cls target scan_type task) = scheduled
  /\ size (run_comprehensive_scan cls target scan_type task) = 8%nat
  /\ forall c r, run_comprehensive_scan cls target scan_type task !! c = Some r ->
       exists (i : nat) sc,
         scan_categories cls !! i = Some (c, sc)
         /\ r = category_entry (category_attempt task target scan_type 8 (Z.of_nat i) (c, sc)).
Proof.
  unfold run_comprehensive_scan.
  cbn [scan_categories length Z.of_nat Pos.of_succ_nat Pos.succ run_categories].
  rewrite !run_category_insert. cbn [fst].
  split; [|split].
  - rewrite !dom_insert_L, dom_empty_L. unfold scheduled. cbn. set_solver.
  - repeat (rewrite map_size_insert_None; [|by simplify_map_eq]).
    by rewrite map_size_empty.
  - intros c r H.
    repeat (apply lookup_insert_Some in H as [[<- <-]|[_ H]];
            [first [by exists 7%nat; eexists | by exists 6%nat; eexists
                   | by exists 5%nat; eexists | by exists 4%nat; eexists
                   | by exists 3%nat; eexists | by exists 2%nat; eexists
                   | by exists 1%nat; eexists | by exists 0%nat; eexists]|]).
    by apply lookup_empty_Some in H.
Qed.

(** X21. [run_comprehensive_scan] followed by [calculate_score], as
    [perform_scan] calls them: the summary's failed count is the number of
    entries that are not completed, between 0 and 8; and when every
    attempt raises or returns an entry that is not completed, the report is
    score 80 without problems or recommendations and with 8 failed
    categories. *)
Theorem scan_then_score (cls : scanner_classes) (target scan_type : string)
    (task : progress_task) :
  let scan_results := run_comprehensive_scan cls target scan_type task in
  (forall score problems recommendations summary,
     calculate_score scan_results = Ok (score, problems, recommendations, summary) ->
     categories_failed summary = Z.of_nat (size (not_completed_entries scan_results))
     /\ 0 <= categories_failed summary <= 8
     /\ categories_completed summary + categories_failed summary = 8)
  /\ ((forall (i : nat) c sc, scan_categories cls !! i = Some (c, sc) ->
         status (category_entry (category_attempt task target scan_type 8 (Z.of_nat i) (c, sc)))
         <> Some "completed") ->
      calculate_score scan_results = Ok all_failed_report).
Proof.
  intros scan_results.
  destruct (run_comprehensive_scan_entries cls target scan_type task) as (_ & Hsize & Hent).
  fold scan_results in Hsize, Hent. split.
  - intros score problems recommendations summary H. unfold calculate_score in H.
    apply bind_ok in H as (st & _ & H). apply bind_ok in H as (n & _ & H).
    injection H as _ _ _ <-. unfold _generate_summary, not_completed_entries.
    cbn [categories_failed categories_completed].
    change (Z.of_nat (length category_weights)) with 8.
    pose proof (map_size_disj_union _ _
                  (map_disjoint_filter_complement
                     (fun kv : string * category_result => is_completed kv.2 = true)
                     scan_results)) as Hu.
    rewrite map_filter_union_complement, Hsize in Hu. lia.
  - intros Hall. apply calculate_score_nothing_completed.
    intros c r Hc. destruct (Hent c r Hc) as (i & sc & Hi & ->). by apply (Hall i c sc).
Qed.

(** ** The merged recommendations *)

Ltac one_recommendation :=
  repeat match goal with
         | |- context [fold_left ?f ?l ?a] => destruct (fold_left f l a) as [? ?]
         end;
  cbn [snd fst];
  repeat case_match; first [by left | right; eexists; split; reflexivity].

Lemma _score_category_recommendation (c : string) (w : Z) (t : string)
    (r : category_result) (x : scored) :
  In (c, w) category_weights -> In (c, t) recommendation_texts ->
  _score_category c r w = Ok x -> at_most_one t (recommendations_of x).
Proof.
  intros Hin Ht. unfold at_most_one, recommendations_of.
  each_category Hin; simpl in Ht;
    repeat (destruct Ht as [Ht|Ht]; [try discriminate Ht; injection Ht as <-|]);
    try done; unfold _score_category; cbn [String.eqb Ascii.eqb Bool.eqb]; intros H.
  - injection H as <-. unfold _score_internet_exposure. cbv zeta. one_recommendation.
  - injection H as <-. unfold _score_tls_security. cbv zeta. one_recommendation.
  - unfold _score_web_security in H. cbv zeta in H.
    repeat (apply bind_ok in H as (? & _ & H)). injection H as <-. one_recommendation.
  - injection H as <-. unfold _score_email_security. cbv zeta. one_recommendation.
  - unfold _score_vulnerabilities in H. cbv zeta in H.
    repeat (apply bind_ok in H as (? & _ & H)). injection H as <-. one_recommendation.
  - injection H as <-. unfold _score_iam_assessment. cbv zeta. one_recommendation.
  - injection H as <-. unfold _score_backup_dr. cbv zeta. one_recommendation.
  - injection H as <-. unfold _score_security_monitoring. cbv zeta. one_recommendation.
Qed.

Lemma process_category_recommendations (m : category_map) (st st' : engine_state)
    (item : string * Z) :
  process_category m st item = Ok st' ->
  all_recommendations st' = all_recommendations st ++ category_recommendations m item.
Proof.
  destruct item as [c w]. unfold process_category, category_recommendations. cbn [fst snd].
  destruct (is_completed _).
  - destruct (_score_category c _ w) as [[[s ps] rs]|e]; [|done].
    cbn [mbind outcome_mbind outcome_bind]. intros H.
    apply bind_ok in H as (d & _ & H). apply bind_ok in H as (t & _ & H).
    by injection H as <-.
  - intros H. apply bind_ok in H as (fs & _ & H). apply bind_ok in H as (p & _ & H).
    apply bind_ok in H as (t & _ & H). injection H as <-. simpl. by rewrite app_nil_r.
Qed.

Lemma for_each_recommendations (m : category_map) (l : list (string * Z))
    (st st' : engine_state) :
  for_each (process_category m) l st = Ok st' ->
  all_recommendations st' = all_recommendations st ++ flat_map (category_recommendations m) l.
Proof.
  revert st. induction l as [|item l IH]; cbn [for_each flat_map]; intros st H.
  - injection H as <-. by rewrite app_nil_r.
  - apply bind_ok in H as (st1 & H1 & H). rewrite (IH st1 H).
    rewrite (process_category_recommendations m st st1 item H1). by rewrite <- app_assoc.
Qed.

Lemma category_recommendations_one (m : category_map) (c : string) (w : Z) (t : string) :
  In (c, w) category_weights -> In (c, t) recommendation_texts ->
  at_most_one t (category_recommendations m (c, w)).
Proof.
  intros Hin Ht. unfold category_recommendations. cbn [fst snd].
  destruct (is_completed _); [|by left].
  destruct (_score_category c _ w) as [x|e] eqn:Hs; [|by left].
  by eapply _score_category_recommendation.
Qed.

Lemma flat_map_at_most_one (m : category_map) (weights : list (string * Z))
    (texts : list (string * string)) :
  Forall2 (fun item text => fst item = fst text
                            /\ at_most_one (snd text) (category_recommendations m item))
          weights texts ->
  sublist (map recommendation (flat_map (category_recommendations m) weights))
          (map snd texts).
Proof.
  induction 1 as [|item text weights texts [_ Hone] _ IH]; cbn [flat_map map]; [constructor|].
  destruct Hone as [->|(rec & -> & <-)]; cbn [app map]; by constructor.
Qed.

Lemma weights_and_texts (m : category_map) :
  Forall2 (fun item text => fst item = fst text
                            /\ at_most_one (snd text) (category_recommendations m item))
          category_weights recommendation_texts.
Proof.
  unfold category_weights, recommendation_texts.
  repeat (constructor;
          [split; [reflexivity|];
           apply category_recommendations_one; simpl; tauto|]).
  constructor.
Qed.

Lemma loop_recommendations (m : category_map) (st : engine_state) :
  score_loop m = Ok st ->
  all_recommendations st = flat_map (category_recommendations m) category_weights
  /\ sublist (map recommendation (all_recommendations st)) (map snd recommendation_texts)
  /\ NoDup (map recommendation (all_recommendations st)).
Proof.
  intros H. unfold score_loop in H.
  pose proof (for_each_recommendations m category_weights initial_state st H) as Hr.
  change (all_recommendations initial_state) with (@nil recommendation_entry) in Hr.
  rewrite app_nil_l in Hr.
  assert (Hsub : sublist (map recommendation (all_recommendations st))
                         (map snd recommendation_texts)).
  { rewrite Hr. apply flat_map_at_most_one, weights_and_texts. }
  split; [done|]. split; [done|].
  eapply sublist_NoDup; [|exact Hsub]. compute_done.
Qed.

(** X22. The recommendations of the report: each category's scorer gives at
    most one, with a text of its own, so the list built by the loop has no
    repeated text and [_consolidate_recommendations] returns it as it is;
    the report holds at most 8 recommendations, in the order of the weight
    table. *)
Theorem calculate_score_recommendations (scan_results : category_map) (score : Z)
    (problems : list problem) (recommendations : list recommendation_entry)
    (summary : summary_info) :
  calculate_score scan_results = Ok (score, problems, recommendations, summary) ->
  recommendations = flat_map (category_recommendations scan_results) category_weights
  /\ sublist (map recommendation recommendations) (map snd recommendation_texts)
  /\ NoDup (map recommendation recommendations)
  /\ (length recommendations <= 8)%nat.
Proof.
  intros H. unfold calculate_score in H.
  apply bind_ok in H as (st & Hst & H). apply bind_ok in H as (n & _ & H).
  injection H as _ _ <- _.
  destruct (loop_recommendations scan_results st Hst) as (Heq & Hsub & Hnd).
  rewrite (consolidate_nodup_id _ Hnd).
  split; [done|]. split; [done|]. split; [done|].
  apply sublist_length in Hsub. by rewrite !length_map in Hsub.
Qed.

Lemma calculate_score_recommendations_witness :
  match calculate_score {[ "tls_security" := tls10_entry ]} with
  | Ok (score, problems, recommendations, summary) =>
      recommendations
      = flat_map (category_recommendations {[ "tls_security" := tls10_entry ]})
                 category_weights
      /\ map recommendation recommendations = ["Update TLS configuration and certificates"]
  | Raise _ => False
  end.
Proof.
  destruct (calculate_score {[ "tls_security" := tls10_entry ]})
    as [[[[score problems] recommendations] summary]|e] eqn:H.
  - destruct (calculate_score_recommendations _ score problems recommendations summary H)
      as (Hr & _).
    split; [exact Hr|].
    vm_compute in H. injection H as _ _ <- _. reflexivity.
  - vm_compute in H. discriminate H.
Defined.

(** ** The scores of the other categories *)

Lemma sum_with_cons {A} (f : A -> Z) (x : A) (l : list A) :
  sum_with f (x :: l) = f x + sum_with f l.
Proof. reflexivity. Qed.

(** A loop that appends problems and adds points. *)
Lemma fold_left_collect {A} (step : loop_acc -> A -> loop_acc) (pts n : A -> Z) :
  (forall ps d x, exists added,
      step (ps, d) x = (ps ++ added, d + pts x) /\ Z.of_nat (length added) = n x) ->
  forall l ps d, exists added,
    fold_left step l (ps, d) = (ps ++ added, d + sum_with pts l)
    /\ Z.of_nat (length added) = sum_with n l.
Proof.
  intros Hstep. induction l as [|x l IH]; intros ps d; cbn [fold_left].
  - exists []. rewrite app_nil_r. split; [|done]. f_equal. unfold sum_with. simpl. lia.
  - destruct (Hstep ps d x) as (a1 & -> & Hn1).
    destruct (IH (ps ++ a1) (d + pts x)) as (a2 & -> & Hn2).
    exists (a1 ++ a2). rewrite <- app_assoc, !sum_with_cons, length_app.
    split; [f_equal; lia|lia].
Qed.

Ltac eqb_cases :=
  repeat case_match; try lia;
  repeat match goal with
         | H : String.eqb _ _ = true |- _ => apply String.eqb_eq in H
         end;
  congruence.

Ltac finding_step step :=
  let ps := fresh "ps" in let d := fresh "d" in let v := fresh "v" in
  intros ps d v; eexists [_]; split; [|reflexivity];
  unfold step, severity_points; cbv beta iota; f_equal; eqb_cases.

(** X23. [_score_email_security]: 3, 3 and 4 points for a missing SPF, DKIM and
    DMARC record, 2 for a finding of severity high and 1 for medium; a
    finding of another severity, critical included, costs nothing. One
    problem per missing record and per finding. *)
Theorem _score_email_security_formula (r : category_result) (w : Z) :
  score_of (_score_email_security r w)
  = Z.max 0 (w - (email_record_points r
                  + sum_with (severity_points 0 2 1) (get_or (vulnerabilities r) [])))
  /\ Z.of_nat (length (problems_of (_score_email_security r w)))
     = email_records_missing r + Z.of_nat (length (get_or (vulnerabilities r) [])).
Proof.
  unfold _score_email_security, score_of, problems_of. cbv zeta.
  fold (spf_found r) (dkim_found r) (dmarc_found r).
  unfold email_record_points, email_records_missing.
  set (vs := get_or (vulnerabilities r) []). clearbody vs.
  match goal with |- context [fold_left ?f vs ?a] => set (step := f); set (acc := a) end.
  assert (Hacc : exists ps0,
             acc = (ps0, (if spf_found r then 0 else 3) + (if dkim_found r then 0 else 3)
                         + (if dmarc_found r then 0 else 4))
             /\ Z.of_nat (length ps0)
                = (if spf_found r then 0 else 1) + (if dkim_found r then 0 else 1)
                  + (if dmarc_found r then 0 else 1)).
  { unfold acc. destruct (spf_found r), (dkim_found r), (dmarc_found r);
      eexists; split; reflexivity. }
  destruct Hacc as (ps0 & -> & Hlen0).
  destruct (fold_left_collect step (severity_points 0 2 1) (fun _ => 1)) with (l := vs)
    (ps := ps0) (d := (if spf_found r then 0 else 3) + (if dkim_found r then 0 else 3)
                      + (if dmarc_found r then 0 else 4)) as (added & -> & Hlen).
  { finding_step step. }
  cbn [fst snd]. split; [done|]. rewrite length_app, Nat2Z.inj_add, Hlen0, Hlen.
  f_equal. clear. induction vs as [|v vs IH]; [done|].
  rewrite sum_with_cons, IH. simpl length. lia.
Qed.

Lemma sum_with_ones {A} (l : list A) : sum_with (fun _ => 1) l = Z.of_nat (length l).
Proof. induction l as [|x l IH]; [done|]. rewrite sum_with_cons, IH. simpl length. lia. Qed.

Lemma sum_with_const {A} (c : Z) (l : list A) :
  sum_with (fun _ => c) l = c * Z.of_nat (length l).
Proof. induction l as [|x l IH]; [simpl; lia|]. rewrite sum_with_cons, IH. simpl length. lia. Qed.

(** X24. [_score_iam_assessment]: 6 points for an admin interface without
    authentication and 2 for one without MFA (both can apply to one
    interface), then 4, 2 and 1 for a finding of severity critical, high
    and medium; one problem per deduction of an interface and per
    finding. *)
Theorem _score_iam_assessment_formula (r : category_result) (w : Z) :
  score_of (_score_iam_assessment r w)
  = Z.max 0 (w - (sum_with interface_points (get_or (admin_interfaces r) [])
                  + sum_with (severity_points 4 2 1) (get_or (vulnerabilities r) [])))
  /\ Z.of_nat (length (problems_of (_score_iam_assessment r w)))
     = sum_with interface_problems (get_or (admin_interfaces r) [])
       + Z.of_nat (length (get_or (vulnerabilities r) [])).
Proof.
  unfold _score_iam_assessment, score_of, problems_of. cbv zeta.
  set (vs := get_or (vulnerabilities r) []). set (ifs := get_or (admin_interfaces r) []).
  clearbody vs ifs.
  match goal with
  | |- context [fold_left ?f vs (fold_left ?g ifs _)] => set (step := f); set (step_i := g)
  end.
  destruct (fold_left_collect step_i interface_points interface_problems) with (l := ifs)
    (ps := @nil problem) (d := 0) as (a1 & -> & Hlen1).
  { intros ps d i. unfold step_i, interface_points, interface_problems. cbn [fst snd].
    destruct (truthy (authentication_required i)), (truthy (mfa_detected i)); cbn [negb fst snd].
    - exists []. rewrite app_nil_r. split; [f_equal; lia|done].
    - eexists [_]. split; [f_equal; lia|done].
    - eexists [_]. split; [f_equal; lia|done].
    - eexists [_; _]. rewrite <- app_assoc. split; [f_equal; lia|done]. }
  destruct (fold_left_collect step (severity_points 4 2 1) (fun _ => 1)) with (l := vs)
    (ps := [] ++ a1) (d := 0 + sum_with interface_points ifs) as (a2 & -> & Hlen2).
  { finding_step step. }
  cbn [fst snd]. split; [f_equal; lia|].
  rewrite !length_app, !Nat2Z.inj_add, Hlen1, Hlen2, sum_with_ones. simpl length. lia.
Qed.

(** X25. [_score_backup_dr]: 2 points for every exposed backup and every
    exposed configuration file, 2 for a finding of severity critical and 1
    for high; a finding of severity medium costs nothing. One problem per
    file and per finding. *)
Theorem _score_backup_dr_formula (r : category_result) (w : Z) :
  score_of (_score_backup_dr r w)
  = Z.max 0 (w - (2 * Z.of_nat (length (get_or (exposed_backups r) []))
                  + 2 * Z.of_nat (length (get_or (config_files r) []))
                  + sum_with (severity_points 2 1 0) (get_or (vulnerabilities r) [])))
  /\ Z.of_nat (length (problems_of (_score_backup_dr r w)))
     = Z.of_nat (length (get_or (exposed_backups r) []))
       + Z.of_nat (length (get_or (config_files r) []))
       + Z.of_nat (length (get_or (vulnerabilities r) [])).
Proof.
  unfold _score_backup_dr, score_of, problems_of. cbv zeta.
  set (vs := get_or (vulnerabilities r) []). set (bs := get_or (exposed_backups r) []).
  set (cs := get_or (config_files r) []). clearbody vs bs cs.
  match goal with
  | |- context [fold_left ?f vs (fold_left ?g cs (fold_left ?h bs _))] =>
      set (step := f); set (step_c := g); set (step_b := h)
  end.
  destruct (fold_left_collect step_b (fun _ => 2) (fun _ => 1)) with (l := bs)
    (ps := @nil problem) (d := 0) as (a1 & -> & Hlen1).
  { intros ps d b. eexists [_]. split; reflexivity. }
  destruct (fold_left_collect step_c (fun _ => 2) (fun _ => 1)) with (l := cs)
    (ps := [] ++ a1) (d := 0 + sum_with (fun _ => 2) bs) as (a2 & -> & Hlen2).
  { intros ps d b. eexists [_]. split; reflexivity. }
  destruct (fold_left_collect step (severity_points 2 1 0) (fun _ => 1)) with (l := vs)
    (ps := ([] ++ a1) ++ a2) (d := 0 + sum_with (fun _ => 2) bs + sum_with (fun _ => 2) cs)
    as (a3 & -> & Hlen3).
  { finding_step step. }
  cbn [fst snd]. rewrite !sum_with_const. split; [f_equal; lia|].
  rewrite !length_app, !Nat2Z.inj_add, Hlen1, Hlen2, Hlen3, !sum_with_ones. simpl length. lia.
Qed.

(** X26. [_score_security_monitoring]: one point and one problem of severity
    low for each of WAF, DDoS protection and rate limiting that was not
    detected. The recommendation depends on the list of security tools
    alone: it is given exactly when the list is empty, with or without
    problems. *)
Theorem _score_security_monitoring_formula (r : category_result) (w : Z) :
  score_of (_score_security_monitoring r w) = Z.max 0 (w - controls_missing r)
  /\ Z.of_nat (length (problems_of (_score_security_monitoring r w))) = controls_missing r
  /\ Forall (fun p => severity p = "low") (problems_of (_score_security_monitoring r w))
  /\ (recommendations_of (_score_security_monitoring r w) = []
      <-> get_or (security_tools r) [] <> []).
Proof.
  unfold _score_security_monitoring, score_of, problems_of, recommendations_of,
    controls_missing. cbv zeta.
  destruct (get_or (waf_detected r) false), (get_or (ddos_protection r) false),
    (get_or (rate_limiting r) false), (get_or (security_tools r) []);
    cbn [negb fst snd app length];
    (split; [f_equal; lia|]); (split; [reflexivity|]);
    (split; [repeat constructor|]); split; congruence.
Qed.

(** ** The score of the known vulnerabilities *)

Lemma forallb_table {A B} (f : A -> B -> bool) (l1 : list A) (l2 : list B) :
  forallb (fun a => forallb (f a) l2) l1 = true ->
  forall a b, In a l1 -> In b l2 -> f a b = true.
Proof.
  intros H a b Ha Hb. rewrite forallb_forall in H. specialize (H a Ha).
  rewrite forallb_forall in H. by apply H.
Qed.

Lemma half_points_checked (points low : Z) :
  In points (seqZ 0 (checked_counts + 1)) -> In low (seqZ 0 (checked_counts + 1)) ->
  half_points_exact points low = true.
Proof.
  assert (H : forallb (fun points => forallb (half_points_exact points)
                                             (seqZ 0 (checked_counts + 1)))
                      (seqZ 0 (checked_counts + 1)) = true)
    by (vm_compute; reflexivity).
  exact (forallb_table half_points_exact (seqZ 0 (checked_counts + 1))
           (seqZ 0 (checked_counts + 1)) H points low).
Qed.

Lemma in_checked_counts (z : Z) :
  0 <= z <= checked_counts -> In z (seqZ 0 (checked_counts + 1)).
Proof. intros Hz. apply list_elem_of_In, elem_of_seqZ. unfold checked_counts in *. lia. Qed.

Lemma truncated_deduction_eq (points low : Z) :
  0 <= points <= checked_counts -> 0 <= low <= checked_counts ->
  truncated_deduction points low = Ok (points + low / 2).
Proof.
  intros Hp Hl.
  pose proof (half_points_checked points low (in_checked_counts points Hp)
                (in_checked_counts low Hl)) as H.
  unfold half_points_exact in H.
  destruct (truncated_deduction points low) as [t|e]; [|discriminate H].
  apply Z.eqb_eq in H. by subst t.
Qed.

(** X27. [_score_vulnerabilities]: the score is taken from the counts of the
    risk summary alone, 8, 4 and 2 points per critical, high and medium
    vulnerability and half a point per low one, truncated: one low
    vulnerability costs nothing, two cost one point. The problems are
    taken from the vulnerability list alone, one per entry. Shown for
    counts whose points and low count are at most 50. *)
Theorem _score_vulnerabilities_formula (r : category_result) (w : Z) :
  0 <= counted_points r <= checked_counts ->
  0 <= risk_count rs_low r <= checked_counts ->
  exists x,
    _score_vulnerabilities r w = Ok x
    /\ score_of x = Z.max 0 (w - (counted_points r + risk_count rs_low r / 2))
    /\ length (problems_of x) = length (get_or (vulnerabilities r) []).
Proof.
  intros Hp Hl. pose proof (truncated_deduction_eq _ _ Hp Hl) as Ht.
  unfold truncated_deduction, counted_points, risk_count in Ht.
  unfold _score_vulnerabilities. cbv zeta.
  destruct (py_mul _ _) as [low_part|e]; [|discriminate Ht].
  cbn [mbind outcome_mbind outcome_bind] in Ht |- *.
  change (0 + ?a * 8 + ?b * 4 + ?c * 2) with (a * 8 + b * 4 + c * 2).
  destruct (py_add _ low_part) as [deductions|e]; [|discriminate Ht].
  cbn [mbind outcome_mbind outcome_bind] in Ht |- *. rewrite Ht.
  cbn [mbind outcome_mbind outcome_bind]. eexists. split; [reflexivity|].
  unfold score_of, problems_of, counted_points, risk_count. cbn [fst snd].
  split; [reflexivity|]. by rewrite length_map.
Qed.

Lemma _score_vulnerabilities_formula_witness :
  exists x,
    _score_vulnerabilities
      (mkResult (Some "completed") None None None None None None None None None
                (Some [mkFinding None None (Some "low") None (Some "CVE-2021-0001")])
                None None None None None (Some (mkRisk (Some 1) (Some 0) (Some 2) (Some 3)))
                None None None None None None None) 25 = Ok x
    /\ score_of x = 12
    /\ length (problems_of x) = 1%nat.
Proof.
  destruct (_score_vulnerabilities_formula
              (mkResult (Some "completed") None None None None None None None None None
                (Some [mkFinding None None (Some "low") None (Some "CVE-2021-0001")])
                None None None None None (Some (mkRisk (Some 1) (Some 0) (Some 2) (Some 3)))
                None None None None None None None) 25)
    as (x & Hx & Hs & Hn); [vm_compute; split; discriminate..|].
  exists x. split; [exact Hx|]. split; [exact Hs|exact Hn].
Defined.

(** ** The scan of a server with an outdated TLS version *)









